(** * TwitchData: the batched lookup and cache layer

    A shallow embedding of the batching core of the [TwitchData] module
    (users, streams and tags): the waiter registries, the three batch
    schedulers [_loadUsers], [_loadStreams], [_loadTags], the tag cache
    ([memorizeTag], [getTag]) and [getTopTags]; and, around that core, the
    other readers of the tag cache ([getTagImmediate], [getLanguagesFromTags],
    [getMatchingTags]), the sort of the searches by name, [createPoll], and
    the request [queryApollo] and [mutate] hand to the client.

    The module is single threaded.  An [async] method runs synchronously up
    to its first [await]; the rest of its body runs when the awaited remote
    query settles.  Each scheduler is therefore embedded as two functions:
    the synchronous prefix ([load_begin]) and the continuation
    ([load_settle]) that receives the outcome of the query.  The local
    variables captured by the suspended continuation ([ids], [logins]) are
    kept in the state as the in-flight cycle.  The query is recorded when
    the cycle starts: the source issues it after [await import(...)] of the
    query document, with the variables computed before that [await].

    Everything the module does to its callers and to the transport is
    recorded as a trace of events, so that who was notified, with what, and
    how many queries were made can be read off a run. *)

From Stdlib Require Import ZArith Lia.
From stdpp Require Import base option list gmap strings.

(** ** Keys and truthiness *)

(** A lookup key is a JavaScript number or string (the documentation of
    [getUserBasic] gives [Number|String] for an id).  Map and Set compare
    keys with SameValueZero, under which a number never equals a string. *)
Inductive JKey :=
| KNum (n : Z)
| KStr (s : string).

#[global] Instance JKey_eq_dec : EqDecision JKey.
Proof. solve_decision. Defined.

#[global] Instance JKey_countable : Countable JKey.
Proof.
  refine (inj_countable'
            (λ k, match k with KNum n => inl n | KStr s => inr s end)
            (λ x, match x with inl n => KNum n | inr s => KStr s end) _).
  by intros [].
Defined.

(** [if ( k )] for a number or a string: zero and the empty string are falsy. *)
Definition truthy (k : JKey) : bool :=
  match k with
  | KNum n => negb (n =? 0)%Z
  | KStr s => negb (bool_decide (s = EmptyString))
  end.

(** An argument or field that may be [null] or [undefined] is an [option]. *)
Definition truthy_opt (k : option JKey) : bool :=
  match k with
  | Some k => truthy k
  | None => false
  end.

(** The value of a condition [if ( k )] that holds: the key itself. *)
Definition if_truthy (k : option JKey) : option JKey :=
  match k with
  | Some k => if truthy k then Some k else None
  | None => None
  end.

Definition truthy_str (s : option string) : bool :=
  match s with
  | Some s => negb (bool_decide (s = EmptyString))
  | None => false
  end.

(** ** Waiters, values and events *)

(** A waiter is the pair [[s, f]] of continuations made by one [new Promise];
    it is named by a number. *)
Definition Waiter := nat.

(** The payload of a live stream ([node.stream]); opaque to this module. *)
Definition Stream := string.

(** A node of a [user-bulk] or [stream-fetch] response. *)
Record Node := mkNode {
  node_id : option JKey;
  node_login : option JKey;
  node_stream : option Stream
}.

(** A raw tag node of a [tags-fetch] or [tags-top] response. *)
Record TagNode := mkTagNode {
  tn_id : option JKey;
  tn_tagName : option string;
  tn_localizedName : option string;
  tn_localizedDescription : option string;
  tn_isAutomated : option bool;
  tn_isLanguageTag : option bool;
  tn_scope : option string
}.

(** A cached tag record; [label] and [description] are absent until set. *)
Record Tag := mkTag {
  tag_id : JKey;
  tag_value : JKey;
  tag_is_auto : option bool;
  tag_is_language : option bool;
  tag_language : option string;
  tag_name : string;
  tag_scope : option string;
  tag_label : option string;
  tag_description : option string
}.

#[global] Instance Node_eq_dec : EqDecision Node.
Proof. solve_decision. Defined.
#[global] Instance Tag_eq_dec : EqDecision Tag.
Proof. solve_decision. Defined.

(** What a waiter is fulfilled with. *)
Inductive Value :=
| VNull
| VUser (n : Node)
| VStream (s : Stream)
| VTag (t : Tag).

#[global] Instance Value_eq_dec : EqDecision Value.
Proof. solve_decision. Defined.

(** An error value: the transport's error object, or the message string
    [getUserBasic] rejects with. *)
Definition Err := string.

(** The message [getUserBasic] and [getStreamMeta] reject with. *)
Definition invalid_key : Err := "id and login cannot both be null".

(** The query documents of the batched and eager reads. *)
Inductive Doc := UserBulk | StreamFetch | TagsFetch | TagsTop.

#[global] Instance Doc_eq_dec : EqDecision Doc.
Proof. solve_decision. Defined.

(** What the module does to the outside: it calls a waiter's first
    continuation ([pair[0](v)]), its second ([pair[1](e)]), or the transport
    adapter ([queryApollo]) with the variables [ids] and [logins]; or the
    promise of an [async] method rejects with a [TypeError] nobody handles. *)
Inductive Event :=
| Fulfil (w : Waiter) (v : Value)
| Reject (w : Waiter) (e : Err)
| Query (doc : Doc) (ids logins : option (list JKey))
| Uncaught.

#[global] Instance Event_eq_dec : EqDecision Event.
Proof. solve_decision. Defined.

(** How a block of code ends: normally, or with an uncaught [TypeError]
    (reading a property of [undefined], or iterating over it). *)
Inductive Completion := Returned | ThrewTypeError.

#[global] Instance Completion_eq_dec : EqDecision Completion.
Proof. solve_decision. Defined.

(** ** Waiter registries

    A registry is a JavaScript [Map] from key to the array of waiters.  Its
    [keys()] come in insertion order, so it is an association list. *)
Abbreviation Registry := (list (JKey * list Waiter)).

(** [Map.get]: [None] is [undefined]. *)
Fixpoint reg_get (k : JKey) (r : Registry) : option (list Waiter) :=
  match r with
  | [] => None
  | (k', ws) :: r' => if decide (k' = k) then Some ws else reg_get k r'
  end.

Definition reg_has (k : JKey) (r : Registry) : bool :=
  match reg_get k r with Some _ => true | None => false end.

Definition reg_delete (k : JKey) (r : Registry) : Registry :=
  filter (λ p, p.1 ≠ k) r.

Definition reg_keys (r : Registry) : list JKey := r.*1.

(** [map.get(k).push(w)] *)
Fixpoint reg_push (k : JKey) (w : Waiter) (r : Registry) : Registry :=
  match r with
  | [] => []
  | (k', ws) :: r' =>
      if decide (k' = k) then (k', ws ++ [w]) :: r'
      else (k', ws) :: reg_push k w r'
  end.

(** [if ( map.has(k) ) map.get(k).push([s,f]); else map.set(k, [[s,f]]);] *)
Definition reg_register (k : JKey) (w : Waiter) (r : Registry) : Registry :=
  if reg_has k r then reg_push k w r else r ++ [(k, [w])].

(** [new Set(keys)] with [delete]: a list without the key, order kept. *)
Definition set_delete (k : JKey) (s : list JKey) : list JKey :=
  filter (λ k', k' ≠ k) s.

Definition set_delete_opt (k : option JKey) (s : list JKey) : list JKey :=
  match k with
  | Some k => set_delete k s
  | None => s
  end.

(** [for(const pair of promises) pair[0](v);] *)
Definition fulfil_all (v : Value) (ws : list Waiter) : list Event :=
  map (λ w, Fulfil w v) ws.

(** [for(const pair of promises) pair[1](err);] *)
Definition reject_all (err : Err) (ws : list Waiter) : list Event :=
  map (λ w, Reject w err) ws.

(** [promises = map.get(k); if ( promises ) { map.delete(k); fulfil }] *)
Definition fulfil_key (v : Value) (k : JKey) (r : Registry)
  : Registry * list Event :=
  match reg_get k r with
  | Some ws => (reg_delete k r, fulfil_all v ws)
  | None => (r, [])
  end.

(** The loop over [id_set] / [login_set] of the user and stream schedulers:
    every key still in the set is fulfilled with [null]. *)
Fixpoint fulfil_null (keys : list JKey) (r : Registry)
  : Registry * list Event :=
  match keys with
  | [] => (r, [])
  | k :: ks =>
      let '(r1, e1) := fulfil_key VNull k r in
      let '(r2, e2) := fulfil_null ks r1 in
      (r2, e1 ++ e2)
  end.

(** The unguarded loops ([catch] blocks, and the [id_set] loop of the tag
    scheduler):
    [promises = map.get(k); map.delete(k); for(const pair of promises) ...].
    When the key is gone, [for ... of undefined] throws a [TypeError] and
    the rest of the loop does not run. *)
Fixpoint drain_strict (notify : Waiter → Event) (keys : list JKey)
    (r : Registry) : Registry * list Event * Completion :=
  match keys with
  | [] => (r, [], Returned)
  | k :: ks =>
      match reg_get k r with
      | None => (reg_delete k r, [], ThrewTypeError)
      | Some ws =>
          let '(r', ev, c) := drain_strict notify ks (reg_delete k r) in
          (r', map notify ws ++ ev, c)
      end
  end.

Definition reject_selected (err : Err) :=
  drain_strict (λ w, Reject w err).

(** ** The two-space batch scheduler (users and streams)

    [_loadUsers] and [_loadStreams] are the same code over two pairs of
    registries; they differ in the query document, in what a waiter is
    fulfilled with ([node] or [node.stream]) and in whether the constructor
    wrapped the method in [debounce].  The embedding is written once, in a
    section over these three, and instantiated twice. *)

(** The local constants [ids] and [logins] of a running cycle. *)
Record Cycle := mkCycle {
  c_ids : list JKey;
  c_logins : list JKey
}.

(** One entity kind: its two registries, its cycle-running flag
    ([_loading_users] / [_loading_streams]), the suspended cycle if any, and
    the pending debounce timer of its load method. *)
Record Sched := mkSched {
  waiting_ids : Registry;
  waiting_logins : Registry;
  loading : bool;
  inflight : option Cycle;
  timer : bool
}.

Definition set_waiting_ids (r : Registry) (s : Sched) : Sched :=
  mkSched r (waiting_logins s) (loading s) (inflight s) (timer s).
Definition set_waiting_logins (r : Registry) (s : Sched) : Sched :=
  mkSched (waiting_ids s) r (loading s) (inflight s) (timer s).
Definition set_loading (b : bool) (s : Sched) : Sched :=
  mkSched (waiting_ids s) (waiting_logins s) b (inflight s) (timer s).
Definition set_inflight (c : option Cycle) (s : Sched) : Sched :=
  mkSched (waiting_ids s) (waiting_logins s) (loading s) c (timer s).
Definition set_timer (b : bool) (s : Sched) : Sched :=
  mkSched (waiting_ids s) (waiting_logins s) (loading s) (inflight s) b.

Definition idle_sched : Sched := mkSched [] [] false None false.

(** The outcome of the awaited query: it threw [err], or it returned and
    [get('data.users', data)] is [nodes] ([None] when that is not an array;
    a [None] element is a [null] node). *)
Inductive Result :=
| Failed (err : Err)
| Succeeded (nodes : option (list (option Node))).

(** The batch size. *)
Definition BATCH : nat := 50.

(** [ids.length ? ids : null] *)
Definition or_null (l : list JKey) : option (list JKey) :=
  match l with
  | [] => None
  | _ => Some l
  end.

(** [const ids = [...waiting_ids.keys()].slice(0, 50),
          remaining = 50 - ids.length,
          logins = remaining > 0 ? [...waiting_logins.keys()].slice(0, remaining) : [];] *)
Definition select_batch (s : Sched) : Cycle :=
  let ids := take BATCH (reg_keys (waiting_ids s)) in
  let remaining := (50 - Z.of_nat (length ids))%Z in
  let logins :=
    if (0 <? remaining)%Z
    then take (Z.to_nat remaining) (reg_keys (waiting_logins s))
    else [] in
  mkCycle ids logins.

(** [! node || ! node.id] fails: the node and its id. *)
Definition valid_node (node : option Node) : option (Node * JKey) :=
  match node with
  | Some n =>
      match node_id n with
      | Some id => if truthy id then Some (n, id) else None
      | None => None
      end
  | None => None
  end.

(** The state of the loop over [nodes]: both registries and both sets. *)
Record Fanout := mkFanout {
  f_ids : Registry;
  f_logins : Registry;
  f_id_set : list JKey;
  f_login_set : list JKey
}.

(** [promises = waiting_logins.get(node.login); if ( promises ) ...];
    an absent [node.login] is the key [undefined], which no registry holds. *)
Definition fulfil_login (v : Value) (login : option JKey) (r : Registry)
  : Registry * list Event :=
  match login with
  | Some l => fulfil_key v l r
  | None => (r, [])
  end.

Section Scheduler.

(** The query document, the value a waiter on a matched node receives,
    and whether the load method was wrapped in [debounce(..., 50)]. *)
Variable doc : Doc.
Variable payload : Node → Value.
Variable debounced : bool.

(** The synchronous prefix of [_loadUsers] / [_loadStreams]: the guard on
    the flag, the flag set, the selection, and the query issued. *)
Definition load_begin (s : Sched) : Sched * list Event :=
  if loading s then (s, [])
  else
    let c := select_batch s in
    (set_inflight (Some c) (set_loading true s),
     [Query doc (or_null (c_ids c)) (or_null (c_logins c))]).

(** Modelled from the spec: [debounce] is imported from [utilities/object],
    which is not among the sources.  A call of the debounced method only
    arms its (single) timer; calls made before the timer fires collapse
    into the one run of the method when it fires. *)
Definition call_load (s : Sched) : Sched * list Event :=
  if debounced then (set_timer true s, []) else load_begin s.

(** The debounce timer fires: the wrapped method runs once. *)
Definition timer_fire (s : Sched) : Sched * list Event :=
  if timer s then load_begin (set_timer false s) else (s, []).

(** The executor of the promise of [getUserBasic] / [getStreamMeta]:
    [if ( id ) ... else if ( login ) ... else f(...)], and then, whatever
    branch ran, [if ( ! this._loading ) this._load();]. *)
Definition request (w : Waiter) (id login : option JKey) (s : Sched)
  : Sched * list Event :=
  let '(s1, ev1) :=
    match if_truthy id with
    | Some i =>
        (set_waiting_ids (reg_register i w (waiting_ids s)) s, [])
    | None =>
        match if_truthy login with
        | Some l =>
            (set_waiting_logins (reg_register l w (waiting_logins s)) s, [])
        | None => (s, [Reject w invalid_key])
        end
    end in
  if loading s1 then (s1, ev1)
  else let '(s2, ev2) := call_load s1 in (s2, ev1 ++ ev2).

(** The body of [for(const node of nodes)]. *)
Definition process_node (node : option Node) (f : Fanout)
  : Fanout * list Event :=
  match valid_node node with
  | None => (f, [])
  | Some (n, id) =>
      let id_set := set_delete id (f_id_set f) in
      let login_set := set_delete_opt (node_login n) (f_login_set f) in
      let '(ids, e1) := fulfil_key (payload n) id (f_ids f) in
      let '(logins, e2) := fulfil_login (payload n) (node_login n) (f_logins f) in
      (mkFanout ids logins id_set login_set, e1 ++ e2)
  end.

Fixpoint process_nodes (nodes : list (option Node)) (f : Fanout)
  : Fanout * list Event :=
  match nodes with
  | [] => (f, [])
  | node :: rest =>
      let '(f1, e1) := process_node node f in
      let '(f2, e2) := process_nodes rest f1 in
      (f2, e1 ++ e2)
  end.

(** The [catch] block: reject the selected ids, then the selected logins,
    and [return] (the flag is not touched). *)
Definition load_failed (c : Cycle) (err : Err) (s : Sched)
  : Sched * list Event * Completion :=
  let '(ids, e1, c1) := reject_selected err (c_ids c) (waiting_ids s) in
  match c1 with
  | ThrewTypeError => (set_waiting_ids ids s, e1, ThrewTypeError)
  | Returned =>
      let '(logins, e2, c2) :=
        reject_selected err (c_logins c) (waiting_logins s) in
      (set_waiting_logins logins (set_waiting_ids ids s), e1 ++ e2, c2)
  end.

(** The code after the [try]: fan the nodes out, fulfil what is left of
    the two sets with [null], clear the flag, and start over when
    something is still pending. *)
Definition load_succeeded (c : Cycle) (nodes : option (list (option Node)))
    (s : Sched) : Sched * list Event :=
  let f0 := mkFanout (waiting_ids s) (waiting_logins s) (c_ids c) (c_logins c) in
  let '(f1, e1) :=
    match nodes with
    | Some ns => process_nodes ns f0
    | None => (f0, [])
    end in
  let '(ids, e2) := fulfil_null (f_id_set f1) (f_ids f1) in
  let '(logins, e3) := fulfil_null (f_login_set f1) (f_logins f1) in
  let s1 := set_loading false (set_waiting_logins logins (set_waiting_ids ids s)) in
  let '(s2, e4) :=
    match ids, logins with
    | [], [] => (s1, [])
    | _, _ => call_load s1
    end in
  (s2, e1 ++ e2 ++ e3 ++ e4).

(** The continuation of the suspended cycle, run when the query settles. *)
Definition load_settle (r : Result) (s : Sched)
  : Sched * list Event * Completion :=
  match inflight s with
  | None => (s, [], Returned)
  | Some c =>
      let s0 := set_inflight None s in
      match r with
      | Failed err => load_failed c err s0
      | Succeeded nodes => (load_succeeded c nodes s0, Returned)
      end
  end.

End Scheduler.

(** [pair[0](node)] for users, [pair[0](node.stream)] for streams (a user
    who is not live has a [null] stream). *)
Definition user_payload (n : Node) : Value := VUser n.
Definition stream_payload (n : Node) : Value :=
  match node_stream n with
  | Some s => VStream s
  | None => VNull
  end.

(** ** The tag cache and its scheduler *)

(** [tag_cache], [_waiting_tags], [_loading_tags], the [ids] of the
    suspended cycle, and the pending debounce timer of [_loadTags]. *)
Record TagStore := mkTagStore {
  tag_cache : gmap JKey Tag;
  _waiting_tags : Registry;
  _loading_tags : bool;
  inflight_tags : option (list JKey);
  timer_tags : bool
}.

Definition set_tag_cache (m : gmap JKey Tag) (t : TagStore) : TagStore :=
  mkTagStore m (_waiting_tags t) (_loading_tags t) (inflight_tags t) (timer_tags t).
Definition set_waiting_tags (r : Registry) (t : TagStore) : TagStore :=
  mkTagStore (tag_cache t) r (_loading_tags t) (inflight_tags t) (timer_tags t).
Definition set_loading_tags (b : bool) (t : TagStore) : TagStore :=
  mkTagStore (tag_cache t) (_waiting_tags t) b (inflight_tags t) (timer_tags t).
Definition set_inflight_tags (c : option (list JKey)) (t : TagStore) : TagStore :=
  mkTagStore (tag_cache t) (_waiting_tags t) (_loading_tags t) c (timer_tags t).
Definition set_timer_tags (b : bool) (t : TagStore) : TagStore :=
  mkTagStore (tag_cache t) (_waiting_tags t) (_loading_tags t) (inflight_tags t) b.

Definition idle_tags : TagStore := mkTagStore ∅ [] false None false.

(** [\w] without the unicode flag: a letter, a digit or an underscore. *)
Definition is_word_char (a : Ascii.ascii) : bool :=
  let n := Ascii.nat_of_ascii a in
  (48 <=? n) && (n <=? 57) || (65 <=? n) && (n <=? 90)
  || (97 <=? n) && (n <=? 122) || (n =? 95).

Fixpoint strip_prefix (p s : string) : option string :=
  match p, s with
  | EmptyString, _ => Some s
  | String a p', String b s' =>
      if decide (a = b) then strip_prefix p' s' else None
  | String _ _, EmptyString => None
  end.

Fixpoint all_word_chars (s : string) : bool :=
  match s with
  | EmptyString => true
  | String a s' => is_word_char a && all_word_chars s'
  end.

(** [LANGUAGE_MATCHER = /^auto___lang_(\w+)$/]: the first group of
    [LANGUAGE_MATCHER.exec(s)], or [None] when there is no match. *)
Definition LANGUAGE_MATCHER (s : string) : option string :=
  match strip_prefix "auto___lang_" s with
  | Some rest =>
      if negb (bool_decide (rest = EmptyString)) && all_word_chars rest
      then Some rest else None
  | None => None
  end.

Definition if_truthy_str (s : option string) : option string :=
  match s with
  | Some s => if bool_decide (s = EmptyString) then None else Some s
  | None => None
  end.

(** The tag made on a cache miss:
    [match = node.isLanguageTag && LANGUAGE_MATCHER.exec(node.tagName),
     lang = match && match[1] || null]. *)
Definition new_tag (n : TagNode) (id : JKey) (name : string) : Tag :=
  let lang :=
    match tn_isLanguageTag n with
    | Some true => LANGUAGE_MATCHER name
    | _ => None
    end in
  mkTag id id (tn_isAutomated n) (tn_isLanguageTag n) lang name (tn_scope n)
        None None.

Definition set_label (l : option string) (t : Tag) : Tag :=
  mkTag (tag_id t) (tag_value t) (tag_is_auto t) (tag_is_language t)
        (tag_language t) (tag_name t) (tag_scope t) l (tag_description t).
Definition set_description (d : option string) (t : Tag) : Tag :=
  mkTag (tag_id t) (tag_value t) (tag_is_auto t) (tag_is_language t)
        (tag_language t) (tag_name t) (tag_scope t) (tag_label t) d.

(** [memorizeTag(node, dispatch)]; the result [None] is [undefined].  The
    cache holds the tag object itself, so assigning a field of [tag] is an
    update of the cache entry it was read from. *)
Definition memorizeTag (node : option TagNode) (dispatch : bool) (t : TagStore)
  : TagStore * list Event * option Tag :=
  match node with
  | None => (t, [], None)
  | Some n =>
      match if_truthy (tn_id n), if_truthy_str (tn_tagName n),
            if_truthy_str (tn_localizedName n) with
      | Some id, Some name, Some _ =>
          let tag0 :=
            match tag_cache t !! id with
            | Some tag => tag
            | None => new_tag n id name
            end in
          let tag1 :=
            if truthy_str (tn_localizedName n)
            then set_label (tn_localizedName n) tag0 else tag0 in
          let tag2 :=
            if truthy_str (tn_localizedDescription n)
            then set_description (tn_localizedDescription n) tag1 else tag1 in
          let t1 := set_tag_cache (<[id := tag2]> (tag_cache t)) t in
          if dispatch && truthy_str (tag_description tag2)
          then
            match reg_get (tag_id tag2) (_waiting_tags t1) with
            | Some ws =>
                (set_waiting_tags (reg_delete (tag_id tag2) (_waiting_tags t1)) t1,
                 fulfil_all (VTag tag2) ws, Some tag2)
            | None => (t1, [], Some tag2)
            end
          else (t1, [], Some tag2)
      | _, _, _ => (t, [], None)
      end
  end.

(** The outcome of the awaited [tags-fetch] query. *)
Inductive TagResult :=
| TagsFailed (err : Err)
| TagsSucceeded (nodes : option (list (option TagNode))).

(** The synchronous prefix of [_loadTags]. *)
Definition loadTags_begin (t : TagStore) : TagStore * list Event :=
  if _loading_tags t then (t, [])
  else
    let ids := take BATCH (reg_keys (_waiting_tags t)) in
    (set_inflight_tags (Some ids) (set_loading_tags true t),
     [Query TagsFetch (Some ids) None]).

(** Modelled from the spec: [debounce] (from [utilities/object], not among
    the sources) around [_loadTags]: a call arms the timer. *)
Definition _loadTags (t : TagStore) : TagStore := set_timer_tags true t.

Definition tags_timer_fire (t : TagStore) : TagStore * list Event :=
  if timer_tags t then loadTags_begin (set_timer_tags false t) else (t, []).

(** The loop over the nodes of a [tags-fetch] response:
    [tag = this.memorizeTag(node, false), promises = waiting.get(tag.id)];
    reading [tag.id] throws when [memorizeTag] returned [undefined]. *)
Fixpoint loadTags_nodes (nodes : list (option TagNode)) (id_set : list JKey)
    (t : TagStore) : TagStore * list JKey * list Event * Completion :=
  match nodes with
  | [] => (t, id_set, [], Returned)
  | node :: rest =>
      let '(t1, e0, tag) := memorizeTag node false t in
      match tag with
      | None => (t1, id_set, e0, ThrewTypeError)
      | Some tag =>
          let promises := reg_get (tag_id tag) (_waiting_tags t1) in
          let t2 := set_waiting_tags (reg_delete (tag_id tag) (_waiting_tags t1)) t1 in
          let id_set' := set_delete (tag_id tag) id_set in
          let e1 :=
            match promises with
            | Some ws => fulfil_all (VTag tag) ws
            | None => []
            end in
          let '(t3, s3, e3, c) := loadTags_nodes rest id_set' t2 in
          (t3, s3, e0 ++ e1 ++ e3, c)
      end
  end.

(** The continuation of [_loadTags] after the query. *)
Definition loadTags_settle (r : TagResult) (t : TagStore)
  : TagStore * list Event * Completion :=
  match inflight_tags t with
  | None => (t, [], Returned)
  | Some ids =>
      let t0 := set_inflight_tags None t in
      match r with
      | TagsFailed err =>
          let '(w, ev, c) := reject_selected err ids (_waiting_tags t0) in
          (set_waiting_tags w t0, ev, c)
      | TagsSucceeded nodes =>
          let '(t1, id_set, e1, c1) :=
            match nodes with
            | Some ns => loadTags_nodes ns ids t0
            | None => (t0, ids, [], Returned)
            end in
          match c1 with
          | ThrewTypeError => (t1, e1, ThrewTypeError)
          | Returned =>
              let '(w, e2, c2) :=
                drain_strict (λ w, Fulfil w VNull) id_set (_waiting_tags t1) in
              let t2 := set_waiting_tags w t1 in
              match c2 with
              | ThrewTypeError => (t2, e1 ++ e2, ThrewTypeError)
              | Returned =>
                  let t3 := set_loading_tags false t2 in
                  (match w with [] => t3 | _ => _loadTags t3 end,
                   e1 ++ e2, Returned)
              end
          end
      end
  end.

(** [getTag(id, want_description)] for a key [id]; [w] names the promise
    returned.  (For a primitive key [id.id] is [undefined], so the first
    statement of the method leaves [id] as it is.) *)
Definition getTag (w : Waiter) (id : JKey) (want_description : bool)
    (t : TagStore) : TagStore * list Event :=
  let register :=
    if reg_has id (_waiting_tags t)
    then (set_waiting_tags (reg_push id w (_waiting_tags t)) t, [])
    else
      let t1 := set_waiting_tags (_waiting_tags t ++ [(id, [w])]) t in
      (if _loading_tags t1 then t1 else _loadTags t1, []) in
  match tag_cache t !! id with
  | Some out =>
      if truthy_str (tag_description out) || negb want_description
      then (t, [Fulfil w (VTag out)])
      else register
  | None => register
  end.

(** The loop of [getTopTags] over the nodes of the response; an entry
    [None] of the result is an [undefined] pushed for a malformed node. *)
Fixpoint topTags_nodes (nodes : list (option TagNode))
    (seen : gset (option JKey)) (t : TagStore)
  : TagStore * list Event * list (option Tag) :=
  match nodes with
  | [] => (t, [], [])
  | None :: rest => topTags_nodes rest seen t
  | Some n :: rest =>
      if bool_decide (tn_id n ∈ seen) then topTags_nodes rest seen t
      else
        let '(t1, e1, tag) := memorizeTag (Some n) true t in
        let '(t2, e2, out) := topTags_nodes rest ({[tn_id n]} ∪ seen) t1 in
        (t2, e1 ++ e2, tag :: out)
  end.

(** The continuation of [getTopTags] after its query returned [nodes]. *)
Definition getTopTags (nodes : option (list (option TagNode))) (t : TagStore)
  : TagStore * list Event * list (option Tag) :=
  match nodes with
  | Some ns => topTags_nodes ns ∅ t
  | None => (t, [], [])
  end.

(** ** The module as a whole *)

(** The fields of a [TwitchData] object that the batching core uses. *)
Record TwitchData := mkTwitchData {
  users : Sched;
  streams : Sched;
  tags : TagStore
}.

(** The object as the constructor leaves it. *)
Definition fresh : TwitchData := mkTwitchData idle_sched idle_sched idle_tags.

Definition _waiting_user_ids (d : TwitchData) := waiting_ids (users d).
Definition _waiting_user_logins (d : TwitchData) := waiting_logins (users d).
Definition _loading_users (d : TwitchData) := loading (users d).
Definition _waiting_stream_ids (d : TwitchData) := waiting_ids (streams d).
Definition _waiting_stream_logins (d : TwitchData) := waiting_logins (streams d).
Definition _loading_streams (d : TwitchData) := loading (streams d).

(** The constructor wraps [_loadTags] and [_loadStreams] in [debounce], and
    leaves [_loadUsers] as it is. *)
Definition users_debounced : bool := false.
Definition streams_debounced : bool := true.

(** [this._loadUsers()] and [this._loadStreams()] as the constructor leaves
    them: the method itself for users, its debounced wrapper for streams. *)
Definition _loadUsers (s : Sched) := call_load UserBulk users_debounced s.
Definition _loadStreams (s : Sched) := call_load StreamFetch streams_debounced s.

Definition getUserBasic (w : Waiter) (id login : option JKey) (s : Sched) :=
  request UserBulk users_debounced w id login s.
Definition _loadUsers_settle (r : Result) (s : Sched) :=
  load_settle UserBulk user_payload users_debounced r s.

Definition getStreamMeta (w : Waiter) (id login : option JKey) (s : Sched) :=
  request StreamFetch streams_debounced w id login s.
Definition _loadStreams_timer (s : Sched) :=
  timer_fire StreamFetch s.
Definition _loadStreams_settle (r : Result) (s : Sched) :=
  load_settle StreamFetch stream_payload streams_debounced r s.

(** What can happen to the object: a caller calls a method, a debounce
    timer fires, or an awaited query settles. *)
Inductive Action :=
| CallGetUserBasic (w : Waiter) (id login : option JKey)
| UsersQuerySettles (r : Result)
| CallGetStreamMeta (w : Waiter) (id login : option JKey)
| StreamsTimerFires
| StreamsQuerySettles (r : Result)
| CallGetTag (w : Waiter) (id : JKey) (want_description : bool)
| TagsTimerFires
| TagsQuerySettles (r : TagResult)
| CallMemorizeTag (node : option TagNode) (dispatch : bool)
| TopTagsQueryReturns (nodes : option (list (option TagNode))).

Definition uncaught (c : Completion) : list Event :=
  match c with
  | Returned => []
  | ThrewTypeError => [Uncaught]
  end.

Definition step (a : Action) (d : TwitchData) : TwitchData * list Event :=
  match a with
  | CallGetUserBasic w id login =>
      let '(s, ev) := getUserBasic w id login (users d) in
      (mkTwitchData s (streams d) (tags d), ev)
  | UsersQuerySettles r =>
      let '(s, ev, c) := _loadUsers_settle r (users d) in
      (mkTwitchData s (streams d) (tags d), ev ++ uncaught c)
  | CallGetStreamMeta w id login =>
      let '(s, ev) := getStreamMeta w id login (streams d) in
      (mkTwitchData (users d) s (tags d), ev)
  | StreamsTimerFires =>
      let '(s, ev) := _loadStreams_timer (streams d) in
      (mkTwitchData (users d) s (tags d), ev)
  | StreamsQuerySettles r =>
      let '(s, ev, c) := _loadStreams_settle r (streams d) in
      (mkTwitchData (users d) s (tags d), ev ++ uncaught c)
  | CallGetTag w id want =>
      let '(t, ev) := getTag w id want (tags d) in
      (mkTwitchData (users d) (streams d) t, ev)
  | TagsTimerFires =>
      let '(t, ev) := tags_timer_fire (tags d) in
      (mkTwitchData (users d) (streams d) t, ev)
  | TagsQuerySettles r =>
      let '(t, ev, c) := loadTags_settle r (tags d) in
      (mkTwitchData (users d) (streams d) t, ev ++ uncaught c)
  | CallMemorizeTag node dispatch =>
      let '(t, ev, _) := memorizeTag node dispatch (tags d) in
      (mkTwitchData (users d) (streams d) t, ev)
  | TopTagsQueryReturns nodes =>
      let '(t, ev, _) := getTopTags nodes (tags d) in
      (mkTwitchData (users d) (streams d) t, ev)
  end.

(** A run: the actions in order, with everything the module did. *)
Fixpoint run (acts : list Action) (d : TwitchData) : TwitchData * list Event :=
  match acts with
  | [] => (d, [])
  | a :: rest =>
      let '(d1, e1) := step a d in
      let '(d2, e2) := run rest d1 in
      (d2, e1 ++ e2)
  end.

(** The number of remote queries in a trace. *)
Definition is_query (e : Event) : bool :=
  match e with
  | Query _ _ _ => true
  | _ => false
  end.

Definition queries (ev : list Event) : list Event :=
  List.filter is_query ev.

(** ** Matching a key against a response

    A response node counts when it is not [null] and has a truthy id (the
    guard of the loop).  A waiter is served by the first such node whose id
    (for an id key) or login (for a login key) is the key. *)
Fixpoint node_for_id (k : JKey) (nodes : list (option Node)) : option Node :=
  match nodes with
  | [] => None
  | node :: rest =>
      match valid_node node with
      | Some (n, id) => if decide (id = k) then Some n else node_for_id k rest
      | None => node_for_id k rest
      end
  end.

Fixpoint node_for_login (l : JKey) (nodes : list (option Node)) : option Node :=
  match nodes with
  | [] => None
  | node :: rest =>
      match valid_node node with
      | Some (n, _) =>
          if decide (node_login n = Some l) then Some n
          else node_for_login l rest
      | None => node_for_login l rest
      end
  end.

(** [get('data.users', data)] that is not an array holds no node. *)
Definition response_nodes (nodes : option (list (option Node)))
  : list (option Node) := default [] nodes.

Definition is_reject (e : Event) : bool :=
  match e with
  | Reject _ _ => true
  | _ => false
  end.

(** ** Concrete scenarios *)

(** The example of the specification: ids 1 and 2 and the login foo are
    pending and selected; the response has entities for 1 and for foo. *)
Definition node_one : Node :=
  mkNode (Some (KNum 1)) (Some (KStr "one")) (Some "live one").
Definition node_foo : Node :=
  mkNode (Some (KNum 7)) (Some (KStr "foo")) None.
Definition example_cycle : Cycle := mkCycle [KNum 1; KNum 2] [KStr "foo"].
Definition example_sched : Sched :=
  mkSched [(KNum 1, [0]); (KNum 2, [1])] [(KStr "foo", [2])]
          true (Some example_cycle) false.
Definition example_response : option (list (option Node)) :=
  Some [Some node_one; Some node_foo].

(** [n] callers ask for the streams of the ids 1 to [n]; caller [i] asks
    for id [i + 1]. *)
Definition stream_calls (n : nat) : list Action :=
  map (λ i, CallGetStreamMeta i (Some (KNum (Z.of_nat (S i)))) None) (seq 0 n).
Definition user_calls (n : nat) : list Action :=
  map (λ i, CallGetUserBasic i (Some (KNum (Z.of_nat (S i)))) None) (seq 0 n).

(** Fifty callers ask for the streams of the ids 1 to 50 and caller 50 for
    the stream of the login foo, all within one debounce window; then the
    timer fires. *)
Definition crowded_window : list Action :=
  stream_calls 50 ++ [CallGetStreamMeta 50 None (Some (KStr "foo")); StreamsTimerFires].

(** The user with id 1 has the login foo. *)
Definition node_alias : Node :=
  mkNode (Some (KNum 1)) (Some (KStr "foo")) (Some "live").

(** The nodes of the users with the ids 1 to [n]; user 1 has the login foo. *)
Definition crowd_nodes (n : nat) : list (option Node) :=
  Some node_alias ::
  map (λ i, Some (mkNode (Some (KNum (Z.of_nat (S i)))) None None)) (seq 1 (n - 1)).

(** A well-formed tag node with a description, and the same tag without. *)
Definition node_english : TagNode :=
  mkTagNode (Some (KStr "t1")) (Some "auto___lang_en") (Some "English")
            (Some "Streams in English") (Some true) (Some true) None.
Definition node_english_bare : TagNode :=
  mkTagNode (Some (KStr "t1")) (Some "auto___lang_en") (Some "English")
            None (Some true) (Some true) None.
Definition tag_english : Tag :=
  mkTag (KStr "t1") (KStr "t1") (Some true) (Some true) (Some "en")
        "auto___lang_en" None (Some "English") (Some "Streams in English").

(** A node without a [tagName]. *)
Definition node_nameless : TagNode :=
  mkTagNode (Some (KStr "t2")) None (Some "Speedrun") None None None None.

(** Two callers ask for the tags t1 and t2 with their descriptions, the
    debounce timer fires and the cycle for both ids is in flight. *)
Definition tags_in_flight : list Action :=
  [CallGetTag 0 (KStr "t1") true; CallGetTag 1 (KStr "t2") true; TagsTimerFires].

(** ** What [getTopTags] returns, stated on the response *)

(** The nodes of a response that are not [null]. *)
Definition present_nodes (ns : list (option TagNode)) : list TagNode :=
  omap id ns.

(** One node for each id: the first node with that id, in response order. *)
Fixpoint first_by_id (l : list TagNode) : list TagNode :=
  match l with
  | [] => []
  | n :: l' => n :: filter (λ m, tn_id m ≠ tn_id n) (first_by_id l')
  end.

(** The guard of [memorizeTag] passes. *)
Definition well_formed (n : TagNode) : bool :=
  truthy_opt (tn_id n) && truthy_str (tn_tagName n)
  && truthy_str (tn_localizedName n).

(** The entry pushed for a node: the tag of its id, or [undefined] when the
    node is malformed. *)
Definition entry_of (n : TagNode) (e : option Tag) : Prop :=
  match e with
  | Some tag => well_formed n = true ∧ tn_id n = Some (tag_id tag)
  | None => well_formed n = false
  end.

(** The tag ids of the entries of a result. *)
Definition entry_ids (out : list (option Tag)) : list JKey :=
  omap (λ e : option Tag, tag_id <$> e) out.

(** Every cached record sits under its own id. *)
Definition cache_ok (m : gmap JKey Tag) : Prop :=
  ∀ k tag, m !! k = Some tag → tag_id tag = k.

(** A response of [tags-top]: a tag, a null, the same tag again, a node
    without a name, and a second tag. *)
Definition node_speedrun : TagNode :=
  mkTagNode (Some (KStr "t3")) (Some "speedrun") (Some "Speedrun") None
            (Some false) (Some false) None.
Definition top_response : option (list (option TagNode)) :=
  Some [Some node_english; None; Some node_english_bare; Some node_nameless;
        Some node_speedrun].

(** ** Invariants of the registries *)

(** A registry is a map: no key twice.  The keys of the cycle in flight were
    taken from the registries without repetition, and are still pending. *)
Definition sched_ok (s : Sched) : Prop :=
  NoDup (reg_keys (waiting_ids s)) ∧ NoDup (reg_keys (waiting_logins s)) ∧
  ∀ c, inflight s = Some c →
    NoDup (c_ids c) ∧ NoDup (c_logins c) ∧
    (∀ k, k ∈ c_ids c → k ∈ reg_keys (waiting_ids s)) ∧
    (∀ k, k ∈ c_logins c → k ∈ reg_keys (waiting_logins s)).

Definition is_stream_call (a : Action) : bool :=
  match a with
  | CallGetStreamMeta _ _ _ => true
  | _ => false
  end.

(** The users scheduler after a burst of three lookups on a fresh object:
    the first started a cycle for its id alone, the id 2 and the login foo
    joined the registries while it is in flight. *)
Definition burst_sched : Sched :=
  users (run [CallGetUserBasic 0 (Some (KNum 1)) None;
              CallGetUserBasic 1 (Some (KNum 2)) None;
              CallGetUserBasic 2 None (Some (KStr "foo"))] fresh).1.

(** ** The other readers of the tag cache *)

(** [getTagImmediate(id, callback, want_description)] for a key [id].
    [has_callback] says whether a callback was passed; [w] names the promise
    [getTag] returns if it is called.  The result is the state, the events,
    the value returned ([None] is [null]) and, when the callback was chained
    to that promise ([promise.then(...).catch(...)]), the name of the
    promise. *)
Definition getTagImmediate (w : Waiter) (id : JKey)
    (has_callback want_description : bool) (t : TagStore)
  : TagStore * list Event * option Tag * option Waiter :=
  let out := tag_cache t !! id in
  let no_description :=
    match out with
    | Some o => negb (truthy_str (tag_description o))
    | None => true
    end in
  let no_out := match out with Some _ => false | None => true end in
  if want_description && no_description || no_out && has_callback
  then
    let '(t1, ev) := getTag w id want_description t in
    (t1, ev, out, if has_callback then Some w else None)
  else (t, [], out, None).

(** [tag && tag.is_language] and then [LANGUAGE_MATCHER.exec(tag.name)]:
    the language code read off a cached tag. *)
Definition language_of (tag : option Tag) : option string :=
  match tag with
  | Some tg =>
      match tag_is_language tg with
      | Some true => LANGUAGE_MATCHER (tag_name tg)
      | _ => None
      end
  | None => None
  end.

(** The loop of [getLanguagesFromTags] over the tag ids: each is probed with
    [getTagImmediate(tag_id, fn)], where [fn] is the debounced re-run made
    when a callback was passed, and [null] otherwise.  The promise made for
    the element at position [i] is named [w + i].  The result is the state,
    the events, the language codes pushed, and the promises [fn] was chained
    to. *)
Fixpoint languages_of_tags (tags : list JKey) (has_callback : bool)
    (w : Waiter) (t : TagStore)
  : TagStore * list Event * list string * list Waiter :=
  match tags with
  | [] => (t, [], [], [])
  | tag_id :: rest =>
      let '(t1, e1, tag, sub) := getTagImmediate w tag_id has_callback false t in
      let '(t2, e2, out, subs) := languages_of_tags rest has_callback (S w) t1 in
      (t2, e1 ++ e2, option_list (language_of tag) ++ out,
       option_list sub ++ subs)
  end.

(** [getLanguagesFromTags(tags, callback)]; [tags] that is not an array is
    [None]. *)
Definition getLanguagesFromTags (tags : option (list JKey))
    (has_callback : bool) (w : Waiter) (t : TagStore)
  : TagStore * list Event * list string * list Waiter :=
  match tags with
  | Some l => languages_of_tags l has_callback w t
  | None => (t, [], [], [])
  end.

(** The loop of [getMatchingTags]:
    [tag = this.memorizeTag(node); if ( tag ) out.push(tag);].
    What is pushed is the cached object itself, so an entry of the result is
    kept as the id of that object, and read through the cache. *)
Fixpoint matchingTags_nodes (nodes : list (option TagNode)) (t : TagStore)
  : TagStore * list Event * list JKey :=
  match nodes with
  | [] => (t, [], [])
  | node :: rest =>
      let '(t1, e1, tag) := memorizeTag node true t in
      let '(t2, e2, out) := matchingTags_nodes rest t1 in
      (t2, e1 ++ e2,
       match tag with
       | Some tg => tag_id tg :: out
       | None => out
       end)
  end.

(** The continuation of [getMatchingTags] after its query returned
    [data?.data?.searchLiveTags]:
    [if ( ! Array.isArray(nodes) || ! nodes.length ) return [];]. *)
Definition getMatchingTags (nodes : option (list (option TagNode)))
    (t : TagStore) : TagStore * list Event * list JKey :=
  match nodes with
  | Some ns => matchingTags_nodes ns t
  | None => (t, [], [])
  end.

(** The entries of a result as the caller reads them. *)
Definition read_tags (t : TagStore) (refs : list JKey) : list (option Tag) :=
  map (λ k, tag_cache t !! k) refs.

(** ** Invariants of the tag cache *)

(** What [memorizeTag] guarantees of a record it stores under [k]: its id
    and value are [k], which is truthy; its name is not empty; it has a
    label; its description, when it has one, is not empty; and its language
    is what the naming convention gives for a language tag. *)
Definition tag_wf (k : JKey) (tag : Tag) : Prop :=
  tag_id tag = k ∧ tag_value tag = k ∧ truthy k = true ∧
  tag_name tag ≠ EmptyString ∧
  truthy_str (tag_label tag) = true ∧
  (tag_description tag = None ∨ truthy_str (tag_description tag) = true) ∧
  tag_language tag = language_of (Some tag).

Definition cache_wf (m : gmap JKey Tag) : Prop :=
  ∀ k tag, m !! k = Some tag → tag_wf k tag.

(** A later state of a cached record: the same but for its label and
    description, and what was present is still present. *)
Definition tag_extends (old new : Tag) : Prop :=
  tag_id new = tag_id old ∧ tag_value new = tag_value old ∧
  tag_is_auto new = tag_is_auto old ∧
  tag_is_language new = tag_is_language old ∧
  tag_language new = tag_language old ∧ tag_name new = tag_name old ∧
  tag_scope new = tag_scope old ∧
  (truthy_str (tag_label old) = true → truthy_str (tag_label new) = true) ∧
  (truthy_str (tag_description old) = true →
   truthy_str (tag_description new) = true).

(** The record of [id], once cached, stays and only grows. *)
Definition keeps_tag (id : JKey) (tag : Tag) (m : gmap JKey Tag) : Prop :=
  ∃ tag', m !! id = Some tag' ∧ tag_extends tag tag'.

(** The waiters of tags form a map too. *)
Definition tags_ok (t : TagStore) : Prop :=
  NoDup (reg_keys (_waiting_tags t)) ∧
  ∀ ids, inflight_tags t = Some ids → NoDup ids.

(** A cache with the tag t1 and its description, and a later run: the same
    tag without description is memorized, and a tags cycle ends. *)
Definition english_cached : TwitchData :=
  (run [CallMemorizeTag (Some node_english) true] fresh).1.
Definition later_run : list Action :=
  [CallMemorizeTag (Some node_english_bare) true;
   CallGetTag 0 (KStr "t3") false; TagsTimerFires;
   TagsQuerySettles (TagsSucceeded (Some [Some node_speedrun]))].

(** ** A [tags-fetch] response, stated on its nodes *)

(** The ids of the nodes of a response. *)
Definition tag_node_ids (ns : list (option TagNode)) : list JKey :=
  omap (λ node, node ≫= tn_id) ns.

(** No node of the response is [null] or fails the guard of
    [memorizeTag]. *)
Definition nodes_well_formed (ns : list (option TagNode)) : bool :=
  forallb (λ node, match node with
                   | Some n => well_formed n
                   | None => false
                   end) ns.

(** Two lookups with description are pending and selected; the response has
    the tag t1 without its description and no node for t2. *)
Definition tags_selected : TagStore := tags (run tags_in_flight fresh).1.

(** Whether the cache can answer a lookup of [id]: the record is there, and
    has a description when one is wanted. *)
Definition cache_answers (id : JKey) (want_description : bool)
    (m : gmap JKey Tag) : bool :=
  match m !! id with
  | Some out => truthy_str (tag_description out) || negb want_description
  | None => false
  end.

(** The node ids of a search response that pass the guard of
    [memorizeTag], in response order. *)
Definition well_formed_ids (ns : list (option TagNode)) : list JKey :=
  omap (λ node : option TagNode,
          node ≫= λ n, if well_formed n then tn_id n else None) ns.

(** A search response: a tag, a malformed node, a null, the first tag
    again. *)
Definition search_response : option (list (option TagNode)) :=
  Some [Some node_speedrun; Some node_nameless; None; Some node_speedrun].

(** ** The shape of a remote query *)

(** The keys a query carries are distinct and at most [BATCH] in all;
    [null] variables carry none.  Anything that is not a query passes. *)
Definition query_ok (e : Event) : Prop :=
  match e with
  | Query _ ids logins =>
      NoDup (default [] ids) ∧ NoDup (default [] logins) ∧
      length (default [] ids) + length (default [] logins) ≤ BATCH
  | _ => True
  end.

(** The registries of the whole object hold no key twice, and the cycles in
    flight are cycles over pending keys. *)
Definition registries_ok (d : TwitchData) : Prop :=
  sched_ok (users d) ∧ sched_ok (streams d) ∧
  NoDup (reg_keys (_waiting_tags (tags d))).

(** A busy run: lookups of users, streams and tags (one key asked twice),
    timers, a failed and a successful cycle. *)
Definition busy_run : list Action :=
  [CallGetUserBasic 0 (Some (KNum 1)) None;
   CallGetUserBasic 1 (Some (KNum 2)) None;
   CallGetUserBasic 2 (Some (KNum 2)) None;
   CallGetStreamMeta 3 None (Some (KStr "foo"));
   CallGetTag 4 (KStr "t1") true; CallGetTag 5 (KStr "t1") false;
   StreamsTimerFires; TagsTimerFires;
   UsersQuerySettles (Succeeded (Some [Some node_one]));
   StreamsQuerySettles (Failed "network down");
   TagsQuerySettles (TagsSucceeded (Some [Some node_english]))].

(** ** Values handed in by callers and by the transport

    [createPoll] and the searches look at the type and the truthiness of
    what they are given.  A number is an integer, an infinity or NaN. *)
Inductive JsNum := NaN | PosInf | NegInf | Int (z : Z).

#[warnings="-register-all"]
Inductive JsVal :=
| JUndefined
| JNull
| JBool (b : bool)
| JNumber (n : JsNum)
| JString (s : string)
| JArray (items : list JsVal)
| JObject (fields : list (string * JsVal)).

(** [a < b] on numbers: false as soon as one side is NaN. *)
Definition num_lt (a b : JsNum) : bool :=
  match a, b with
  | NaN, _ | _, NaN => false
  | Int x, Int y => (x <? y)%Z
  | NegInf, NegInf => false
  | NegInf, _ => true
  | _, NegInf => false
  | PosInf, _ => false
  | Int _, PosInf => true
  end.

(** [if ( v )] *)
Definition truthy_val (v : JsVal) : bool :=
  match v with
  | JUndefined | JNull => false
  | JBool b => b
  | JNumber NaN => false
  | JNumber (Int z) => negb (z =? 0)%Z
  | JNumber _ => true
  | JString s => negb (bool_decide (s = EmptyString))
  | JArray _ | JObject _ => true
  end.

(** [typeof v === 'string'] *)
Definition is_string (v : JsVal) : bool :=
  match v with
  | JString _ => true
  | _ => false
  end.

(** [v || d] *)
Definition or_else (v d : JsVal) : JsVal := if truthy_val v then v else d.

(** ** Polls *)

(** The [options] argument of [createPoll]: left out (or [undefined], so
    that the default [{}] applies), [null], or an object; a property the
    object lacks reads as [undefined]. *)
Record PollOptions := mkPollOptions {
  opt_bits : JsVal;
  opt_duration : JsVal;
  opt_subscriberMultiplier : JsVal;
  opt_subscriberOnly : JsVal
}.

Inductive OptionsArg :=
| OptionsOmitted
| OptionsNull
| OptionsGiven (o : PollOptions).

Definition no_options : PollOptions :=
  mkPollOptions JUndefined JUndefined JUndefined JUndefined.

(** [options = {}] *)
Definition given_options (options : OptionsArg) : PollOptions :=
  match options with
  | OptionsGiven o => o
  | _ => no_options
  end.

(** [Array.isArray(choices) && ! choices.some(x => typeof x !== 'string')] *)
Definition string_array (v : JsVal) : bool :=
  match v with
  | JArray items => negb (existsb (λ x, negb (is_string x)) items)
  | _ => false
  end.

(** The [input] variable of the [poll-create] mutation.  [ownedBy] is the
    template string of [channel_id], kept here as the key it prints; a
    choice [{title: x}] is kept as [x]. *)
Record PollInput := mkPollInput {
  bitsCost : JsVal;
  bitsVoting : bool;
  choices : list JsVal;
  durationSeconds : JsVal;
  ownedBy : JKey;
  subscriberMultiplier : JsVal;
  subscriberOnly : JsVal;
  title : string
}.

(** What is thrown: a [TypeError] the method makes itself, or the one the
    engine makes when a property of [null] is read. *)
Inductive Thrown :=
| TypeError (msg : string)
| NullRead.

(** [createPoll] up to its mutation: it throws, or it calls [mutate] with
    an input. *)
Inductive PollOutcome :=
| PollThrows (e : Thrown)
| PollMutation (input : PollInput).

(** [if ( typeof n !== 'number' || n < 0 ) n = d;] *)
Definition number_or (d : Z) (v : JsVal) : JsVal :=
  match v with
  | JNumber n => if num_lt n (Int 0) then JNumber (Int d) else v
  | _ => JNumber (Int d)
  end.

(** [bits > 0], for whatever [bits] ended up as. *)
Definition positive (v : JsVal) : bool :=
  match v with
  | JNumber n => num_lt (Int 0) n
  | _ => false
  end.

Definition createPoll (channel_id : JKey) (title choices : JsVal)
    (options : OptionsArg) : PollOutcome :=
  match title with
  | JString title_s =>
      if negb (string_array choices)
      then PollThrows (TypeError "choices must be array of strings")
      else
        match options with
        | OptionsNull => PollThrows NullRead
        | _ =>
            let o := given_options options in
            let bits :=
              number_or 0 (or_else (opt_bits o) (JNumber (Int 0))) in
            let duration :=
              number_or 60 (or_else (opt_duration o) (JNumber (Int 60))) in
            PollMutation
              (mkPollInput bits (positive bits)
                 match choices with
                 | JArray items => items
                 | _ => []
                 end
                 duration channel_id
                 (or_else (opt_subscriberMultiplier o) (JBool false))
                 (or_else (opt_subscriberOnly o) (JBool false))
                 title_s)
        end
  | _ => PollThrows (TypeError "title must be string")
  end.

(** The call of the method's own example. *)
Definition example_poll : PollOutcome :=
  createPoll (KNum 19571641) (JString "Pick an option:")
    (JArray [JString "One"; JString "Two"; JString "Three"])
    (OptionsGiven (mkPollOptions (JNumber (Int 10)) (JNumber (Int 120))
                     (JBool false) (JBool true))).

(** ** Searches by name *)

(** A node of a category or user search: its id, its primary name (the
    [name] of a category, the [login] of a user) and its display name; a
    name that is not a string is [None]. *)
Record Found := mkFound {
  found_id : JKey;
  found_name : option string;
  found_displayName : option string
}.

#[global] Instance Found_eq_dec : EqDecision Found.
Proof. solve_decision. Defined.

(** [items.sort(compare)].  [Array.prototype.sort] is stable; it is written
    here as the insertion of each element, from the right, in front of the
    first element it does not come after.  A comparator that throws makes
    the sort throw ([None]). *)
Fixpoint sort_insert {A} (compare : A → A → option Z) (x : A) (l : list A)
  : option (list A) :=
  match l with
  | [] => Some [x]
  | y :: l' =>
      match compare x y with
      | None => None
      | Some c =>
          if (c <=? 0)%Z then Some (x :: y :: l')
          else cons y <$> sort_insert compare x l'
      end
  end.

Fixpoint js_sort {A} (compare : A → A → option Z) (l : list A)
  : option (list A) :=
  match l with
  | [] => Some []
  | x :: l' => js_sort compare l' ≫= sort_insert compare x
  end.

(** What the searches read off the response: the nodes of the edges
    ([None] when there are none), the cursor of the last edge, and the page
    information. *)
Record SearchResponse := mkSearchResponse {
  edge_nodes : option (list (option Found));
  last_cursor : JsVal;
  hasNextPage : JsVal;
  totalCount : JsVal
}.

Record PaginatedResult := mkPaginatedResult {
  cursor : JsVal;
  items : list (option Found);
  finished : bool;
  count : JsVal
}.

Section Search.

(** [String.prototype.toLowerCase]. *)
Variable toLowerCase : string → string.

(** [x.name?.toLowerCase?.() === needle || x?.displayName?.toLowerCase?.() === needle] *)
Definition exact_match (needle : string) (x : Found) : bool :=
  bool_decide (toLowerCase <$> found_name x = Some needle)
  || bool_decide (toLowerCase <$> found_displayName x = Some needle).

(** The comparator of both searches.  [a_match] is [a && (...)] and
    [b_match] is [a && (...)] too: for a [null] [a] neither is looked at
    and the result is 0; for an [a] that is not [null], reading [b.name] of
    a [null] [b] throws. *)
Definition compare_found (needle : string) (a b : option Found) : option Z :=
  match a with
  | None => Some 0%Z
  | Some x =>
      match b with
      | None => None
      | Some y =>
          let a_match := exact_match needle x in
          let b_match := exact_match needle y in
          Some (if a_match && negb b_match then (-1)%Z
                else if negb a_match && b_match then 1%Z
                else 0%Z)
      end
  end.

(** [getMatchingCategories] and [getMatchingUsers] after their query
    returned; [None] is the [TypeError] of the comparator. *)
Definition getMatching (query : string) (data : SearchResponse)
  : option PaginatedResult :=
  let nodes := default [] (edge_nodes data) in
  let needle := toLowerCase query in
  sorted ← js_sort (compare_found needle) nodes;
  Some (mkPaginatedResult (last_cursor data) sorted
          (negb (truthy_val (hasNextPage data)))
          (or_else (totalCount data) (JNumber (Int 0)))).

(** A node that is there and matches the search text exactly. *)
Definition is_exact (needle : string) (x : option Found) : bool :=
  match x with
  | Some f => exact_match needle f
  | None => false
  end.

End Search.

(** Lower case of the letters A to Z, for the examples. *)
Definition lower_ascii (a : Ascii.ascii) : Ascii.ascii :=
  let n := Ascii.nat_of_ascii a in
  if (65 <=? n)%nat && (n <=? 90)%nat then Ascii.ascii_of_nat (n + 32) else a.

Fixpoint lower (s : string) : string :=
  match s with
  | EmptyString => EmptyString
  | String a s' => String (lower_ascii a) (lower s')
  end.

(** A page of a user search for the text Ninja. *)
Definition ninja_page : SearchResponse :=
  mkSearchResponse
    (Some [Some (mkFound (KNum 1) (Some "ninjas_hyper") (Some "Ninjas_Hyper"));
           Some (mkFound (KNum 2) (Some "ninja") (Some "Ninja"));
           Some (mkFound (KNum 3) (Some "ninjatv") None);
           Some (mkFound (KNum 4) (Some "n1nja") (Some "NINJA"))])
    (JString "cursor4") JUndefined (JNumber (Int 40)).

(** ** Callers, pending waiters and notifications *)

(** The waiters a registry holds, key by key. *)
Definition pending (r : Registry) : list Waiter := concat (map snd r).

Definition sched_pending (s : Sched) : list Waiter :=
  pending (waiting_ids s) ++ pending (waiting_logins s).

(** Every waiter the object still holds. *)
Definition pending_all (d : TwitchData) : list Waiter :=
  sched_pending (users d) ++ sched_pending (streams d) ++
  pending (_waiting_tags (tags d)).

(** The waiter an event notifies. *)
Definition waiter_of (e : Event) : option Waiter :=
  match e with
  | Fulfil w _ | Reject w _ => Some w
  | _ => None
  end.

(** The waiters a trace notified, in order. *)
Definition notified (ev : list Event) : list Waiter := omap waiter_of ev.

(** The promise an action makes, if it is a call of a lookup. *)
Definition caller (a : Action) : list Waiter :=
  match a with
  | CallGetUserBasic w _ _ | CallGetStreamMeta w _ _ | CallGetTag w _ _ => [w]
  | _ => []
  end.

Definition callers (acts : list Action) : list Waiter :=
  concat (map caller acts).

(** How often [w] occurs. *)
Definition occ (w : Waiter) (l : list Waiter) : nat :=
  count_occ Nat.eq_dec l w.

Arguments occ : simpl never.
Arguments pending : simpl never.
Arguments sched_pending : simpl never.
Arguments pending_all : simpl never.
Arguments notified : simpl never.

(** ** One cycle at a time *)

(** The three families of batched lookups. *)
Inductive Kind := Users | Streams | Tags.

#[global] Instance Kind_eq_dec : EqDecision Kind.
Proof. solve_decision. Defined.

(** The keys of the cycle of a kind that is in flight, if one is. *)
Definition cycle_in_flight (k : Kind) (d : TwitchData)
  : option (list JKey * list JKey) :=
  match k with
  | Users => (λ c, (c_ids c, c_logins c)) <$> inflight (users d)
  | Streams => (λ c, (c_ids c, c_logins c)) <$> inflight (streams d)
  | Tags => (λ ids, (ids, [])) <$> inflight_tags (tags d)
  end.

(** The family an action belongs to. *)
Definition kind_of (a : Action) : Kind :=
  match a with
  | CallGetUserBasic _ _ _ | UsersQuerySettles _ => Users
  | CallGetStreamMeta _ _ _ | StreamsTimerFires | StreamsQuerySettles _ => Streams
  | _ => Tags
  end.

(** The action is the settling of a batch query. *)
Definition settles (a : Action) : bool :=
  match a with
  | UsersQuerySettles _ | StreamsQuerySettles _ | TagsQuerySettles _ => true
  | _ => false
  end.

(** While a cycle is in flight its flag is set. *)
Definition flag_ok (s : Sched) : Prop :=
  is_Some (inflight s) → loading s = true.

Definition flags_ok (d : TwitchData) : Prop :=
  flag_ok (users d) ∧ flag_ok (streams d) ∧
  (is_Some (inflight_tags (tags d)) → _loading_tags (tags d) = true).

(** ** The transport adapter *)

(** The own properties of an object, in insertion order. *)
Abbreviation Fields := (list (string * JsVal)).

Fixpoint obj_get (name : string) (o : Fields) : option JsVal :=
  match o with
  | [] => None
  | (k, v) :: o' => if decide (k = name) then Some v else obj_get name o'
  end.

(** [o[name] = v]: an own property keeps its place, a new one goes last. *)
Fixpoint obj_set (name : string) (v : JsVal) (o : Fields) : Fields :=
  match o with
  | [] => [(name, v)]
  | (k, v') :: o' =>
      if decide (k = name) then (k, v) :: o' else (k, v') :: obj_set name v o'
  end.

(** [Object.assign(target, source)] for a source that is an object. *)
Definition obj_assign (target source : Fields) : Fields :=
  fold_left (λ acc p, obj_set p.1 p.2 acc) source target.

(** [v.name], for a name no primitive has: reading it off [undefined] or
    [null] throws ([None]). *)
Definition get_prop (v : JsVal) (name : string) : option JsVal :=
  match v with
  | JUndefined | JNull => None
  | JObject o => Some (default JUndefined (obj_get name o))
  | _ => Some JUndefined
  end.

(** [queryApollo(query, variables, options)] and
    [mutate(mutation, variables, options)] up to the call of the client:
    the request they hand over, or [None] for the [TypeError] of reading
    [query.query] off nothing.  The two differ in the name of the first
    property.  [options] is an object or left out. *)
Definition build_request (key : string) (q variables : JsVal)
    (options : option Fields) : option JsVal :=
  let wrapped :=
    let thing := [(key, q); ("variables"%string, variables)] in
    JObject match options with
            | Some o => obj_assign thing o
            | None => thing
            end in
  if negb (truthy_val variables) && negb (bool_decide (is_Some options))
  then
    match get_prop q key with
    | None => None
    | Some p => if truthy_val p then Some q else Some wrapped
    end
  else Some wrapped.

Definition queryApollo := build_request "query".
Definition mutate := build_request "mutation".

(** The request of [getBroadcastID], in both calling conventions, and a
    request with options. *)
Definition broadcast_document : JsVal := JObject [("kind"%string, JString "Document")].
Definition broadcast_variables : JsVal :=
  JObject [("id"%string, JNull); ("login"%string, JString "ninja")].
Definition cache_options : Fields :=
  [("fetchPolicy"%string, JString "network-only");
   ("variables"%string, JObject [("id"%string, JString "1")])].

(** * Properties *)

(** ** Registries *)

Lemma reg_get_delete_eq (k : JKey) (r : Registry) :
  reg_get k (reg_delete k r) = None.
Proof.
  unfold reg_delete. induction r as [|[k' ws] r IH]; [done|].
  rewrite filter_cons. simpl. destruct (decide (k' ≠ k)) as [Hne|Heq].
  - simpl. by rewrite decide_False.
  - done.
Qed.

Lemma reg_get_delete_ne (k k' : JKey) (r : Registry) :
  k ≠ k' → reg_get k (reg_delete k' r) = reg_get k r.
Proof.
  intros Hkk. unfold reg_delete. induction r as [|[k0 ws] r IH]; [done|].
  rewrite filter_cons. simpl. destruct (decide (k0 ≠ k')) as [Hne|Heq].
  - simpl. by rewrite IH.
  - apply dec_stable in Heq. subst k0. by rewrite decide_False.
Qed.

Lemma reg_get_delete (k k' : JKey) (r : Registry) :
  reg_get k (reg_delete k' r) = if decide (k = k') then None else reg_get k r.
Proof.
  destruct (decide (k = k')) as [->|Hne].
  - apply reg_get_delete_eq.
  - by apply reg_get_delete_ne.
Qed.

Lemma reg_get_None (k : JKey) (r : Registry) :
  reg_get k r = None ↔ k ∉ reg_keys r.
Proof.
  unfold reg_keys. induction r as [|[k' ws] r IH]; simpl.
  - split; [intros _; apply not_elem_of_nil | done].
  - rewrite not_elem_of_cons. destruct (decide (k' = k)) as [->|Hne].
    + split; [done | intros [? _]; done].
    + rewrite IH. split; [intros ?; split; [congruence | done] | intros [_ ?]; done].
Qed.

Lemma reg_get_Some_key (k : JKey) (ws : list Waiter) (r : Registry) :
  reg_get k r = Some ws → k ∈ reg_keys r.
Proof.
  intros H. destruct (decide (k ∈ reg_keys r)) as [|Hn]; [done|].
  apply reg_get_None in Hn. congruence.
Qed.

Lemma reg_get_is_Some (k : JKey) (r : Registry) :
  k ∈ reg_keys r → is_Some (reg_get k r).
Proof.
  intros Hin. destruct (reg_get k r) eqn:E; [by eexists|].
  apply reg_get_None in E. done.
Qed.

Lemma reg_keys_delete (k : JKey) (r : Registry) :
  reg_keys (reg_delete k r) = set_delete k (reg_keys r).
Proof.
  unfold reg_keys, reg_delete, set_delete.
  induction r as [|[k' ws] r IH]; [done|].
  rewrite fmap_cons, !filter_cons. simpl.
  destruct (decide (k' ≠ k)); [rewrite fmap_cons; simpl; f_equal|]; exact IH.
Qed.

Lemma reg_delete_absent (k : JKey) (r : Registry) :
  reg_get k r = None → reg_delete k r = r.
Proof.
  unfold reg_delete. induction r as [|[k' ws] r IH]; [done|]. simpl.
  destruct (decide (k' = k)) as [->|Hne]; [done|]. intros H.
  rewrite filter_cons. simpl. rewrite decide_True by done. by rewrite IH.
Qed.

Lemma reg_keys_push (k : JKey) (w : Waiter) (r : Registry) :
  reg_keys (reg_push k w r) = reg_keys r.
Proof.
  unfold reg_keys. induction r as [|[k' ws] r IH]; [done|]. cbn [reg_push].
  destruct (decide (k' = k)); rewrite !fmap_cons; [done | by rewrite IH].
Qed.

Lemma reg_get_push (k k' : JKey) (w : Waiter) (r : Registry) :
  reg_get k (reg_push k' w r) =
  if decide (k = k') then (λ ws, ws ++ [w]) <$> reg_get k r else reg_get k r.
Proof.
  induction r as [|[k0 ws] r IH]; simpl.
  - by destruct (decide (k = k')).
  - destruct (decide (k0 = k')) as [->|Hne]; simpl.
    + destruct (decide (k' = k)) as [->|Hne2].
      * by rewrite decide_True.
      * by rewrite decide_False by congruence.
    + destruct (decide (k0 = k)) as [->|Hne2].
      * by rewrite decide_False by congruence.
      * done.
Qed.

Lemma reg_get_app_absent (k : JKey) (r1 r2 : Registry) :
  reg_get k r1 = None → reg_get k (r1 ++ r2) = reg_get k r2.
Proof.
  induction r1 as [|[k0 ws] r1 IH]; [done|]. simpl.
  destruct (decide (k0 = k)); [done | exact IH].
Qed.

Lemma reg_get_app_present (k : JKey) (ws : list Waiter) (r1 r2 : Registry) :
  reg_get k r1 = Some ws → reg_get k (r1 ++ r2) = Some ws.
Proof.
  induction r1 as [|[k0 ws0] r1 IH]; [done|]. simpl.
  destruct (decide (k0 = k)); [done | exact IH].
Qed.

(** What [reg_register] does to every key: the registered key gains the
    waiter at the end of its list, the others keep theirs. *)
Lemma reg_get_register (k k' : JKey) (w : Waiter) (r : Registry) :
  reg_get k (reg_register k' w r) =
  if decide (k = k') then Some (default [] (reg_get k r) ++ [w])
  else reg_get k r.
Proof.
  unfold reg_register, reg_has. destruct (reg_get k' r) as [ws'|] eqn:E.
  - rewrite reg_get_push. destruct (decide (k = k')) as [->|]; [|done].
    by rewrite E.
  - destruct (decide (k = k')) as [->|Hne].
    + rewrite (reg_get_app_absent _ _ _ E). simpl. rewrite decide_True by done.
      by rewrite E.
    + destruct (reg_get k r) as [ws|] eqn:E2.
      * by apply reg_get_app_present.
      * rewrite (reg_get_app_absent _ _ _ E2). simpl.
        by rewrite decide_False by congruence.
Qed.

Lemma reg_keys_register (k : JKey) (w : Waiter) (r : Registry) :
  reg_keys (reg_register k w r) =
  if reg_has k r then reg_keys r else reg_keys r ++ [k].
Proof.
  unfold reg_register. destruct (reg_has k r).
  - apply reg_keys_push.
  - unfold reg_keys. by rewrite fmap_app.
Qed.

Lemma NoDup_set_delete (k : JKey) (l : list JKey) :
  NoDup l → NoDup (set_delete k l).
Proof. apply NoDup_filter. Qed.

Lemma elem_of_set_delete (k k' : JKey) (l : list JKey) :
  k ∈ set_delete k' l ↔ k ∈ l ∧ k ≠ k'.
Proof. unfold set_delete. rewrite list_elem_of_filter. tauto. Qed.

(** ** Selection of a batch *)

Lemma select_batch_ids (s : Sched) :
  c_ids (select_batch s) = take BATCH (reg_keys (waiting_ids s)).
Proof. reflexivity. Qed.

Lemma select_batch_logins (s : Sched) :
  c_logins (select_batch s) =
  take (BATCH - length (c_ids (select_batch s))) (reg_keys (waiting_logins s)).
Proof.
  unfold select_batch. cbn [c_ids c_logins].
  set (ids := take BATCH (reg_keys (waiting_ids s))).
  assert (length ids ≤ BATCH) as Hle by (subst ids; rewrite length_take; lia).
  unfold BATCH in *.
  destruct (Z.ltb_spec 0 (50 - Z.of_nat (length ids))) as [Hlt|Hge].
  - f_equal. lia.
  - replace (50 - length ids) with 0 by lia. by rewrite take_0.
Qed.

Lemma select_batch_bound (s : Sched) :
  length (c_ids (select_batch s)) + length (c_logins (select_batch s)) ≤ BATCH.
Proof.
  rewrite select_batch_logins, length_take.
  assert (length (c_ids (select_batch s)) ≤ BATCH)
    by (rewrite select_batch_ids, length_take; lia).
  lia.
Qed.

Lemma select_batch_size (s : Sched) :
  length (c_ids (select_batch s)) + length (c_logins (select_batch s)) =
  BATCH `min` (length (waiting_ids s) + length (waiting_logins s)).
Proof.
  rewrite select_batch_logins, select_batch_ids, !length_take.
  unfold reg_keys. rewrite !length_fmap. lia.
Qed.

Lemma select_batch_NoDup (s : Sched) :
  NoDup (reg_keys (waiting_ids s)) → NoDup (reg_keys (waiting_logins s)) →
  NoDup (c_ids (select_batch s)) ∧ NoDup (c_logins (select_batch s)).
Proof.
  intros H1 H2. rewrite select_batch_logins, select_batch_ids.
  split; (eapply sublist_NoDup; [|apply sublist_take]; done).
Qed.

Lemma select_batch_pending (s : Sched) :
  (∀ k, k ∈ c_ids (select_batch s) → k ∈ reg_keys (waiting_ids s)) ∧
  (∀ k, k ∈ c_logins (select_batch s) → k ∈ reg_keys (waiting_logins s)).
Proof.
  rewrite select_batch_logins, select_batch_ids.
  split; intros k Hk; eapply subseteq_take; exact Hk.
Qed.

(** ** Fan-out of a successful response *)

(** The step shared by the inductions over the nodes of a response: apply
    the induction hypothesis to the state after the first node, and name
    the result of the loop over the other nodes. *)
Ltac next_nodes payload ns IH :=
  match goal with
  | |- context [process_nodes payload ns ?g] =>
      let f2 := fresh "f2" in
      let e3 := fresh "e3" in
      specialize (IH g); destruct (process_nodes payload ns g) as [f2 e3]
  end.

Section Fanout.

Variable payload : Node → Value.

Lemma fulfil_key_get (v : Value) (k k' : JKey) (r : Registry) :
  reg_get k (fulfil_key v k' r).1 =
  if decide (k = k') then None else reg_get k r.
Proof.
  unfold fulfil_key. destruct (reg_get k' r) as [ws|] eqn:E; cbn [fst].
  - apply reg_get_delete.
  - destruct (decide (k = k')) as [->|]; done.
Qed.

Lemma fulfil_key_events (v : Value) (k : JKey) (r : Registry) :
  (fulfil_key v k r).2 = fulfil_all v (default [] (reg_get k r)).
Proof. unfold fulfil_key. by destruct (reg_get k r). Qed.

Lemma fulfil_key_keys (v : Value) (k : JKey) (r : Registry) :
  reg_keys (fulfil_key v k r).1 = set_delete k (reg_keys r).
Proof.
  unfold fulfil_key. destruct (reg_get k r) as [ws|] eqn:E; cbn [fst].
  - apply reg_keys_delete.
  - rewrite <- reg_keys_delete. by rewrite reg_delete_absent.
Qed.

(** The id registry after the loop over the nodes: a key with a node is
    gone, the others are as before. *)
Lemma process_nodes_ids (ns : list (option Node)) (f : Fanout) (k : JKey) :
  reg_get k (f_ids (process_nodes payload ns f).1) =
  match node_for_id k ns with
  | Some _ => None
  | None => reg_get k (f_ids f)
  end.
Proof.
  revert f. induction ns as [|node ns IH]; intros f; [done|].
  cbn [process_nodes node_for_id]. unfold process_node.
  destruct (valid_node node) as [[n id]|] eqn:Ev.
  - destruct (fulfil_key (payload n) id (f_ids f)) as [ids e1] eqn:E1.
    destruct (fulfil_login (payload n) (node_login n) (f_logins f))
      as [logins e2] eqn:E2.
    next_nodes payload ns IH.
    cbn [fst f_ids] in *. rewrite IH.
    assert (ids = (fulfil_key (payload n) id (f_ids f)).1) as -> by by rewrite E1.
    rewrite fulfil_key_get.
    destruct (decide (id = k)) as [->|Hne].
    + rewrite decide_True by done. by destruct (node_for_id k ns).
    + by rewrite decide_False by congruence.
  - specialize (IH f). destruct (process_nodes payload ns f) as [f2 e3].
    exact IH.
Qed.

Lemma fulfil_login_get (v : Value) (l : option JKey) (k : JKey) (r : Registry) :
  reg_get k (fulfil_login v l r).1 =
  if decide (l = Some k) then None else reg_get k r.
Proof.
  destruct l as [l|]; cbn [fulfil_login fst].
  - rewrite fulfil_key_get. destruct (decide (k = l)) as [->|Hne].
    + by rewrite decide_True.
    + by rewrite decide_False by congruence.
  - by rewrite decide_False.
Qed.

Lemma process_nodes_logins (ns : list (option Node)) (f : Fanout) (k : JKey) :
  reg_get k (f_logins (process_nodes payload ns f).1) =
  match node_for_login k ns with
  | Some _ => None
  | None => reg_get k (f_logins f)
  end.
Proof.
  revert f. induction ns as [|node ns IH]; intros f; [done|].
  cbn [process_nodes node_for_login]. unfold process_node.
  destruct (valid_node node) as [[n id]|] eqn:Ev.
  - destruct (fulfil_key (payload n) id (f_ids f)) as [ids e1] eqn:E1.
    destruct (fulfil_login (payload n) (node_login n) (f_logins f))
      as [logins e2] eqn:E2.
    next_nodes payload ns IH.
    cbn [fst f_logins] in *. rewrite IH.
    assert (logins = (fulfil_login (payload n) (node_login n) (f_logins f)).1)
      as -> by by rewrite E2.
    rewrite fulfil_login_get.
    destruct (decide (node_login n = Some k)) as [Heq|Hne].
    + by destruct (node_for_login k ns).
    + done.
  - specialize (IH f). destruct (process_nodes payload ns f) as [f2 e3].
    exact IH.
Qed.

(** The two sets after the loop: the selected keys no node matched. *)
Lemma process_nodes_id_set (ns : list (option Node)) (f : Fanout) (k : JKey) :
  k ∈ f_id_set (process_nodes payload ns f).1 ↔
  k ∈ f_id_set f ∧ node_for_id k ns = None.
Proof.
  revert f. induction ns as [|node ns IH]; intros f; [cbn; tauto|].
  cbn [process_nodes node_for_id]. unfold process_node.
  destruct (valid_node node) as [[n id]|] eqn:Ev.
  - destruct (fulfil_key (payload n) id (f_ids f)) as [ids e1] eqn:E1.
    destruct (fulfil_login (payload n) (node_login n) (f_logins f))
      as [logins e2] eqn:E2.
    next_nodes payload ns IH.
    cbn [fst f_id_set] in *. rewrite IH, elem_of_set_delete.
    destruct (decide (id = k)) as [->|Hne].
    + split; [tauto | intros [_ ?]; done].
    + split; [tauto | intros [? ?]; repeat split; [done | congruence | done]].
  - specialize (IH f). destruct (process_nodes payload ns f) as [f2 e3].
    exact IH.
Qed.

Lemma process_nodes_login_set (ns : list (option Node)) (f : Fanout) (k : JKey) :
  k ∈ f_login_set (process_nodes payload ns f).1 ↔
  k ∈ f_login_set f ∧ node_for_login k ns = None.
Proof.
  revert f. induction ns as [|node ns IH]; intros f; [cbn; tauto|].
  cbn [process_nodes node_for_login]. unfold process_node.
  destruct (valid_node node) as [[n id]|] eqn:Ev.
  - destruct (fulfil_key (payload n) id (f_ids f)) as [ids e1] eqn:E1.
    destruct (fulfil_login (payload n) (node_login n) (f_logins f))
      as [logins e2] eqn:E2.
    next_nodes payload ns IH.
    cbn [fst f_login_set] in *. rewrite IH.
    destruct (node_login n) as [l|] eqn:El; cbn [set_delete_opt].
    + rewrite elem_of_set_delete.
      destruct (decide (Some l = Some k)) as [[= ->]|Hne].
      * split; [tauto | intros [_ ?]; done].
      * split; [tauto | intros [? ?]; repeat split; [done | congruence | done]].
    + by rewrite decide_False.
  - specialize (IH f). destruct (process_nodes payload ns f) as [f2 e3].
    exact IH.
Qed.

(** Every waiter of a key with a node is fulfilled with the payload of the
    first node for the key. *)
Lemma process_nodes_fulfils_id (ns : list (option Node)) (f : Fanout)
    (k : JKey) (ws : list Waiter) (n : Node) (w : Waiter) :
  reg_get k (f_ids f) = Some ws → node_for_id k ns = Some n → w ∈ ws →
  Fulfil w (payload n) ∈ (process_nodes payload ns f).2.
Proof.
  revert f. induction ns as [|node ns IH]; intros f Hget Hn Hw; [done|].
  cbn [process_nodes node_for_id] in *. unfold process_node.
  destruct (valid_node node) as [[n' id]|] eqn:Ev.
  - pose proof (fulfil_key_get (payload n') k id (f_ids f)) as Hg.
    pose proof (fulfil_key_events (payload n') id (f_ids f)) as He.
    destruct (fulfil_key (payload n') id (f_ids f)) as [ids e1].
    destruct (fulfil_login (payload n') (node_login n') (f_logins f))
      as [logins e2].
    next_nodes payload ns IH.
    cbn [fst snd f_ids] in *.
    destruct (decide (id = k)) as [->|Hne].
    + injection Hn as ->. rewrite Hget in He. subst e1.
      rewrite !elem_of_app. left. left. unfold fulfil_all.
      apply list_elem_of_fmap. by exists w.
    + rewrite decide_False in Hg by congruence.
      rewrite !elem_of_app. right. apply IH; [congruence | done | done].
  - specialize (IH f). destruct (process_nodes payload ns f) as [f2 e3].
    by apply IH.
Qed.

Lemma process_nodes_fulfils_login (ns : list (option Node)) (f : Fanout)
    (k : JKey) (ws : list Waiter) (n : Node) (w : Waiter) :
  reg_get k (f_logins f) = Some ws → node_for_login k ns = Some n → w ∈ ws →
  Fulfil w (payload n) ∈ (process_nodes payload ns f).2.
Proof.
  revert f. induction ns as [|node ns IH]; intros f Hget Hn Hw; [done|].
  cbn [process_nodes node_for_login] in *. unfold process_node.
  destruct (valid_node node) as [[n' id]|] eqn:Ev.
  - pose proof (fulfil_login_get (payload n') (node_login n') k (f_logins f)) as Hg.
    destruct (fulfil_key (payload n') id (f_ids f)) as [ids e1].
    destruct (fulfil_login (payload n') (node_login n') (f_logins f))
      as [logins e2] eqn:E2.
    next_nodes payload ns IH.
    cbn [fst snd f_logins] in *.
    destruct (decide (node_login n' = Some k)) as [Heq|Hne].
    + injection Hn as ->. rewrite Heq in E2. cbn [fulfil_login] in E2.
      unfold fulfil_key in E2. rewrite Hget in E2. injection E2 as _ <-.
      rewrite !elem_of_app. left. right. unfold fulfil_all.
      apply list_elem_of_fmap. by exists w.
    + rewrite !elem_of_app. right. apply IH; [congruence | done | done].
  - specialize (IH f). destruct (process_nodes payload ns f) as [f2 e3].
    by apply IH.
Qed.

End Fanout.

(** The loop over what is left of a set. *)
Lemma fulfil_null_get (keys : list JKey) (r : Registry) (k : JKey) :
  reg_get k (fulfil_null keys r).1 =
  if decide (k ∈ keys) then None else reg_get k r.
Proof.
  revert r. induction keys as [|k' ks IH]; intros r.
  - cbn. by rewrite decide_False by apply not_elem_of_nil.
  - cbn [fulfil_null].
    pose proof (fulfil_key_get VNull k k' r) as Hg.
    destruct (fulfil_key VNull k' r) as [r1 e1].
    specialize (IH r1). destruct (fulfil_null ks r1) as [r2 e2].
    cbn [fst] in *. rewrite IH, Hg.
    destruct (decide (k = k')) as [->|Hne].
    + rewrite (decide_True (P := k' ∈ k' :: ks)) by apply list_elem_of_here.
      by destruct (decide (k' ∈ ks)).
    + destruct (decide (k ∈ ks)) as [Hin|Hnin].
      * by rewrite decide_True by by apply list_elem_of_further.
      * rewrite decide_False; [done|]. rewrite elem_of_cons. tauto.
Qed.

Lemma fulfil_null_fulfils (keys : list JKey) (r : Registry) (k : JKey)
    (ws : list Waiter) (w : Waiter) :
  k ∈ keys → reg_get k r = Some ws → w ∈ ws →
  Fulfil w VNull ∈ (fulfil_null keys r).2.
Proof.
  revert r. induction keys as [|k' ks IH]; intros r Hin Hget Hw.
  - by apply elem_of_nil in Hin.
  - cbn [fulfil_null].
    pose proof (fulfil_key_get VNull k k' r) as Hg.
    pose proof (fulfil_key_events VNull k' r) as He.
    destruct (fulfil_key VNull k' r) as [r1 e1].
    specialize (IH r1). destruct (fulfil_null ks r1) as [r2 e2].
    cbn [fst snd] in *. rewrite elem_of_app.
    destruct (decide (k = k')) as [->|Hne].
    + left. rewrite He, Hget. unfold fulfil_all. apply list_elem_of_fmap.
      by exists w.
    + right. apply IH; [|congruence|done].
      apply elem_of_cons in Hin as [?|?]; [congruence | done].
Qed.

Lemma call_load_waiting (doc : Doc) (deb : bool) (s : Sched) :
  waiting_ids (call_load doc deb s).1 = waiting_ids s ∧
  waiting_logins (call_load doc deb s).1 = waiting_logins s.
Proof.
  unfold call_load, load_begin. destruct deb; [done|].
  by destruct (loading s).
Qed.

Lemma call_load_no_reject (doc : Doc) (deb : bool) (s : Sched) :
  Forall (λ e, is_reject e = false) (call_load doc deb s).2.
Proof.
  unfold call_load, load_begin. destruct deb; [apply Forall_nil_2|].
  destruct (loading s); cbn [snd]; [apply Forall_nil_2|].
  apply Forall_cons_2; [done | apply Forall_nil_2].
Qed.

Lemma fulfil_all_no_reject (v : Value) (ws : list Waiter) :
  Forall (λ e, is_reject e = false) (fulfil_all v ws).
Proof. unfold fulfil_all. apply Forall_forall. by intros e (w & -> & _)%list_elem_of_fmap. Qed.

Lemma fulfil_key_no_reject (v : Value) (k : JKey) (r : Registry) :
  Forall (λ e, is_reject e = false) (fulfil_key v k r).2.
Proof. rewrite fulfil_key_events. apply fulfil_all_no_reject. Qed.

Lemma fulfil_null_no_reject (keys : list JKey) (r : Registry) :
  Forall (λ e, is_reject e = false) (fulfil_null keys r).2.
Proof.
  revert r. induction keys as [|k ks IH]; intros r; [by constructor|].
  cbn [fulfil_null]. pose proof (fulfil_key_no_reject VNull k r) as H1.
  destruct (fulfil_key VNull k r) as [r1 e1]. specialize (IH r1).
  destruct (fulfil_null ks r1) as [r2 e2]. cbn [snd] in *.
  rewrite Forall_app. tauto.
Qed.

Lemma process_nodes_no_reject (payload : Node → Value)
    (ns : list (option Node)) (f : Fanout) :
  Forall (λ e, is_reject e = false) (process_nodes payload ns f).2.
Proof.
  revert f. induction ns as [|node ns IH]; intros f; [by constructor|].
  cbn [process_nodes]. unfold process_node.
  destruct (valid_node node) as [[n id]|].
  - pose proof (fulfil_key_no_reject (payload n) id (f_ids f)) as H1.
    destruct (fulfil_key (payload n) id (f_ids f)) as [ids e1].
    assert (Forall (λ e, is_reject e = false)
              (fulfil_login (payload n) (node_login n) (f_logins f)).2) as H2.
    { destruct (node_login n); [apply fulfil_key_no_reject | by constructor]. }
    destruct (fulfil_login (payload n) (node_login n) (f_logins f)) as [logins e2].
    next_nodes payload ns IH.
    cbn [snd] in *. rewrite !Forall_app. tauto.
  - specialize (IH f). by destruct (process_nodes payload ns f).
Qed.

(** The state and trace of the code after the [try], unfolded once. *)
Lemma load_succeeded_unfold (doc : Doc) (payload : Node → Value) (deb : bool)
    (c : Cycle) (nodes : option (list (option Node))) (s : Sched) :
  let f0 := mkFanout (waiting_ids s) (waiting_logins s) (c_ids c) (c_logins c) in
  let fe := process_nodes payload (response_nodes nodes) f0 in
  let ids := fulfil_null (f_id_set fe.1) (f_ids fe.1) in
  let logins := fulfil_null (f_login_set fe.1) (f_logins fe.1) in
  let r := load_succeeded doc payload deb c nodes s in
  waiting_ids r.1 = ids.1 ∧ waiting_logins r.1 = logins.1 ∧
  ∃ e4, r.2 = fe.2 ++ ids.2 ++ logins.2 ++ e4 ∧
        Forall (λ e, is_reject e = false) e4.
Proof.
  cbv zeta. unfold load_succeeded.
  set (f0 := mkFanout (waiting_ids s) (waiting_logins s) (c_ids c) (c_logins c)).
  replace (match nodes with
           | Some ns => process_nodes payload ns f0
           | None => (f0, [])
           end)
    with (process_nodes payload (response_nodes nodes) f0) by by destruct nodes.
  destruct (process_nodes payload (response_nodes nodes) f0) as [f1 e1].
  cbn [fst snd].
  destruct (fulfil_null (f_id_set f1) (f_ids f1)) as [ri e2].
  destruct (fulfil_null (f_login_set f1) (f_logins f1)) as [rl e3].
  cbn [fst snd].
  set (s1 := set_loading false (set_waiting_logins rl (set_waiting_ids ri s))).
  destruct ri as [|pi ri'], rl as [|pl rl']; cbn [fst snd].
  1: { split; [done|]. split; [done|]. exists []. split; [done | apply Forall_nil_2]. }
  all: pose proof (call_load_waiting doc deb s1) as [Hi Hl];
    pose proof (call_load_no_reject doc deb s1) as Hnr;
    destruct (call_load doc deb s1) as [s2 e4]; cbn [fst snd] in *;
    (split; [by rewrite Hi|]); (split; [by rewrite Hl|]); by exists e4.
Qed.

(** What a successful cycle does to every pending key of either space. *)
Lemma load_settle_success (doc : Doc) (payload : Node → Value) (deb : bool)
    (c : Cycle) (nodes : option (list (option Node))) (s : Sched) :
  inflight s = Some c →
  let ns := response_nodes nodes in
  let r := load_settle doc payload deb (Succeeded nodes) s in
  r.2 = Returned ∧
  (∀ k ws, reg_get k (waiting_ids s) = Some ws →
     match node_for_id k ns with
     | Some n =>
         (∀ w, w ∈ ws → Fulfil w (payload n) ∈ r.1.2) ∧
         reg_get k (waiting_ids r.1.1) = None
     | None =>
         if decide (k ∈ c_ids c)
         then (∀ w, w ∈ ws → Fulfil w VNull ∈ r.1.2) ∧
              reg_get k (waiting_ids r.1.1) = None
         else reg_get k (waiting_ids r.1.1) = Some ws
     end) ∧
  (∀ l ws, reg_get l (waiting_logins s) = Some ws →
     match node_for_login l ns with
     | Some n =>
         (∀ w, w ∈ ws → Fulfil w (payload n) ∈ r.1.2) ∧
         reg_get l (waiting_logins r.1.1) = None
     | None =>
         if decide (l ∈ c_logins c)
         then (∀ w, w ∈ ws → Fulfil w VNull ∈ r.1.2) ∧
              reg_get l (waiting_logins r.1.1) = None
         else reg_get l (waiting_logins r.1.1) = Some ws
     end) ∧
  Forall (λ e, is_reject e = false) r.1.2.
Proof.
  intros Hin ns r. subst r. unfold load_settle. rewrite Hin. cbn [fst snd].
  set (s0 := set_inflight None s).
  pose proof (load_succeeded_unfold doc payload deb c nodes s0)
    as (Hi & Hl & e4 & Hev & Hnr).
  cbv zeta in Hi, Hl, Hev. fold ns in Hi, Hl, Hev.
  set (f0 := mkFanout (waiting_ids s0) (waiting_logins s0) (c_ids c) (c_logins c))
    in Hi, Hl, Hev.
  set (fe := process_nodes payload ns f0) in Hi, Hl, Hev.
  rewrite Hi, Hl, Hev. clear Hi Hl Hev.
  split; [done|]. split; [|split].
  - intros k ws Hget. rewrite fulfil_null_get.
    subst fe. rewrite process_nodes_ids.
    destruct (node_for_id k ns) as [n|] eqn:En.
    + split; [|by destruct (decide _)].
      intros w Hw. rewrite elem_of_app. left.
      by eapply process_nodes_fulfils_id.
    + cbn [f0 f_ids]. destruct (decide (k ∈ c_ids c)) as [Hsel|Hsel].
      * assert (k ∈ f_id_set (process_nodes payload ns f0).1) as Hleft
          by (apply process_nodes_id_set; done).
        rewrite decide_True by done. split; [|done].
        intros w Hw. rewrite !elem_of_app. right. left.
        eapply fulfil_null_fulfils; [exact Hleft | | exact Hw].
        by rewrite process_nodes_ids, En.
      * rewrite decide_False; [done|].
        rewrite process_nodes_id_set. tauto.
  - intros k ws Hget. rewrite fulfil_null_get.
    subst fe. rewrite process_nodes_logins.
    destruct (node_for_login k ns) as [n|] eqn:En.
    + split; [|by destruct (decide _)].
      intros w Hw. rewrite elem_of_app. left.
      by eapply process_nodes_fulfils_login.
    + cbn [f0 f_logins]. destruct (decide (k ∈ c_logins c)) as [Hsel|Hsel].
      * assert (k ∈ f_login_set (process_nodes payload ns f0).1) as Hleft
          by (apply process_nodes_login_set; done).
        rewrite decide_True by done. split; [|done].
        intros w Hw. rewrite !elem_of_app. right. right. left.
        eapply fulfil_null_fulfils; [exact Hleft | | exact Hw].
        by rewrite process_nodes_logins, En.
      * rewrite decide_False; [done|].
        rewrite process_nodes_login_set. tauto.
  - rewrite !Forall_app. repeat split; [| | |done].
    + apply process_nodes_no_reject.
    + apply fulfil_null_no_reject.
    + apply fulfil_null_no_reject.
Qed.

(** C2 (as amended).  When the query of a users or streams cycle succeeds:
    every waiter on a pending key that a response node matches (a node that
    is not null and has a truthy id; the first one whose id, or login, is the
    key) is fulfilled with the payload of that node, whether or not the key
    was selected; every waiter on a selected key that no node matches is
    fulfilled with [null]; a key that was not selected and that no node
    matches keeps its waiters; nobody is rejected. *)
Theorem C2_success_fanout (doc : Doc) (payload : Node → Value) (deb : bool)
    (c : Cycle) (nodes : option (list (option Node))) (s : Sched) :
  inflight s = Some c →
  let ns := response_nodes nodes in
  let r := load_settle doc payload deb (Succeeded nodes) s in
  r.2 = Returned ∧
  (∀ k ws, reg_get k (waiting_ids s) = Some ws →
     match node_for_id k ns with
     | Some n =>
         (∀ w, w ∈ ws → Fulfil w (payload n) ∈ r.1.2) ∧
         reg_get k (waiting_ids r.1.1) = None
     | None =>
         if decide (k ∈ c_ids c)
         then (∀ w, w ∈ ws → Fulfil w VNull ∈ r.1.2) ∧
              reg_get k (waiting_ids r.1.1) = None
         else reg_get k (waiting_ids r.1.1) = Some ws
     end) ∧
  (∀ l ws, reg_get l (waiting_logins s) = Some ws →
     match node_for_login l ns with
     | Some n =>
         (∀ w, w ∈ ws → Fulfil w (payload n) ∈ r.1.2) ∧
         reg_get l (waiting_logins r.1.1) = None
     | None =>
         if decide (l ∈ c_logins c)
         then (∀ w, w ∈ ws → Fulfil w VNull ∈ r.1.2) ∧
              reg_get l (waiting_logins r.1.1) = None
         else reg_get l (waiting_logins r.1.1) = Some ws
     end) ∧
  Forall (λ e, is_reject e = false) r.1.2.
Proof. apply load_settle_success. Qed.

Lemma C2_success_fanout_witness :
  Fulfil 0 (VUser node_one) ∈
    (_loadUsers_settle (Succeeded example_response) example_sched).1.2 ∧
  Fulfil 1 VNull ∈
    (_loadUsers_settle (Succeeded example_response) example_sched).1.2 ∧
  Fulfil 2 (VUser node_foo) ∈
    (_loadUsers_settle (Succeeded example_response) example_sched).1.2.
Proof.
  destruct (C2_success_fanout UserBulk user_payload users_debounced
              example_cycle example_response example_sched eq_refl)
    as (_ & Hids & Hlogins & _).
  split; [|split].
  - apply (Hids (KNum 1) [0] eq_refl). apply list_elem_of_here.
  - apply (Hids (KNum 2) [1] eq_refl). apply list_elem_of_here.
  - apply (Hlogins (KStr "foo") [2] eq_refl). apply list_elem_of_here.
Defined.

(** The example of the specification, run: ids 1 and 2 and the login foo
    resolve with the entity of 1, with [null], and with the entity of foo;
    nothing stays pending and no further cycle starts. *)
Example spec_example_users :
  _loadUsers_settle (Succeeded example_response) example_sched =
  (mkSched [] [] false None false,
   [Fulfil 0 (VUser node_one); Fulfil 2 (VUser node_foo); Fulfil 1 VNull],
   Returned).
Proof. reflexivity. Qed.

(** The same lookups on streams, from a fresh object and within one
    debounce window. *)
Example spec_example_streams :
  run [CallGetStreamMeta 0 (Some (KNum 1)) None;
       CallGetStreamMeta 1 (Some (KNum 2)) None;
       CallGetStreamMeta 2 None (Some (KStr "foo"));
       StreamsTimerFires;
       StreamsQuerySettles (Succeeded example_response)] fresh =
  (fresh,
   [Query StreamFetch (Some [KNum 1; KNum 2]) (Some [KStr "foo"]);
    Fulfil 0 (VStream "live one"); Fulfil 2 VNull; Fulfil 1 VNull]).
Proof. reflexivity. Qed.

(** C2, counterexample.  Fifty ids and the login foo are pending when a
    streams cycle starts, so the cycle selects the fifty ids and no login.
    The response holds the node of user 1, whose login is foo: the waiter on
    the login foo, a key that was not selected, is fulfilled and its key is
    removed from the registry. *)
Lemma C2_unselected_key_is_settled :
  inflight (streams (run crowded_window fresh).1) =
    Some (mkCycle (map (λ i, KNum (Z.of_nat i)) (seq 1 50)) []) ∧
  reg_get (KStr "foo") (_waiting_stream_logins (run crowded_window fresh).1) =
    Some [50] ∧
  reg_get (KStr "foo")
    (_waiting_stream_logins
       (step (StreamsQuerySettles (Succeeded (Some [Some node_alias])))
             (run crowded_window fresh).1).1) = None ∧
  bool_decide
    (Fulfil 50 (VStream "live") ∈
       (step (StreamsQuerySettles (Succeeded (Some [Some node_alias])))
             (run crowded_window fresh).1).2) = true.
Proof. vm_compute. repeat split. Qed.

(** ** The cycle-running flag *)

Lemma load_begin_flag (doc : Doc) (s : Sched) :
  loading (load_begin doc s).1 = true.
Proof. unfold load_begin. by destruct (loading s) eqn:E. Qed.

Lemma load_failed_flag (c : Cycle) (err : Err) (s : Sched) :
  loading (load_failed c err s).1.1 = loading s ∧
  inflight (load_failed c err s).1.1 = inflight s ∧
  timer (load_failed c err s).1.1 = timer s.
Proof.
  unfold load_failed.
  destruct (reject_selected err (c_ids c) (waiting_ids s)) as [[ids e1] [|]].
  - by destruct (reject_selected err (c_logins c) (waiting_logins s)) as [[? ?] ?].
  - done.
Qed.

Lemma drain_strict_no_query (notify : Waiter → Event) (keys : list JKey)
    (r : Registry) :
  (∀ w, is_query (notify w) = false) →
  queries (drain_strict notify keys r).1.2 = [].
Proof.
  intros Hn. revert r. induction keys as [|k ks IH]; intros r; [done|].
  cbn [drain_strict]. destruct (reg_get k r) as [ws|]; [|done].
  specialize (IH (reg_delete k r)).
  destruct (drain_strict notify ks (reg_delete k r)) as [[r' ev] c].
  cbn [fst snd] in *. unfold queries in *. rewrite List.filter_app, IH, app_nil_r.
  induction ws as [|w ws IHw]; [done|]. cbn. by rewrite Hn.
Qed.

Lemma load_failed_no_query (c : Cycle) (err : Err) (s : Sched) :
  queries (load_failed c err s).1.2 = [].
Proof.
  unfold load_failed.
  pose proof (drain_strict_no_query (λ w, Reject w err) (c_ids c)
                (waiting_ids s) (λ _, eq_refl)) as H1.
  pose proof (drain_strict_no_query (λ w, Reject w err) (c_logins c)
                (waiting_logins s) (λ _, eq_refl)) as H2.
  unfold reject_selected.
  destruct (drain_strict _ (c_ids c) (waiting_ids s)) as [[ids e1] [|]];
    cbn [fst snd] in *; [|done].
  destruct (drain_strict _ (c_logins c) (waiting_logins s)) as [[? e2] ?].
  cbn [fst snd] in *. unfold queries in *. by rewrite List.filter_app, H1, H2.
Qed.

(** A call on a scheduler whose flag is set only registers: no query, no
    timer, no cycle. *)
Lemma request_while_loading (doc : Doc) (deb : bool) (w : Waiter)
    (id login : option JKey) (s : Sched) :
  loading s = true →
  let r := request doc deb w id login s in
  loading r.1 = true ∧ inflight r.1 = inflight s ∧ timer r.1 = timer s ∧
  queries r.2 = [].
Proof.
  intros Hl. cbv zeta. unfold request.
  destruct (if_truthy id) as [i|]; [|destruct (if_truthy login) as [l|]];
    cbn [loading set_waiting_ids set_waiting_logins]; by rewrite Hl.
Qed.

(** C1, on the code.  A cycle of any of the three schedulers whose query
    fails ends with the cycle-running flag still set and no cycle in flight:
    the [catch] block returns without clearing it.  From then on a lookup
    only joins the registry; it starts no cycle and arms no timer, so the
    keys left behind are never drained. *)
Theorem C1_flag_stays_set_after_failure :
  (∀ doc payload deb err s,
     let s1 := (load_begin doc s).1 in
     let s2 := (load_settle doc payload deb (Failed err) s1).1.1 in
     loading s2 = true ∧ inflight s2 = None ∧
     queries (load_settle doc payload deb (Failed err) s1).1.2 = [] ∧
     ∀ w id login,
       let r := request doc deb w id login s2 in
       loading r.1 = true ∧ inflight r.1 = None ∧ timer r.1 = timer s2 ∧
       queries r.2 = []) ∧
  (∀ err t,
     let t1 := (loadTags_begin t).1 in
     let t2 := (loadTags_settle (TagsFailed err) t1).1.1 in
     _loading_tags t2 = true ∧ inflight_tags t2 = None ∧
     ∀ w id want,
       let r := getTag w id want t2 in
       _loading_tags r.1 = true ∧ inflight_tags r.1 = None ∧
       timer_tags r.1 = timer_tags t2 ∧ queries r.2 = []) ∧
  run [CallGetUserBasic 0 (Some (KNum 1)) None;
       UsersQuerySettles (Failed "network down");
       CallGetUserBasic 1 (Some (KNum 2)) None] fresh =
  (mkTwitchData (mkSched [(KNum 2, [1])] [] true None false) idle_sched idle_tags,
   [Query UserBulk (Some [KNum 1]) None; Reject 0 "network down"]).
Proof.
  split; [|split; [|reflexivity]].
  - intros doc payload deb err s s1 s2.
    assert (loading s2 = true ∧ inflight s2 = None ∧
            queries (load_settle doc payload deb (Failed err) s1).1.2 = [])
      as (Hl & Hi & Hq).
    { subst s2. unfold load_settle.
      pose proof (load_begin_flag doc s) as Hb. fold s1 in Hb.
      destruct (inflight s1) as [c|] eqn:Ei; [|done].
      pose proof (load_failed_flag c err (set_inflight None s1)) as (H1 & H2 & _).
      pose proof (load_failed_no_query c err (set_inflight None s1)) as H3.
      destruct (load_failed c err (set_inflight None s1)) as [[s' ev] cp].
      cbn [fst snd] in *. by rewrite H1, H2. }
    split; [done|]. split; [done|]. split; [done|].
    intros w id login.
    pose proof (request_while_loading doc deb w id login s2 Hl) as Hr.
    cbv zeta in Hr |- *. by rewrite <- Hi.
  - intros err t t1 t2.
    assert (_loading_tags t2 = true ∧ inflight_tags t2 = None) as [Hl Hi].
    { subst t2 t1. unfold loadTags_begin, loadTags_settle.
      destruct (_loading_tags t) eqn:El.
      - cbn [fst]. destruct (inflight_tags t) as [ids|] eqn:Ei; [|done].
        by destruct (reject_selected err ids _) as [[? ?] ?].
      - cbn [fst inflight_tags set_inflight_tags set_loading_tags].
        by destruct (reject_selected err _ _) as [[? ?] ?]. }
    split; [done|]. split; [done|].
    intros w id want. cbv zeta. unfold getTag.
    destruct (tag_cache t2 !! id) as [out|];
      [destruct (truthy_str (tag_description out) || negb want)|];
      try (cbn [fst snd]; done);
      destruct (reg_has id (_waiting_tags t2)); cbn; by rewrite ?Hl, ?Hi.
Qed.

(** ** Failure of a cycle *)

(** The unguarded loop leaves every key outside [keys] alone, however it
    ends. *)
Lemma drain_strict_frame (notify : Waiter → Event) (keys : list JKey)
    (r : Registry) (k : JKey) :
  k ∉ keys → reg_get k (drain_strict notify keys r).1.1 = reg_get k r.
Proof.
  revert r. induction keys as [|k' ks IH]; intros r Hk; [done|].
  apply not_elem_of_cons in Hk as [Hne Hk]. cbn [drain_strict].
  destruct (reg_get k' r) as [ws|] eqn:E.
  - specialize (IH (reg_delete k' r) Hk).
    destruct (drain_strict notify ks (reg_delete k' r)) as [[r' ev] c].
    cbn [fst] in *. rewrite IH. by apply reg_get_delete_ne.
  - cbn [fst]. by apply reg_get_delete_ne.
Qed.

(** When every key of [keys] is pending, and [keys] has no repetition, the
    loop runs to its end: every waiter of every key is notified, in order,
    and the keys are removed. *)
Lemma drain_strict_present (notify : Waiter → Event) (keys : list JKey)
    (r : Registry) :
  NoDup keys → (∀ k, k ∈ keys → k ∈ reg_keys r) →
  (drain_strict notify keys r).2 = Returned ∧
  (drain_strict notify keys r).1.2 =
    concat (map (λ k, map notify (default [] (reg_get k r))) keys) ∧
  ∀ k, reg_get k (drain_strict notify keys r).1.1 =
       if decide (k ∈ keys) then None else reg_get k r.
Proof.
  revert r. induction keys as [|k' ks IH]; intros r Hnd Hin.
  - cbn. split; [done|]. split; [done|]. intros k.
    by rewrite decide_False by apply not_elem_of_nil.
  - apply NoDup_cons in Hnd as [Hk' Hnd]. cbn [drain_strict].
    destruct (reg_get_is_Some k' r) as [ws Hws];
      [apply Hin, list_elem_of_here|]. rewrite Hws.
    destruct (IH (reg_delete k' r) Hnd) as (Hc & Hev & Hget).
    { intros k Hk. rewrite reg_keys_delete. apply elem_of_set_delete.
      split; [apply Hin; by apply list_elem_of_further | congruence]. }
    destruct (drain_strict notify ks (reg_delete k' r)) as [[r' ev] c].
    cbn [fst snd] in *. split; [done|]. split.
    + cbn [map concat]. rewrite Hws. cbn [default]. f_equal. rewrite Hev.
      f_equal. apply map_ext_in. intros k Hk%list_elem_of_In.
      rewrite reg_get_delete_ne; [done | congruence].
    + intros k. rewrite Hget, reg_get_delete.
      destruct (decide (k = k')) as [->|Hne].
      * rewrite (decide_True (P := k' ∈ k' :: ks)) by apply list_elem_of_here.
        by destruct (decide (k' ∈ ks)).
      * destruct (decide (k ∈ ks)) as [Hi|Hi].
        -- by rewrite decide_True by by apply list_elem_of_further.
        -- rewrite decide_False; [done|]. rewrite elem_of_cons. tauto.
Qed.

(** C3, on the code.  The tag ids t1 and t2 are selected and in flight;
    meanwhile an eager read ([getTopTags]) returns the node of t1 with its
    description, so [memorizeTag] fulfils the waiter on t1 and removes the
    key.  When the [tags-fetch] query then fails, the [catch] block finds no
    waiter array for t1, throws, and never reaches t2: the waiter on the
    selected key t2 is not rejected and stays registered forever. *)
Theorem C3_tags_failure_after_dispatch :
  run (tags_in_flight ++ [TopTagsQueryReturns (Some [Some node_english])]) fresh =
  (mkTwitchData idle_sched idle_sched
     (mkTagStore {[ KStr "t1" := tag_english ]} [(KStr "t2", [1])] true
                 (Some [KStr "t1"; KStr "t2"]) false),
   [Query TagsFetch (Some [KStr "t1"; KStr "t2"]) None;
    Fulfil 0 (VTag tag_english)]) ∧
  loadTags_settle (TagsFailed "network down")
    (mkTagStore {[ KStr "t1" := tag_english ]} [(KStr "t2", [1])] true
                (Some [KStr "t1"; KStr "t2"]) false) =
  (mkTagStore {[ KStr "t1" := tag_english ]} [(KStr "t2", [1])] true None false,
   [], ThrewTypeError).
Proof. split; by vm_compute. Qed.

(** ** Debouncing *)

(** C4, on the code.  The constructor wraps [_loadTags] and [_loadStreams]
    in [debounce] but not [_loadUsers]: the first [getUserBasic] of a burst
    starts a cycle at once, for its own key alone, and the lookups that
    follow wait for a second cycle.  Two lookups made back to back cost two
    remote queries; the same two lookups on streams cost one. *)
Theorem C4_users_not_debounced :
  run [CallGetUserBasic 0 (Some (KNum 1)) None;
       CallGetUserBasic 1 (Some (KNum 2)) None;
       UsersQuerySettles (Succeeded (Some [Some node_one]));
       UsersQuerySettles (Succeeded (Some []))] fresh =
  (fresh,
   [Query UserBulk (Some [KNum 1]) None;
    Fulfil 0 (VUser node_one);
    Query UserBulk (Some [KNum 2]) None;
    Fulfil 1 VNull]) ∧
  run [CallGetStreamMeta 0 (Some (KNum 1)) None;
       CallGetStreamMeta 1 (Some (KNum 2)) None;
       StreamsTimerFires;
       StreamsQuerySettles (Succeeded (Some [Some node_one]))] fresh =
  (fresh,
   [Query StreamFetch (Some [KNum 1; KNum 2]) None;
    Fulfil 0 (VStream "live one");
    Fulfil 1 VNull]).
Proof. split; reflexivity. Qed.

(** ** Malformed tag nodes *)

Lemma memorizeTag_malformed (node : option TagNode) (dispatch : bool)
    (t : TagStore) :
  (memorizeTag node dispatch t).2 = None →
  memorizeTag node dispatch t = (t, [], None).
Proof.
  unfold memorizeTag. destruct node as [n|]; [|done].
  destruct (if_truthy (tn_id n)) as [id|]; [|done].
  destruct (if_truthy_str (tn_tagName n)) as [name|]; [|done].
  destruct (if_truthy_str (tn_localizedName n)) as [lname|]; [|done].
  destruct (dispatch && _); [destruct (reg_get _ _)|]; done.
Qed.

(** C7, on the code.  [memorizeTag] drops a null node and a node without
    id, [tagName] or [localizedName]: nothing is stored, nobody is notified,
    the result is [undefined].  [_loadTags] then reads [tag.id] of that
    result: a malformed node in the response of a cycle throws a
    [TypeError], the nodes after it are not read, the waiters of the cycle
    are not notified and the flag stays set. *)
Theorem C7_malformed_node_in_cycle :
  (∀ dispatch t, memorizeTag None dispatch t = (t, [], None)) ∧
  (∀ name label desc auto lang scope dispatch t,
     memorizeTag (Some (mkTagNode None name label desc auto lang scope))
                 dispatch t = (t, [], None)) ∧
  (∀ id label desc auto lang scope dispatch t,
     memorizeTag (Some (mkTagNode id None label desc auto lang scope))
                 dispatch t = (t, [], None)) ∧
  (∀ id name desc auto lang scope dispatch t,
     memorizeTag (Some (mkTagNode id name None desc auto lang scope))
                 dispatch t = (t, [], None)) ∧
  (∀ rest ids t,
     loadTags_settle (TagsSucceeded (Some (None :: rest)))
                     (set_inflight_tags (Some ids) t) =
     (set_inflight_tags None t, [], ThrewTypeError)) ∧
  run (tags_in_flight ++
       [TagsQuerySettles (TagsSucceeded (Some [Some node_nameless; Some node_english]))])
      fresh =
  (mkTwitchData idle_sched idle_sched
     (mkTagStore ∅ [(KStr "t1", [0]); (KStr "t2", [1])] true None false),
   [Query TagsFetch (Some [KStr "t1"; KStr "t2"]) None; Uncaught]).
Proof.
  repeat split.
  - intros. unfold memorizeTag. cbn. by destruct (if_truthy id).
  - intros. unfold memorizeTag. cbn.
    destruct (if_truthy id); [|done]. by destruct (if_truthy_str name).
Qed.

(** ** The contract on the arguments of a lookup *)

(** C6, counterexample.  A call that gives both an id and a login breaks
    the rule that exactly one is given, and is not rejected: the id is
    used, the login ignored. *)
Lemma C6_both_given_is_accepted :
  getUserBasic 0 (Some (KNum 1)) (Some (KStr "foo")) idle_sched =
  (mkSched [(KNum 1, [0])] [] true (Some (mkCycle [KNum 1] [])) false,
   [Query UserBulk (Some [KNum 1]) None]) ∧
  (getStreamMeta 0 (Some (KNum 1)) (Some (KStr "foo")) idle_sched).1 =
  mkSched [(KNum 1, [0])] [] false None true.
Proof. split; reflexivity. Qed.

(** C6 (as amended).  At least one of id and login must be given.  A call
    with neither is rejected at once with the message "id and login cannot
    both be null" and registers no waiter.  A call with a truthy id
    registers its waiter under the id, whatever the login; otherwise a call
    with a truthy login registers it under the login; such calls are not
    rejected. *)
Theorem C6_invalid_key_rejected (doc : Doc) (deb : bool) (w : Waiter)
    (id login : option JKey) (s : Sched) :
  let r := request doc deb w id login s in
  match if_truthy id, if_truthy login with
  | None, None =>
      head r.2 = Some (Reject w invalid_key) ∧
      waiting_ids r.1 = waiting_ids s ∧ waiting_logins r.1 = waiting_logins s
  | Some i, _ =>
      Forall (λ e, is_reject e = false) r.2 ∧
      waiting_ids r.1 = reg_register i w (waiting_ids s) ∧
      waiting_logins r.1 = waiting_logins s
  | None, Some l =>
      Forall (λ e, is_reject e = false) r.2 ∧
      waiting_ids r.1 = waiting_ids s ∧
      waiting_logins r.1 = reg_register l w (waiting_logins s)
  end.
Proof.
  cbv zeta. unfold request.
  destruct (if_truthy id) as [i|]; [|destruct (if_truthy login) as [l|]].
  all: match goal with |- context [loading ?s1] =>
         pose proof (call_load_waiting doc deb s1) as [Hi Hl];
         pose proof (call_load_no_reject doc deb s1) as Hnr;
         destruct (loading s1); [|destruct (call_load doc deb s1) as [s2 e2]]
       end; cbn [fst snd head] in *; rewrite ?Hi, ?Hl;
       repeat split; try done; try apply Forall_nil_2.
Qed.

(** ** The tag cache *)

Lemma memorizeTag_cache (node : option TagNode) (dispatch : bool) (t : TagStore) :
  match (memorizeTag node dispatch t).2 with
  | Some tag =>
      ∃ n id, node = Some n ∧ if_truthy (tn_id n) = Some id ∧
        tag_cache (memorizeTag node dispatch t).1.1 = <[id := tag]> (tag_cache t)
  | None => memorizeTag node dispatch t = (t, [], None)
  end.
Proof.
  destruct (memorizeTag node dispatch t).2 as [tag|] eqn:E;
    [|by apply memorizeTag_malformed].
  unfold memorizeTag in *. destruct node as [n|]; [|done].
  exists n. destruct (if_truthy (tn_id n)) as [id|]; [|done]. exists id.
  destruct (if_truthy_str (tn_tagName n)) as [name|]; [|done].
  destruct (if_truthy_str (tn_localizedName n)) as [lname|]; [|done].
  destruct (dispatch && _); [destruct (reg_get _ _)|];
    cbn [fst snd] in *; by injection E as <-.
Qed.

(** The record [memorizeTag] returns does not depend on [dispatch] nor on
    the registry, only on the node and on the cache entry of its id. *)
Lemma memorizeTag_result (node : option TagNode) (dispatch : bool) (t : TagStore) :
  (memorizeTag node dispatch t).2 =
  match node with
  | Some n =>
      match if_truthy (tn_id n), if_truthy_str (tn_tagName n),
            if_truthy_str (tn_localizedName n) with
      | Some id, Some name, Some _ =>
          let tag0 := default (new_tag n id name) (tag_cache t !! id) in
          let tag1 := set_label (tn_localizedName n) tag0 in
          Some (if truthy_str (tn_localizedDescription n)
                then set_description (tn_localizedDescription n) tag1
                else tag1)
      | _, _, _ => None
      end
  | None => None
  end.
Proof.
  unfold memorizeTag. destruct node as [n|]; [|done].
  destruct (if_truthy (tn_id n)) as [id|]; [|done].
  destruct (if_truthy_str (tn_tagName n)) as [name|]; [|done].
  destruct (if_truthy_str (tn_localizedName n)) as [lname|] eqn:El; [|done].
  assert (truthy_str (tn_localizedName n) = true) as ->.
  { unfold if_truthy_str, truthy_str in *. destruct (tn_localizedName n); [|done].
    by destruct (bool_decide _). }
  cbv zeta. destruct (tag_cache t !! id); cbn [default];
    (destruct (dispatch && _); [destruct (reg_get _ _)|]); done.
Qed.

(** C8.  [memorizeTag] is idempotent on the cache: a second call with the
    same node leaves the cache as the first call left it, and returns the
    same record.  It is monotonic: whatever node is memorized, a cached
    record that had a label (a description) still has one afterwards, and
    when the node lacks a description the cached description is exactly the
    one that was there. *)
Theorem C8_memorizeTag_idempotent_monotonic (node : option TagNode)
    (d1 d2 : bool) (t : TagStore) :
  let m1 := memorizeTag node d1 t in
  let m2 := memorizeTag node d2 m1.1.1 in
  tag_cache m2.1.1 = tag_cache m1.1.1 ∧ m2.2 = m1.2 ∧
  ∀ id tag, tag_cache t !! id = Some tag →
    ∃ tag', tag_cache m1.1.1 !! id = Some tag' ∧
      (truthy_str (tag_label tag) = true → truthy_str (tag_label tag') = true) ∧
      (truthy_str (tag_description tag) = true →
       truthy_str (tag_description tag') = true) ∧
      (truthy_str (node ≫= tn_localizedDescription) = false →
       tag_description tag' = tag_description tag).
Proof.
  cbv zeta.
  pose proof (memorizeTag_cache node d1 t) as H1.
  pose proof (memorizeTag_result node d1 t) as R1.
  destruct (memorizeTag node d1 t) as [[t1 e1] o1] eqn:E1. cbn [fst snd] in *.
  destruct o1 as [tag1|].
  - destruct H1 as (n & id & -> & Hid & Hc).
    pose proof (memorizeTag_cache (Some n) d2 t1) as H2.
    pose proof (memorizeTag_result (Some n) d2 t1) as R2.
    cbv beta iota in R2. rewrite Hid in R1, R2.
    destruct (if_truthy_str (tn_tagName n)) as [name|]; [|done].
    destruct (if_truthy_str (tn_localizedName n)) as [lname|] eqn:El; [|done].
    rewrite Hc, lookup_insert_eq in R2. cbn [default] in R2. cbv zeta in R1, R2.
    injection R1 as R1.
    assert (truthy_str (tn_localizedName n) = true) as Hlab.
    { unfold if_truthy_str, truthy_str in *. destruct (tn_localizedName n); [|done].
      by destruct (bool_decide _). }
    assert ((memorizeTag (Some n) d2 t1).2 = Some tag1) as R2'.
    { rewrite R2. f_equal. rewrite R1.
      destruct (truthy_str (tn_localizedDescription n)); by destruct (default _ _). }
    rewrite R2' in H2. destruct H2 as (n' & id' & [= <-] & Hid' & Hc').
    rewrite Hid in Hid'. injection Hid' as <-.
    split; [by rewrite Hc', Hc, insert_insert_eq|]. split; [done|].
    intros k tag Hk. rewrite Hc. destruct (decide (id = k)) as [->|Hne].
    + exists tag1. rewrite lookup_insert_eq. split; [done|].
      rewrite Hk in R1. cbn [default mbind option_bind] in *. subst tag1.
      destruct (truthy_str (tn_localizedDescription n)) eqn:Ed;
        cbn [set_description set_label tag_label tag_description]; done.
    + exists tag. rewrite lookup_insert_ne by done. done.
  - injection H1 as -> _.
    assert ((memorizeTag node d2 t).2 = None) as H2
      by (pose proof (memorizeTag_result node d2 t) as R2;
          cbv zeta in R2; by rewrite <- R1 in R2).
    apply memorizeTag_malformed in H2. rewrite H2. cbn [fst snd].
    split; [done|]. split; [done|]. intros k tag Hk. by exists tag.
Qed.

(** The description survives a later node without one. *)
Example memorizeTag_keeps_description :
  tag_cache
    (memorizeTag (Some node_english_bare) true
       (memorizeTag (Some node_english) true idle_tags).1.1).1.1
  = {[ KStr "t1" := tag_english ]}.
Proof. by vm_compute. Qed.

Lemma C8_memorizeTag_idempotent_monotonic_witness :
  ∃ tag',
    tag_cache
      (memorizeTag (Some node_english_bare) true
         (memorizeTag (Some node_english) true idle_tags).1.1).1.1
      !! KStr "t1" = Some tag' ∧
    tag_description tag' = Some "Streams in English".
Proof.
  destruct (C8_memorizeTag_idempotent_monotonic (Some node_english_bare)
              true true (memorizeTag (Some node_english) true idle_tags).1.1)
    as (_ & _ & H).
  destruct (H (KStr "t1") tag_english) as (tag' & Hc & _ & _ & Hd);
    [by vm_compute|].
  exists tag'. split; [exact Hc|]. rewrite Hd; reflexivity.
Defined.

(** C9.  When the cached record of [id] has no description,
    [getTag(id, true)] does not resolve: it notifies nobody and adds the
    caller to the waiters of [id], and, when [id] was not already waited for
    and no cycle is running, arms the timer of the batch cycle, whose query
    carries [id] (when fewer than fifty other ids are ahead of it).
    [getTag(id, false)] resolves at once with the cached record, and
    changes nothing: no waiter, no timer, no query. *)
Theorem C9_getTag_wants_description (w : Waiter) (id : JKey) (out : Tag)
    (t : TagStore) :
  tag_cache t !! id = Some out →
  truthy_str (tag_description out) = false →
  (let r := getTag w id true t in
   r.2 = [] ∧ tag_cache r.1 = tag_cache t ∧
   reg_get id (_waiting_tags r.1) =
     Some (default [] (reg_get id (_waiting_tags t)) ++ [w]) ∧
   (reg_has id (_waiting_tags t) = false → _loading_tags t = false →
    timer_tags r.1 = true ∧
    (length (_waiting_tags t) < BATCH →
     ∃ ids, (tags_timer_fire r.1).2 = [Query TagsFetch (Some ids) None] ∧
            id ∈ ids))) ∧
  getTag w id false t = (t, [Fulfil w (VTag out)]).
Proof.
  intros Hc Hd. cbv zeta. unfold getTag. rewrite Hc, Hd. cbn [orb negb].
  split; [|done].
  pose proof (reg_get_register id id w (_waiting_tags t)) as Hreg.
  unfold reg_register in Hreg. rewrite decide_True in Hreg by done.
  destruct (reg_has id (_waiting_tags t)) eqn:Eh; cbn [fst snd].
  - split; [done|]. split; [done|]. split; [exact Hreg | done].
  - cbn [_loading_tags set_waiting_tags].
    destruct (_loading_tags t) eqn:El; cbn [fst snd].
    + split; [done|]. split; [done|]. split; [exact Hreg | done].
    + split; [done|]. split; [done|]. split; [exact Hreg|].
      intros _ _. split; [done|]. intros Hlen.
      unfold tags_timer_fire, _loadTags, loadTags_begin. cbn.
      rewrite El. cbn. eexists. split; [done|].
      unfold reg_keys. rewrite fmap_app, take_app_ge by (rewrite length_fmap; unfold BATCH in *; lia).
      rewrite elem_of_app. right. rewrite length_fmap. cbn.
      unfold BATCH in *.
      destruct (50 - length (_waiting_tags t)) eqn:Eb; [lia|].
      cbn. apply list_elem_of_here.
Qed.

Lemma C9_getTag_wants_description_witness :
  (getTag 5 (KStr "t1") true
     (memorizeTag (Some node_english_bare) true idle_tags).1.1).2 = [] ∧
  getTag 5 (KStr "t1") false
    (memorizeTag (Some node_english_bare) true idle_tags).1.1 =
  ((memorizeTag (Some node_english_bare) true idle_tags).1.1,
   [Fulfil 5 (VTag (set_description None tag_english))]).
Proof.
  destruct (C9_getTag_wants_description 5 (KStr "t1")
              (set_description None tag_english)
              (memorizeTag (Some node_english_bare) true idle_tags).1.1)
    as [[H1 _] H2]; [by vm_compute | reflexivity |].
  split; [exact H1 | exact H2].
Defined.

(** ** Cycles of at most fifty keys *)

Lemma load_begin_idle (doc : Doc) (s : Sched) :
  loading s = false →
  load_begin doc s =
  (set_inflight (Some (select_batch s)) (set_loading true s),
   [Query doc (or_null (c_ids (select_batch s)))
              (or_null (c_logins (select_batch s)))]).
Proof. intros H. unfold load_begin. by rewrite H. Qed.

(** After a successful cycle the flag is clear; when a key is still pending
    the load method is called again. *)
Lemma load_succeeded_rearm (doc : Doc) (payload : Node → Value) (deb : bool)
    (c : Cycle) (nodes : option (list (option Node))) (s : Sched) :
  let r := load_succeeded doc payload deb c nodes s in
  ∃ s1, loading s1 = false ∧ inflight s1 = inflight s ∧ timer s1 = timer s ∧
        waiting_ids s1 = waiting_ids r.1 ∧
        waiting_logins s1 = waiting_logins r.1 ∧
        match waiting_ids r.1, waiting_logins r.1 with
        | [], [] => r.1 = s1
        | _, _ => r.1 = (call_load doc deb s1).1
        end.
Proof.
  cbv zeta. unfold load_succeeded.
  destruct (match nodes with Some ns => _ | None => _ end) as [f1 e1].
  destruct (fulfil_null (f_id_set f1) (f_ids f1)) as [ri e2].
  destruct (fulfil_null (f_login_set f1) (f_logins f1)) as [rl e3].
  set (s1 := set_loading false (set_waiting_logins rl (set_waiting_ids ri s))).
  exists s1.
  destruct ri as [|pi ri'], rl as [|pl rl']; cbn [fst snd]; [done|..].
  all: pose proof (call_load_waiting doc deb s1) as [Hi Hl];
    destruct (call_load doc deb s1) as [s2 e4] eqn:E; cbn [fst snd] in *;
    rewrite Hi, Hl; done.
Qed.

(** C5 (as amended).  A cycle selects the first fifty pending ids in
    insertion order and, only when fewer than fifty ids are pending, fills
    up with the first pending logins in insertion order: at most fifty keys
    in all.  With more than fifty keys pending it selects exactly fifty and
    leaves the others, which stay pending unless the response happens to
    hold their entity.  When the query succeeds and a key is still pending
    after the fan-out, the load method is called again: for users the next
    cycle starts at once, for streams when the debounce timer fires; that
    cycle is again the selection of at most fifty keys. *)
Theorem C5_batch_of_fifty (doc : Doc) (payload : Node → Value) (deb : bool)
    (s : Sched) :
  let c := select_batch s in
  c_ids c = take 50 (reg_keys (waiting_ids s)) ∧
  c_logins c = take (50 - length (c_ids c)) (reg_keys (waiting_logins s)) ∧
  length (c_ids c) + length (c_logins c) ≤ 50 ∧
  (c_logins c ≠ [] → length (waiting_ids s) < 50) ∧
  (50 < length (waiting_ids s) + length (waiting_logins s) →
   length (c_ids c) + length (c_logins c) = 50 ∧
   (drop 50 (reg_keys (waiting_ids s)) ≠ [] ∨
    drop (50 - length (c_ids c)) (reg_keys (waiting_logins s)) ≠ [])) ∧
  (loading s = false →
   inflight (load_begin doc s).1 = Some c ∧
   (load_begin doc s).2 = [Query doc (or_null (c_ids c)) (or_null (c_logins c))]) ∧
  ∀ c0 nodes, inflight s = Some c0 →
    let r := load_settle doc payload deb (Succeeded nodes) s in
    (∀ k ws, reg_get k (waiting_ids s) = Some ws → k ∉ c_ids c0 →
       node_for_id k (response_nodes nodes) = None →
       reg_get k (waiting_ids r.1.1) = Some ws) ∧
    (∀ l ws, reg_get l (waiting_logins s) = Some ws → l ∉ c_logins c0 →
       node_for_login l (response_nodes nodes) = None →
       reg_get l (waiting_logins r.1.1) = Some ws) ∧
    (waiting_ids r.1.1 ≠ [] ∨ waiting_logins r.1.1 ≠ [] →
     let s' := if deb then (timer_fire doc r.1.1).1 else r.1.1 in
     loading s' = true ∧ inflight s' = Some (select_batch r.1.1) ∧
     length (c_ids (select_batch r.1.1)) +
       length (c_logins (select_batch r.1.1)) ≤ 50).
Proof.
  cbv zeta.
  split; [apply select_batch_ids|]. split; [apply select_batch_logins|].
  split; [apply select_batch_bound|]. split; [|split; [|split]].
  - rewrite select_batch_logins, select_batch_ids, length_take.
    unfold reg_keys, BATCH. rewrite length_fmap. intros Hne.
    destruct (decide (length (waiting_ids s) < 50)) as [|Hge]; [done|].
    exfalso. apply Hne. replace (50 - _) with 0 by lia. apply take_0.
  - intros Hmany. pose proof (select_batch_size s) as Hsz. unfold BATCH in Hsz.
    rewrite Nat.min_l in Hsz by lia. split; [exact Hsz|].
    rewrite select_batch_ids, length_take. unfold reg_keys, BATCH.
    rewrite !length_fmap.
    destruct (decide (50 < length (waiting_ids s))) as [Hi|Hi].
    + left. intros Hnil%(f_equal length).
      rewrite length_drop, length_fmap in Hnil. cbn [length] in Hnil. lia.
    + right. intros Hnil%(f_equal length).
      rewrite length_drop, length_fmap in Hnil. cbn [length] in Hnil. lia.
  - intros Hidle. by rewrite load_begin_idle.
  - intros c0 nodes Hin.
    pose proof (load_settle_success doc payload deb c0 nodes s Hin)
      as (_ & Hids & Hlogins & _). cbv zeta in Hids, Hlogins.
    split; [|split].
    + intros k ws Hget Hsel Hno. specialize (Hids k ws Hget).
      rewrite Hno in Hids. by rewrite decide_False in Hids.
    + intros l ws Hget Hsel Hno. specialize (Hlogins l ws Hget).
      rewrite Hno in Hlogins. by rewrite decide_False in Hlogins.
    + unfold load_settle. rewrite Hin. cbn [fst snd].
      pose proof (load_succeeded_rearm doc payload deb c0 nodes
                    (set_inflight None s))
        as (s1 & Hl & Hi & Ht & Hwi & Hwl & Hre).
      cbv zeta in Hwi, Hwl, Hre.
      set (r := load_succeeded doc payload deb c0 nodes (set_inflight None s)) in *.
      intros Hpending.
      assert (r.1 = (call_load doc deb s1).1) as Hr.
      { destruct (waiting_ids r.1), (waiting_logins r.1); try done.
        by destruct Hpending. }
      assert (select_batch r.1 = select_batch s1) as Hsel
        by (unfold select_batch; by rewrite Hwi, Hwl).
      split; [|split; [|apply select_batch_bound]].
      * destruct deb.
        -- rewrite Hr. unfold call_load, timer_fire. cbn [fst timer set_timer].
           apply load_begin_flag.
        -- rewrite Hr. unfold call_load. apply load_begin_flag.
      * rewrite Hsel. destruct deb.
        -- rewrite Hr. unfold call_load, timer_fire. cbn [fst timer set_timer].
           rewrite load_begin_idle by done. done.
        -- rewrite Hr. unfold call_load. by rewrite load_begin_idle.
Qed.

Lemma C5_batch_of_fifty_witness :
  inflight (_loadUsers_settle (Succeeded (Some [])) burst_sched).1.1 =
  Some (mkCycle [KNum 2] [KStr "foo"]).
Proof.
  destruct (C5_batch_of_fifty UserBulk user_payload users_debounced burst_sched)
    as (_ & _ & _ & _ & _ & _ & H).
  destruct (H (mkCycle [KNum 1] []) (Some []) eq_refl) as (_ & _ & H3).
  destruct H3 as (_ & Hin & _); [left; discriminate | exact Hin].
Defined.

(** Fifty-two distinct ids requested back to back: the first lookup
    starts a cycle for its id alone, the second cycle takes the next fifty
    and the third takes the last. *)
Example users_52_keys_three_cycles :
  queries
    (run (user_calls 52 ++
          [UsersQuerySettles (Succeeded (Some []));
           UsersQuerySettles (Succeeded (Some []));
           UsersQuerySettles (Succeeded (Some []))]) fresh).2 =
  [Query UserBulk (Some [KNum 1]) None;
   Query UserBulk (Some (map (λ i, KNum (Z.of_nat i)) (seq 2 50))) None;
   Query UserBulk (Some [KNum 52]) None].
Proof. by vm_compute. Qed.

(** C5, counterexample.  Fifty-one distinct keys are pending when the
    streams cycle starts: the ids 1 to 50 and the login foo.  The cycle
    selects the fifty ids; the response holds their nodes, and the node of
    user 1 has the login foo.  Every waiter is served by this one cycle:
    nothing is pending afterwards, no timer is armed and a single query was
    made. *)
Lemma C5_one_cycle_for_51_keys :
  length (_waiting_stream_ids (run crowded_window fresh).1) +
    length (_waiting_stream_logins (run crowded_window fresh).1) = 51 ∧
  (run (crowded_window ++
        [StreamsQuerySettles (Succeeded (Some (crowd_nodes 50)))]) fresh).1
    = fresh ∧
  length (queries
    (run (crowded_window ++
          [StreamsQuerySettles (Succeeded (Some (crowd_nodes 50)))]) fresh).2)
    = 1.
Proof. by vm_compute. Qed.

(** ** [getTopTags] *)

Lemma first_by_id_filter (P : option JKey → Prop) `{!∀ x, Decision (P x)}
    (l : list TagNode) :
  filter (λ n, P (tn_id n)) (first_by_id l) =
  first_by_id (filter (λ n, P (tn_id n)) l).
Proof.
  induction l as [|n l IH]; [done|]. cbn [first_by_id].
  destruct (decide (P (tn_id n))) as [Hp|Hp].
  - rewrite !filter_cons_True by done. cbn [first_by_id]. f_equal.
    rewrite <- IH, !list_filter_filter. apply list_filter_iff. tauto.
  - rewrite !filter_cons_False by done. rewrite <- IH.
    apply list_filter_filter_l. intros m Hm Heq. apply Hp. by rewrite <- Heq.
Qed.

Lemma filter_all {A} (P : A → Prop) `{!∀ x, Decision (P x)} (l : list A) :
  (∀ x, P x) → filter P l = l.
Proof.
  intros Hall. induction l as [|x l IH]; [done|].
  rewrite filter_cons_True by done. by rewrite IH.
Qed.

Lemma elem_of_first_by_id (n : TagNode) (l : list TagNode) :
  n ∈ first_by_id l → n ∈ l.
Proof.
  revert n. induction l as [|m l IH]; intros n; [done|]. cbn [first_by_id].
  rewrite !elem_of_cons, list_elem_of_filter. intros [->|[_ H]]; auto.
Qed.

Lemma first_by_id_NoDup (l : list TagNode) : NoDup (tn_id <$> first_by_id l).
Proof.
  induction l as [|n l IH]; [constructor|]. cbn [first_by_id].
  rewrite fmap_cons. apply NoDup_cons. split.
  - intros (m & Heq & Hm)%list_elem_of_fmap.
    apply list_elem_of_filter in Hm as [Hne _]. congruence.
  - revert IH. generalize (first_by_id l). intros k Hk.
    induction k as [|m k IHk]; [constructor|].
    rewrite fmap_cons in Hk. apply NoDup_cons in Hk as [Hm Hk].
    rewrite filter_cons. destruct (decide (tn_id m ≠ tn_id n)); [|by apply IHk].
    rewrite fmap_cons. apply NoDup_cons. split; [|by apply IHk].
    intros (m' & Heq & Hm')%list_elem_of_fmap.
    apply list_elem_of_filter in Hm' as [_ Hm']. apply Hm.
    apply list_elem_of_fmap. by exists m'.
Qed.

(** The ids of the entries are among the ids of the nodes kept, in order. *)
Lemma entry_ids_sublist (kept : list TagNode) (out : list (option Tag)) :
  Forall2 entry_of kept out →
  Some <$> entry_ids out `sublist_of` tn_id <$> kept.
Proof.
  induction 1 as [|n e kept out He _ IH]; [constructor|].
  unfold entry_ids in *. rewrite fmap_cons. destruct e as [tag|]; cbn.
  - destruct He as [_ ->]. by apply sublist_skip.
  - by apply sublist_cons.
Qed.

Lemma memorizeTag_entry (n : TagNode) (dispatch : bool) (t : TagStore) :
  cache_ok (tag_cache t) →
  entry_of n (memorizeTag (Some n) dispatch t).2 ∧
  cache_ok (tag_cache (memorizeTag (Some n) dispatch t).1.1) ∧
  (∀ k, tn_id n ≠ Some k →
     tag_cache (memorizeTag (Some n) dispatch t).1.1 !! k = tag_cache t !! k) ∧
  (∀ tag, (memorizeTag (Some n) dispatch t).2 = Some tag →
     tag_cache (memorizeTag (Some n) dispatch t).1.1 !! tag_id tag = Some tag).
Proof.
  intros Hok.
  pose proof (memorizeTag_cache (Some n) dispatch t) as Hc.
  pose proof (memorizeTag_result (Some n) dispatch t) as Hr.
  cbv beta iota zeta in Hr.
  destruct (memorizeTag (Some n) dispatch t) as [[t1 e1] o] eqn:E.
  cbn [fst snd] in *. unfold entry_of, well_formed.
  destruct o as [tag|].
  - destruct Hc as (n' & id & [= <-] & Hid & Hc). rewrite Hid in Hr.
    assert (tn_id n = Some id ∧ truthy id = true) as [Hn Ht].
    { unfold if_truthy in Hid. destruct (tn_id n) as [k|]; [|done].
      destruct (truthy k) eqn:Ek; [|done]. by injection Hid as ->. }
    destruct (if_truthy_str (tn_tagName n)) as [name|] eqn:En; [|done].
    destruct (if_truthy_str (tn_localizedName n)) as [lname|] eqn:El; [|done].
    injection Hr as Hr.
    assert (tag_id tag = id) as Htid.
    { subst tag. destruct (tag_cache t !! id) as [c|] eqn:Ec; cbn [default].
      - apply Hok in Ec. by destruct (truthy_str (tn_localizedDescription n)).
      - by destruct (truthy_str (tn_localizedDescription n)). }
    assert (∀ s x, if_truthy_str s = Some x → truthy_str s = true) as Hts.
    { intros [s|] x; cbn; [|done]. by destruct (bool_decide _). }
    rewrite Hn. cbn [truthy_opt]. rewrite Ht, (Hts _ _ En), (Hts _ _ El), Htid.
    split; [done|]. split; [|split].
    + intros k tag' Hk. rewrite Hc in Hk.
      destruct (decide (id = k)) as [->|Hne].
      * rewrite lookup_insert_eq in Hk. by injection Hk as <-.
      * rewrite lookup_insert_ne in Hk by done. by apply Hok.
    + intros k Hk. rewrite Hc. apply lookup_insert_ne. congruence.
    + intros tag' [= <-]. rewrite Hc, Htid. apply lookup_insert_eq.
  - injection Hc as -> _. split; [|done].
    unfold if_truthy, if_truthy_str, truthy_opt, truthy_str in *.
    destruct (tn_id n) as [k|]; [|done]. destruct (truthy k); [|done].
    destruct (tn_tagName n) as [s|]; [|done].
    destruct (bool_decide (s = EmptyString)); [done|].
    destruct (tn_localizedName n) as [s'|]; [|done].
    by destruct (bool_decide (s' = EmptyString)).
Qed.

Lemma topTags_nodes_spec (ns : list (option TagNode))
    (seen : gset (option JKey)) (t : TagStore) :
  cache_ok (tag_cache t) →
  let r := topTags_nodes ns seen t in
  cache_ok (tag_cache r.1.1) ∧
  Forall2 entry_of
    (first_by_id (filter (λ n, tn_id n ∉ seen) (present_nodes ns))) r.2 ∧
  (∀ k, Some k ∈ seen → tag_cache r.1.1 !! k = tag_cache t !! k) ∧
  (∀ tag, Some tag ∈ r.2 → tag_cache r.1.1 !! tag_id tag = Some tag).
Proof.
  revert seen t. induction ns as [|[n|] ns IH]; intros seen t Hok; cbv zeta.
  - cbn. split; [done|]. split; [constructor|]. split; [done|].
    intros tag H. by apply elem_of_nil in H.
  - cbn [topTags_nodes]. unfold present_nodes. cbn [omap list_omap id].
    fold (present_nodes ns).
    destruct (decide (tn_id n ∈ seen)) as [Hs|Hs].
    + rewrite bool_decide_eq_true_2 by done.
      rewrite filter_cons_False by tauto. by apply IH.
    + rewrite bool_decide_eq_false_2 by done.
      rewrite filter_cons_True by done. cbn [first_by_id].
      destruct (memorizeTag_entry n true t Hok) as (He & Hok1 & Hfr & Hal).
      destruct (memorizeTag (Some n) true t) as [[t1 e1] tag].
      cbn [fst snd] in *.
      destruct (IH ({[tn_id n]} ∪ seen) t1 Hok1) as (Hok2 & Hf2 & Hfr2 & Hal2).
      destruct (topTags_nodes ns ({[tn_id n]} ∪ seen) t1) as [[t2 e2] out].
      cbn [fst snd] in *. split; [done|]. split; [|split].
      * constructor; [done|].
        pose proof (first_by_id_filter (λ i, i ≠ tn_id n)
                      (filter (λ m, tn_id m ∉ seen) (present_nodes ns))) as Hx.
        cbv beta in Hx. rewrite Hx, list_filter_filter. clear Hx.
        erewrite list_filter_iff; [exact Hf2|].
        intros m. cbn. rewrite elem_of_union, elem_of_singleton. tauto.
      * intros k Hk. rewrite Hfr2 by (apply elem_of_union; by right).
        apply Hfr. intros Heq. apply Hs. by rewrite Heq.
      * intros tag' Hin. apply elem_of_cons in Hin as [<-|Hin].
        -- destruct He as [_ Hid].
           rewrite Hfr2; [by apply Hal|].
           apply elem_of_union. left. apply elem_of_singleton. by symmetry.
        -- by apply Hal2.
  - cbn [topTags_nodes]. unfold present_nodes. cbn [omap list_omap id].
    by apply IH.
Qed.

(** C10.  The result of [getTopTags] has one entry for each distinct id of
    the nodes of the response that are not null, for the first node with
    that id and in the order of those first nodes: the tag of that id, or
    [undefined] when that node is malformed.  No tag id appears twice, and
    each tag returned is the record the cache holds under its id. *)
Theorem C10_getTopTags_one_entry_per_id
    (nodes : option (list (option TagNode))) (t : TagStore) :
  cache_ok (tag_cache t) →
  let r := getTopTags nodes t in
  let kept := first_by_id (present_nodes (default [] nodes)) in
  Forall2 entry_of kept r.2 ∧
  NoDup (tn_id <$> kept) ∧
  NoDup (entry_ids r.2) ∧
  (∀ tag, Some tag ∈ r.2 → tag_cache r.1.1 !! tag_id tag = Some tag).
Proof.
  intros Hok. cbv zeta.
  assert (Forall2 entry_of (first_by_id (present_nodes (default [] nodes)))
            (getTopTags nodes t).2 ∧
          (∀ tag, Some tag ∈ (getTopTags nodes t).2 →
             tag_cache (getTopTags nodes t).1.1 !! tag_id tag = Some tag))
    as [Hf Hal].
  { destruct nodes as [ns|]; cbn [getTopTags default].
    - destruct (topTags_nodes_spec ns ∅ t Hok) as (_ & Hf & _ & Hal).
      split; [|done].
      rewrite filter_all in Hf by (intros; apply not_elem_of_empty). exact Hf.
    - split; [constructor|]. intros tag H. by apply elem_of_nil in H. }
  split; [done|]. split; [apply first_by_id_NoDup|]. split; [|done].
  eapply (NoDup_fmap_1 Some), sublist_NoDup;
    [apply first_by_id_NoDup | by apply entry_ids_sublist].
Qed.

Lemma cache_ok_empty : cache_ok ∅.
Proof. intros k tag H. by rewrite lookup_empty in H. Qed.

Lemma C10_getTopTags_one_entry_per_id_witness :
  NoDup (entry_ids (getTopTags top_response idle_tags).2).
Proof.
  destruct (C10_getTopTags_one_entry_per_id top_response idle_tags)
    as (_ & _ & H & _); [exact cache_ok_empty | exact H].
Defined.

(** A response with a null, a repeated id and a malformed node: one entry
    for t1 (its second node is skipped), an [undefined] for the node
    without a name, one entry for t3. *)
Example getTopTags_example :
  (getTopTags top_response idle_tags).2 =
  [Some tag_english; None;
   Some (mkTag (KStr "t3") (KStr "t3") (Some false) (Some false) None
               "speedrun" None (Some "Speedrun") None)].
Proof. by vm_compute. Qed.

(** ** The keys in flight stay pending (users and streams) *)

Lemma NoDup_reg_register (k : JKey) (w : Waiter) (r : Registry) :
  NoDup (reg_keys r) → NoDup (reg_keys (reg_register k w r)).
Proof.
  intros H. rewrite reg_keys_register. unfold reg_has.
  destruct (reg_get k r) eqn:E; [done|].
  apply NoDup_app. split; [done|]. split; [|apply NoDup_singleton].
  intros x Hx ->%list_elem_of_singleton. by apply reg_get_None in E.
Qed.

Lemma reg_keys_register_mono (k k' : JKey) (w : Waiter) (r : Registry) :
  k ∈ reg_keys r → k ∈ reg_keys (reg_register k' w r).
Proof.
  intros H. rewrite reg_keys_register. destruct (reg_has k' r); [done|].
  apply elem_of_app. by left.
Qed.

Lemma NoDup_fulfil_key (v : Value) (k : JKey) (r : Registry) :
  NoDup (reg_keys r) → NoDup (reg_keys (fulfil_key v k r).1).
Proof. intros H. rewrite fulfil_key_keys. by apply NoDup_set_delete. Qed.

Lemma NoDup_fulfil_null (keys : list JKey) (r : Registry) :
  NoDup (reg_keys r) → NoDup (reg_keys (fulfil_null keys r).1).
Proof.
  revert r. induction keys as [|k ks IH]; intros r H; [done|].
  cbn [fulfil_null]. pose proof (NoDup_fulfil_key VNull k r H) as H1.
  destruct (fulfil_key VNull k r) as [r1 e1]. specialize (IH r1 H1).
  by destruct (fulfil_null ks r1).
Qed.

Lemma NoDup_process_nodes (payload : Node → Value) (ns : list (option Node))
    (f : Fanout) :
  NoDup (reg_keys (f_ids f)) → NoDup (reg_keys (f_logins f)) →
  NoDup (reg_keys (f_ids (process_nodes payload ns f).1)) ∧
  NoDup (reg_keys (f_logins (process_nodes payload ns f).1)).
Proof.
  revert f. induction ns as [|node ns IH]; intros f Hi Hl; [done|].
  cbn [process_nodes]. unfold process_node.
  destruct (valid_node node) as [[n id]|].
  - pose proof (NoDup_fulfil_key (payload n) id (f_ids f) Hi) as H1.
    destruct (fulfil_key (payload n) id (f_ids f)) as [ids e1].
    assert (NoDup (reg_keys
              (fulfil_login (payload n) (node_login n) (f_logins f)).1)) as H2.
    { destruct (node_login n); [by apply NoDup_fulfil_key | done]. }
    destruct (fulfil_login (payload n) (node_login n) (f_logins f)) as [logins e2].
    match goal with |- context [process_nodes payload ns ?g] =>
      specialize (IH g H1 H2); by destruct (process_nodes payload ns g) end.
  - specialize (IH f Hi Hl). by destruct (process_nodes payload ns f).
Qed.

Lemma NoDup_drain_strict (notify : Waiter → Event) (keys : list JKey)
    (r : Registry) :
  NoDup (reg_keys r) → NoDup (reg_keys (drain_strict notify keys r).1.1).
Proof.
  revert r. induction keys as [|k ks IH]; intros r H; [done|].
  cbn [drain_strict].
  assert (NoDup (reg_keys (reg_delete k r))) as Hd
    by (rewrite reg_keys_delete; by apply NoDup_set_delete).
  destruct (reg_get k r); [|done].
  specialize (IH _ Hd). by destruct (drain_strict notify ks (reg_delete k r)) as [[? ?] ?].
Qed.

Lemma sched_ok_idle : sched_ok idle_sched.
Proof. repeat split; try constructor; done. Qed.

Lemma sched_ok_load_begin (doc : Doc) (s : Sched) :
  sched_ok s → sched_ok (load_begin doc s).1.
Proof.
  intros (Hi & Hl & Hc). unfold load_begin. destruct (loading s); [done|].
  split; [done|]. split; [done|]. intros c [= <-].
  destruct (select_batch_NoDup s Hi Hl) as [? ?].
  destruct (select_batch_pending s) as [Hp1 Hp2].
  split; [done|]. split; [done|]. split; [exact Hp1 | exact Hp2].
Qed.

Lemma sched_ok_set_timer (b : bool) (s : Sched) :
  sched_ok s → sched_ok (set_timer b s).
Proof. done. Qed.

Lemma sched_ok_call_load (doc : Doc) (deb : bool) (s : Sched) :
  sched_ok s → sched_ok (call_load doc deb s).1.
Proof.
  intros H. unfold call_load. destruct deb; [done|]. by apply sched_ok_load_begin.
Qed.

Lemma sched_ok_timer_fire (doc : Doc) (s : Sched) :
  sched_ok s → sched_ok (timer_fire doc s).1.
Proof.
  intros H. unfold timer_fire. destruct (timer s); [|done].
  by apply sched_ok_load_begin.
Qed.

Lemma sched_ok_request (doc : Doc) (deb : bool) (w : Waiter)
    (id login : option JKey) (s : Sched) :
  sched_ok s → sched_ok (request doc deb w id login s).1.
Proof.
  intros (Hi & Hl & Hc). unfold request.
  assert (∀ s1 ev1, sched_ok s1 →
            sched_ok (if loading s1 then (s1, ev1)
                      else let '(s2, ev2) := call_load doc deb s1 in
                           (s2, ev1 ++ ev2)).1) as Hrest.
  { intros s1 ev1 H1. destruct (loading s1); [done|].
    pose proof (sched_ok_call_load doc deb s1 H1).
    by destruct (call_load doc deb s1). }
  destruct (if_truthy id) as [i|]; [|destruct (if_truthy login) as [l|]];
    apply Hrest; [| |done].
  - split; [by apply NoDup_reg_register|]. split; [done|].
    intros c Hin. destruct (Hc c Hin) as (? & ? & Hp & ?).
    repeat split; try done. intros k Hk. by apply reg_keys_register_mono, Hp.
  - split; [done|]. split; [by apply NoDup_reg_register|].
    intros c Hin. destruct (Hc c Hin) as (? & ? & ? & Hp).
    repeat split; try done. intros k Hk. by apply reg_keys_register_mono, Hp.
Qed.

Lemma sched_ok_load_settle (doc : Doc) (payload : Node → Value) (deb : bool)
    (r : Result) (s : Sched) :
  sched_ok s → sched_ok (load_settle doc payload deb r s).1.1.
Proof.
  intros H. pose proof H as (Hi & Hl & Hc). unfold load_settle.
  destruct (inflight s) as [c|] eqn:Ein; [|exact H].
  destruct r as [err|nodes]; cbn [fst].
  - unfold load_failed, reject_selected.
    pose proof (NoDup_drain_strict (λ w, Reject w err) (c_ids c) _ Hi) as H1.
    pose proof (NoDup_drain_strict (λ w, Reject w err) (c_logins c) _ Hl) as H2.
    cbn [waiting_ids waiting_logins set_inflight] in *.
    destruct (drain_strict _ (c_ids c) (waiting_ids s)) as [[ids e1] [|]];
      cbn [fst] in *; [|done].
    destruct (drain_strict _ (c_logins c) (waiting_logins s)) as [[logins e2] c2].
    done.
  - unfold load_succeeded.
    set (f0 := mkFanout _ _ _ _).
    assert (NoDup (reg_keys (f_ids f0)) ∧ NoDup (reg_keys (f_logins f0)))
      as [Hf1 Hf2] by done.
    assert (∀ fe : Fanout * list Event,
              NoDup (reg_keys (f_ids fe.1)) → NoDup (reg_keys (f_logins fe.1)) →
              sched_ok
                (let '(f1, e1) := fe in
                 let '(ids, e2) := fulfil_null (f_id_set f1) (f_ids f1) in
                 let '(logins, e3) := fulfil_null (f_login_set f1) (f_logins f1) in
                 let s1 := set_loading false
                             (set_waiting_logins logins
                                (set_waiting_ids ids (set_inflight None s))) in
                 let '(s2, e4) :=
                   match ids, logins with
                   | [], [] => (s1, [])
                   | _, _ => call_load doc deb s1
                   end in
                 (s2, e1 ++ e2 ++ e3 ++ e4)).1) as Hgen.
    { intros [f1 e1] H1 H2. cbn [fst] in *.
      pose proof (NoDup_fulfil_null (f_id_set f1) (f_ids f1) H1) as H3.
      pose proof (NoDup_fulfil_null (f_login_set f1) (f_logins f1) H2) as H4.
      destruct (fulfil_null (f_id_set f1) (f_ids f1)) as [ids e2].
      destruct (fulfil_null (f_login_set f1) (f_logins f1)) as [logins e3].
      cbn [fst] in *.
      set (s1 := set_loading false _).
      assert (sched_ok s1) as Hs1 by done.
      pose proof (sched_ok_call_load doc deb s1 Hs1) as Hs2.
      destruct ids, logins; try done; by destruct (call_load doc deb s1). }
    destruct nodes as [ns|]; [|by apply (Hgen (f0, []))].
    destruct (NoDup_process_nodes payload ns f0 Hf1 Hf2) as [H1 H2].
    by apply (Hgen (process_nodes payload ns f0)).
Qed.

(** In every state the object can reach, both two-space schedulers satisfy
    the invariant. *)
Lemma sched_ok_step (a : Action) (d : TwitchData) :
  sched_ok (users d) → sched_ok (streams d) →
  sched_ok (users (step a d).1) ∧ sched_ok (streams (step a d).1).
Proof.
  intros Hu Hs. destruct a; cbn [step].
  - pose proof (sched_ok_request UserBulk users_debounced w id login _ Hu).
    unfold getUserBasic. by destruct (request _ _ _ _ _ _).
  - pose proof (sched_ok_load_settle UserBulk user_payload users_debounced r _ Hu).
    unfold _loadUsers_settle. by destruct (load_settle _ _ _ _ _) as [[? ?] ?].
  - pose proof (sched_ok_request StreamFetch streams_debounced w id login _ Hs).
    unfold getStreamMeta. by destruct (request _ _ _ _ _ _).
  - pose proof (sched_ok_timer_fire StreamFetch _ Hs).
    unfold _loadStreams_timer. by destruct (timer_fire _ _).
  - pose proof (sched_ok_load_settle StreamFetch stream_payload streams_debounced r _ Hs).
    unfold _loadStreams_settle. by destruct (load_settle _ _ _ _ _) as [[? ?] ?].
  - by destruct (getTag _ _ _ _).
  - by destruct (tags_timer_fire _).
  - by destruct (loadTags_settle _ _) as [[? ?] ?].
  - by destruct (memorizeTag _ _ _) as [[? ?] ?].
  - by destruct (getTopTags _ _) as [[? ?] ?].
Qed.

Lemma sched_ok_run (acts : list Action) (d : TwitchData) :
  sched_ok (users d) → sched_ok (streams d) →
  sched_ok (users (run acts d).1) ∧ sched_ok (streams (run acts d).1).
Proof.
  revert d. induction acts as [|a acts IH]; intros d Hu Hs; [done|].
  cbn [run]. destruct (sched_ok_step a d Hu Hs) as [Hu1 Hs1].
  destruct (step a d) as [d1 e1]. specialize (IH d1 Hu1 Hs1).
  by destruct (run acts d1).
Qed.

(** A users or streams cycle that fails, in a state where the selected keys
    are still pending (every reachable state): the [catch] block runs to its
    end, every waiter of every selected key is rejected with the error of
    the transport, the selected keys are removed and the others keep their
    waiters. *)
Lemma load_settle_failure (doc : Doc) (payload : Node → Value) (deb : bool)
    (c : Cycle) (err : Err) (s : Sched) :
  sched_ok s → inflight s = Some c →
  let r := load_settle doc payload deb (Failed err) s in
  r.2 = Returned ∧
  r.1.2 = concat (map (λ k, reject_all err (default [] (reg_get k (waiting_ids s))))
                      (c_ids c)) ++
          concat (map (λ k, reject_all err (default [] (reg_get k (waiting_logins s))))
                      (c_logins c)) ∧
  (∀ k, reg_get k (waiting_ids r.1.1) =
        if decide (k ∈ c_ids c) then None else reg_get k (waiting_ids s)) ∧
  (∀ k, reg_get k (waiting_logins r.1.1) =
        if decide (k ∈ c_logins c) then None else reg_get k (waiting_logins s)).
Proof.
  intros (Hi & Hl & Hc) Hin. destruct (Hc c Hin) as (Hni & Hnl & Hpi & Hpl).
  cbv zeta. unfold load_settle. rewrite Hin. unfold load_failed, reject_selected.
  cbn [waiting_ids waiting_logins set_inflight].
  destruct (drain_strict_present (λ w, Reject w err) (c_ids c) (waiting_ids s)
              Hni Hpi) as (Hc1 & E1 & G1).
  destruct (drain_strict_present (λ w, Reject w err) (c_logins c)
              (waiting_logins s) Hnl Hpl) as (Hc2 & E2 & G2).
  destruct (drain_strict _ (c_ids c) (waiting_ids s)) as [[ids e1] c1].
  destruct (drain_strict _ (c_logins c) (waiting_logins s)) as [[logins e2] c2].
  cbn [fst snd] in *. subst c1 c2. cbn [fst snd]. by rewrite E1, E2.
Qed.

(** The same for a tags cycle, when its ids are still pending; the cache is
    not touched by a failed cycle in any case. *)
Lemma loadTags_settle_failure (ids : list JKey) (err : Err) (t : TagStore) :
  inflight_tags t = Some ids →
  let r := loadTags_settle (TagsFailed err) t in
  tag_cache r.1.1 = tag_cache t ∧
  (∀ k, k ∉ ids → reg_get k (_waiting_tags r.1.1) = reg_get k (_waiting_tags t)) ∧
  (NoDup ids → (∀ k, k ∈ ids → k ∈ reg_keys (_waiting_tags t)) →
   r.2 = Returned ∧
   r.1.2 = concat (map (λ k, reject_all err
                               (default [] (reg_get k (_waiting_tags t)))) ids) ∧
   ∀ k, k ∈ ids → reg_get k (_waiting_tags r.1.1) = None).
Proof.
  intros Hin. cbv zeta. unfold loadTags_settle. rewrite Hin.
  unfold reject_selected. cbn [_waiting_tags set_inflight_tags].
  pose proof (drain_strict_frame (λ w, Reject w err) ids (_waiting_tags t)) as Hfr.
  pose proof (drain_strict_present (λ w, Reject w err) ids (_waiting_tags t)) as Hp.
  destruct (drain_strict _ ids (_waiting_tags t)) as [[w ev] c].
  cbn [fst snd] in *. split; [done|]. split; [exact Hfr|].
  intros Hnd Hpend. destruct (Hp Hnd Hpend) as (-> & -> & Hg).
  split; [done|]. split; [done|]. intros k Hk. rewrite Hg.
  by rewrite decide_True.
Qed.

(** ** One debounce window of stream lookups *)

Lemma run_app (a b : list Action) (d : TwitchData) :
  run (a ++ b) d =
  ((run b (run a d).1).1, (run a d).2 ++ (run b (run a d).1).2).
Proof.
  revert d. induction a as [|x a IH]; intros d.
  - cbn. by destruct (run b d).
  - cbn [run app]. destruct (step x d) as [d1 e1]. rewrite IH.
    destruct (run a d1) as [d2 e2]. cbn [fst snd].
    by rewrite app_assoc.
Qed.

Lemma queries_app (e1 e2 : list Event) :
  queries (e1 ++ e2) = queries e1 ++ queries e2.
Proof. apply List.filter_app. Qed.

(** A lookup on a debounced scheduler that is not running a cycle arms the
    timer and makes no query. *)
Lemma request_debounced (doc : Doc) (w : Waiter) (id login : option JKey)
    (s : Sched) :
  loading s = false →
  let r := request doc true w id login s in
  loading r.1 = false ∧ inflight r.1 = inflight s ∧ timer r.1 = true ∧
  queries r.2 = [].
Proof.
  intros Hl. cbv zeta. unfold request, call_load.
  destruct (if_truthy id) as [i|]; [|destruct (if_truthy login) as [l|]];
    cbn [loading set_waiting_ids set_waiting_logins]; by rewrite Hl.
Qed.

Lemma stream_calls_window (calls : list Action) (d : TwitchData) :
  forallb is_stream_call calls = true →
  loading (streams d) = false →
  loading (streams (run calls d).1) = false ∧
  inflight (streams (run calls d).1) = inflight (streams d) ∧
  (calls ≠ [] ∨ timer (streams d) = true →
   timer (streams (run calls d).1) = true) ∧
  queries (run calls d).2 = [].
Proof.
  revert d. induction calls as [|a calls IH]; intros d Hall Hl.
  { cbn. split; [done|]. split; [done|]. split; [|done]. by intros [?|?]. }
  cbn [forallb] in Hall. apply andb_prop in Hall as [Ha Hall].
  destruct a; try done. cbn [run step]. unfold getStreamMeta, streams_debounced.
  pose proof (request_debounced StreamFetch w id login (streams d) Hl)
    as (H1 & H2 & H3 & H4).
  destruct (request StreamFetch true w id login (streams d))
    as [s1 e1]. cbn [fst snd] in *.
  specialize (IH (mkTwitchData (users d) s1 (tags d)) Hall H1).
  destruct IH as (I1 & I2 & I3 & I4).
  destruct (run calls (mkTwitchData (users d) s1 (tags d))) as [d2 e2].
  cbn [fst snd streams] in *. split; [done|]. split; [congruence|].
  split; [|by rewrite queries_app, H4, I4].
  intros _. apply I3. by right.
Qed.

(** The sibling of [getUserBasic]: however many stream lookups are made
    within one debounce window on an object that is running no streams
    cycle, exactly one query is made when the timer fires, and it carries
    the batch selected from everything the window registered. *)
Lemma streams_window_one_query (calls : list Action) (d : TwitchData) :
  forallb is_stream_call calls = true → calls ≠ [] →
  loading (streams d) = false →
  queries (run (calls ++ [StreamsTimerFires]) d).2 =
  [Query StreamFetch
     (or_null (c_ids (select_batch (streams (run calls d).1))))
     (or_null (c_logins (select_batch (streams (run calls d).1))))].
Proof.
  intros Hall Hne Hl. rewrite run_app. cbn [snd].
  destruct (stream_calls_window calls d Hall Hl) as (H1 & _ & H3 & H4).
  specialize (H3 (or_introl Hne)). rewrite queries_app, H4. cbn [app run step].
  unfold _loadStreams_timer, timer_fire. rewrite H3.
  rewrite load_begin_idle by done. cbn [fst snd]. by rewrite app_nil_r.
Qed.

(** The first lookup of a burst on an idle users scheduler is sent at once
    and alone. *)
Lemma users_first_lookup_alone (w : Waiter) (k : JKey) :
  truthy k = true →
  getUserBasic w (Some k) None idle_sched =
  (mkSched [(k, [w])] [] true (Some (mkCycle [k] [])) false,
   [Query UserBulk (Some [k]) None]).
Proof.
  intros Hk. unfold getUserBasic, request. cbn [if_truthy]. rewrite Hk.
  reflexivity.
Qed.

(** ** Every cached record sits under its own id *)

Lemma cache_ok_memorizeTag (node : option TagNode) (dispatch : bool)
    (t : TagStore) :
  cache_ok (tag_cache t) → cache_ok (tag_cache (memorizeTag node dispatch t).1.1).
Proof.
  intros H. destruct node as [n|]; [|done].
  by destruct (memorizeTag_entry n dispatch t H) as (_ & ? & _).
Qed.

Lemma cache_ok_loadTags_nodes (ns : list (option TagNode)) (ids : list JKey)
    (t : TagStore) :
  cache_ok (tag_cache t) →
  cache_ok (tag_cache (loadTags_nodes ns ids t).1.1.1).
Proof.
  revert ids t. induction ns as [|node ns IH]; intros ids t H; [done|].
  cbn [loadTags_nodes].
  pose proof (cache_ok_memorizeTag node false t H) as H1.
  destruct (memorizeTag node false t) as [[t1 e0] [tag|]]; [|done].
  cbn [fst] in H1.
  match goal with |- context [loadTags_nodes ns ?i ?t2] =>
    specialize (IH i t2 H1); by destruct (loadTags_nodes ns i t2) as [[[? ?] ?] ?]
  end.
Qed.

Lemma cache_ok_loadTags_settle (r : TagResult) (t : TagStore) :
  cache_ok (tag_cache t) → cache_ok (tag_cache (loadTags_settle r t).1.1).
Proof.
  intros H. unfold loadTags_settle. destruct (inflight_tags t) as [ids|]; [|done].
  destruct r as [err|nodes].
  - by destruct (reject_selected err ids _) as [[? ?] ?].
  - assert (cache_ok (tag_cache
      (match nodes with
       | Some ns => loadTags_nodes ns ids (set_inflight_tags None t)
       | None => (set_inflight_tags None t, ids, [], Returned)
       end).1.1.1)) as H1.
    { destruct nodes as [ns|]; [|done]. by apply cache_ok_loadTags_nodes. }
    destruct (match nodes with Some ns => _ | None => _ end)
      as [[[t1 id_set] e1] [|]]; [|done].
    cbn [fst] in H1.
    destruct (drain_strict _ id_set (_waiting_tags t1)) as [[w e2] [|]]; [|done].
    by destruct w.
Qed.

Lemma cache_ok_getTopTags (nodes : option (list (option TagNode))) (t : TagStore) :
  cache_ok (tag_cache t) → cache_ok (tag_cache (getTopTags nodes t).1.1).
Proof.
  intros H. destruct nodes as [ns|]; [|done].
  by destruct (topTags_nodes_spec ns ∅ t H) as (? & _).
Qed.

Lemma cache_ok_getTag (w : Waiter) (id : JKey) (want : bool) (t : TagStore) :
  tag_cache (getTag w id want t).1 = tag_cache t.
Proof.
  unfold getTag.
  destruct (tag_cache t !! id) as [out|];
    [destruct (truthy_str (tag_description out) || negb want); [done|]|];
    (destruct (reg_has id (_waiting_tags t)); [done|]);
    cbn [fst _loading_tags set_waiting_tags]; by destruct (_loading_tags t).
Qed.

Lemma cache_ok_step (a : Action) (d : TwitchData) :
  cache_ok (tag_cache (tags d)) → cache_ok (tag_cache (tags (step a d).1)).
Proof.
  intros H. destruct a; cbn [step].
  - by destruct (getUserBasic _ _ _ _).
  - by destruct (_loadUsers_settle _ _) as [[? ?] ?].
  - by destruct (getStreamMeta _ _ _ _).
  - by destruct (_loadStreams_timer _).
  - by destruct (_loadStreams_settle _ _) as [[? ?] ?].
  - pose proof (cache_ok_getTag w id want_description (tags d)) as Hg.
    destruct (getTag _ _ _ _). cbn [fst tags] in *. by rewrite Hg.
  - unfold tags_timer_fire, loadTags_begin.
    destruct (timer_tags (tags d)); [|done]. cbn [_loading_tags set_timer_tags].
    by destruct (_loading_tags (tags d)).
  - pose proof (cache_ok_loadTags_settle r (tags d) H).
    by destruct (loadTags_settle _ _) as [[? ?] ?].
  - pose proof (cache_ok_memorizeTag node dispatch (tags d) H).
    by destruct (memorizeTag _ _ _) as [[? ?] ?].
  - pose proof (cache_ok_getTopTags nodes (tags d) H).
    by destruct (getTopTags _ _) as [[? ?] ?].
Qed.

(** The invariant holds in every state a fresh object can reach. *)
Lemma cache_ok_run (acts : list Action) (d : TwitchData) :
  cache_ok (tag_cache (tags d)) → cache_ok (tag_cache (tags (run acts d).1)).
Proof.
  revert d. induction acts as [|a acts IH]; intros d H; [done|].
  cbn [run]. pose proof (cache_ok_step a d H) as H1.
  destruct (step a d) as [d1 e1]. specialize (IH d1 H1).
  by destruct (run acts d1).
Qed.

Lemma sched_ok_example : sched_ok example_sched.
Proof.
  split; [|split].
  - by apply (bool_decide_unpack _).
  - by apply (bool_decide_unpack _).
  - intros c [= <-]. split; [by apply (bool_decide_unpack _)|].
    split; [by apply (bool_decide_unpack _)|]. split; intros k Hk; exact Hk.
Qed.

Lemma load_settle_failure_witness :
  _loadUsers_settle (Failed "network down") example_sched =
  (mkSched [] [] true None false,
   [Reject 0 "network down"; Reject 1 "network down"; Reject 2 "network down"],
   Returned) ∧
  (_loadUsers_settle (Failed "network down") example_sched).1.2 =
  [Reject 0 "network down"; Reject 1 "network down"; Reject 2 "network down"].
Proof.
  split; [reflexivity|].
  destruct (load_settle_failure UserBulk user_payload users_debounced
              example_cycle "network down" example_sched sched_ok_example eq_refl)
    as (_ & H & _).
  exact H.
Defined.

Lemma streams_window_one_query_witness :
  queries (run (stream_calls 3 ++ [StreamsTimerFires]) fresh).2 =
  [Query StreamFetch (Some [KNum 1; KNum 2; KNum 3]) None].
Proof.
  exact (streams_window_one_query (stream_calls 3) fresh eq_refl
           (λ H, eq_ind (stream_calls 3)
                   (λ l, match l with [] => False | _ => True end) I [] H)
           eq_refl).
Defined.

(** * Further properties *)

(** ** What [memorizeTag] stores *)

Lemma if_truthy_Some (k : option JKey) (id : JKey) :
  if_truthy k = Some id → k = Some id ∧ truthy id = true.
Proof.
  unfold if_truthy. destruct k as [k'|]; [|done].
  destruct (truthy k') eqn:E; [|done]. by intros [= <-].
Qed.

Lemma if_truthy_str_Some (s : option string) (x : string) :
  if_truthy_str s = Some x → s = Some x ∧ x ≠ EmptyString ∧ truthy_str s = true.
Proof.
  unfold if_truthy_str, truthy_str. destruct s as [s'|]; [|done].
  destruct (bool_decide (s' = EmptyString)) eqn:E; [done|].
  intros [= <-]. by apply bool_decide_eq_false in E.
Qed.

(** The record stored for a well-formed node: the cached record of its id,
    or a new one, with the label of the node and, when the node has one, its
    description. *)
Lemma memorizeTag_stored (n : TagNode) (dispatch : bool) (t : TagStore)
    (tag : Tag) :
  (memorizeTag (Some n) dispatch t).2 = Some tag →
  ∃ id name,
    tn_id n = Some id ∧ truthy id = true ∧
    tn_tagName n = Some name ∧ name ≠ EmptyString ∧
    truthy_str (tn_localizedName n) = true ∧
    tag_cache (memorizeTag (Some n) dispatch t).1.1 = <[id := tag]> (tag_cache t) ∧
    tag = (if truthy_str (tn_localizedDescription n)
           then set_description (tn_localizedDescription n)
           else λ x, x)
            (set_label (tn_localizedName n)
               (default (new_tag n id name) (tag_cache t !! id))).
Proof.
  intros Hres.
  pose proof (memorizeTag_cache (Some n) dispatch t) as Hc.
  pose proof (memorizeTag_result (Some n) dispatch t) as Hr.
  rewrite Hres in Hc, Hr. cbv beta iota zeta in Hr.
  destruct Hc as (n' & id & [= <-] & Hid & Hc). rewrite Hid in Hr.
  destruct (if_truthy_str (tn_tagName n)) as [name|] eqn:En; [|done].
  destruct (if_truthy_str (tn_localizedName n)) as [lname|] eqn:El; [|done].
  apply if_truthy_Some in Hid as [Hid Ht].
  apply if_truthy_str_Some in En as (En & Hne & _).
  apply if_truthy_str_Some in El as (_ & _ & Hl).
  exists id, name. repeat (split; [done|]).
  injection Hr as ->. by destruct (truthy_str (tn_localizedDescription n)).
Qed.

Lemma tag_extends_refl (tag : Tag) : tag_extends tag tag.
Proof. by repeat split. Qed.

Lemma tag_extends_trans (a b c : Tag) :
  tag_extends a b → tag_extends b c → tag_extends a c.
Proof.
  intros (A1 & A2 & A3 & A4 & A5 & A6 & A7 & A8 & A9)
         (B1 & B2 & B3 & B4 & B5 & B6 & B7 & B8 & B9).
  repeat split; try congruence; auto.
Qed.

Lemma memorizeTag_cache_wf (node : option TagNode) (dispatch : bool)
    (t : TagStore) :
  cache_wf (tag_cache t) →
  cache_wf (tag_cache (memorizeTag node dispatch t).1.1).
Proof.
  intros Hwf. destruct node as [n|]; [|done].
  destruct (memorizeTag (Some n) dispatch t).2 as [tag|] eqn:Hres.
  - destruct (memorizeTag_stored n dispatch t tag Hres)
      as (id & name & Hid & Ht & Hn & Hne & Hl & Hc & Htag).
    rewrite Hc. intros k tag' Hk.
    destruct (decide (id = k)) as [<-|Hnk];
      [|rewrite lookup_insert_ne in Hk by done; by apply Hwf].
    rewrite lookup_insert_eq in Hk. injection Hk as <-.
    assert (tag_wf id (set_label (tn_localizedName n)
                         (default (new_tag n id name) (tag_cache t !! id))))
      as (W1 & W2 & W3 & W4 & W5 & W6 & W7).
    { destruct (tag_cache t !! id) as [c|] eqn:Ec; cbn [default].
      - destruct (Hwf id c Ec) as (W1 & W2 & W3 & W4 & W5 & W6 & W7).
        by repeat split.
      - unfold tag_wf, new_tag, set_label, language_of. cbn.
        repeat split; try done. by left. }
    subst tag. destruct (truthy_str (tn_localizedDescription n)) eqn:Ed;
      [|by repeat split].
    unfold tag_wf, set_description, language_of in *. cbn in *.
    repeat split; try done. by right.
  - by rewrite (memorizeTag_malformed _ _ _ Hres).
Qed.

Lemma memorizeTag_keeps_tag (id : JKey) (tag : Tag) (node : option TagNode)
    (dispatch : bool) (t : TagStore) :
  keeps_tag id tag (tag_cache t) →
  keeps_tag id tag (tag_cache (memorizeTag node dispatch t).1.1).
Proof.
  intros (tag1 & Hk & Hext). destruct node as [n|]; [|by exists tag1].
  destruct (memorizeTag (Some n) dispatch t).2 as [tag2|] eqn:Hres.
  - destruct (memorizeTag_stored n dispatch t tag2 Hres)
      as (id' & name & Hid & Ht & Hn & Hne & Hl & Hc & Htag).
    rewrite Hc. unfold keeps_tag. destruct (decide (id' = id)) as [->|Hnk];
      [|rewrite lookup_insert_ne by done; by exists tag1].
    rewrite lookup_insert_eq. exists tag2. split; [done|].
    eapply tag_extends_trans; [exact Hext|].
    rewrite Hk in Htag. cbn [default] in Htag. subst tag2.
    destruct (truthy_str (tn_localizedDescription n)) eqn:Ed;
      unfold tag_extends, set_description, set_label; cbn;
      repeat split; try done.
  - rewrite (memorizeTag_malformed _ _ _ Hres). by exists tag1.
Qed.

(** ** Properties of the cache kept by every operation

    Every write to the cache goes through [memorizeTag]; a property of the
    cache that [memorizeTag] keeps is kept by every method and along every
    run. *)
Section CacheInvariant.

Variable P : gmap JKey Tag → Prop.
Hypothesis P_memorizeTag : ∀ node dispatch t,
  P (tag_cache t) → P (tag_cache (memorizeTag node dispatch t).1.1).

Lemma inv_loadTags_nodes (ns : list (option TagNode)) (ids : list JKey)
    (t : TagStore) :
  P (tag_cache t) → P (tag_cache (loadTags_nodes ns ids t).1.1.1).
Proof.
  revert ids t. induction ns as [|node ns IH]; intros ids t H; [done|].
  cbn [loadTags_nodes].
  pose proof (P_memorizeTag node false t H) as H1.
  destruct (memorizeTag node false t) as [[t1 e0] [tag|]]; [|done].
  cbn [fst] in H1.
  match goal with |- context [loadTags_nodes ns ?i ?t2] =>
    specialize (IH i t2 H1); by destruct (loadTags_nodes ns i t2) as [[[? ?] ?] ?]
  end.
Qed.

Lemma inv_loadTags_settle (r : TagResult) (t : TagStore) :
  P (tag_cache t) → P (tag_cache (loadTags_settle r t).1.1).
Proof.
  intros H. unfold loadTags_settle. destruct (inflight_tags t) as [ids|]; [|done].
  destruct r as [err|nodes].
  - by destruct (reject_selected err ids _) as [[? ?] ?].
  - assert (P (tag_cache
      (match nodes with
       | Some ns => loadTags_nodes ns ids (set_inflight_tags None t)
       | None => (set_inflight_tags None t, ids, [], Returned)
       end).1.1.1)) as H1.
    { destruct nodes as [ns|]; [|done]. by apply inv_loadTags_nodes. }
    destruct (match nodes with Some ns => _ | None => _ end)
      as [[[t1 id_set] e1] [|]]; [|done].
    cbn [fst] in H1.
    destruct (drain_strict _ id_set (_waiting_tags t1)) as [[w e2] [|]]; [|done].
    by destruct w.
Qed.

Lemma inv_topTags_nodes (ns : list (option TagNode))
    (seen : gset (option JKey)) (t : TagStore) :
  P (tag_cache t) → P (tag_cache (topTags_nodes ns seen t).1.1).
Proof.
  revert seen t. induction ns as [|[n|] ns IH]; intros seen t H; [done| |].
  - cbn [topTags_nodes]. destruct (bool_decide (tn_id n ∈ seen)); [by apply IH|].
    pose proof (P_memorizeTag (Some n) true t H) as H1.
    destruct (memorizeTag (Some n) true t) as [[t1 e1] tag]. cbn [fst] in H1.
    specialize (IH ({[tn_id n]} ∪ seen) t1 H1).
    by destruct (topTags_nodes ns ({[tn_id n]} ∪ seen) t1) as [[? ?] ?].
  - cbn [topTags_nodes]. by apply IH.
Qed.

Lemma inv_matchingTags_nodes (ns : list (option TagNode)) (t : TagStore) :
  P (tag_cache t) → P (tag_cache (matchingTags_nodes ns t).1.1).
Proof.
  revert t. induction ns as [|node ns IH]; intros t H; [done|].
  cbn [matchingTags_nodes].
  pose proof (P_memorizeTag node true t H) as H1.
  destruct (memorizeTag node true t) as [[t1 e1] tag]. cbn [fst] in H1.
  specialize (IH t1 H1). by destruct (matchingTags_nodes ns t1) as [[? ?] ?].
Qed.

Lemma inv_step (a : Action) (d : TwitchData) :
  P (tag_cache (tags d)) → P (tag_cache (tags (step a d).1)).
Proof.
  intros H. destruct a; cbn [step].
  - by destruct (getUserBasic _ _ _ _).
  - by destruct (_loadUsers_settle _ _) as [[? ?] ?].
  - by destruct (getStreamMeta _ _ _ _).
  - by destruct (_loadStreams_timer _).
  - by destruct (_loadStreams_settle _ _) as [[? ?] ?].
  - pose proof (cache_ok_getTag w id want_description (tags d)) as Hg.
    destruct (getTag _ _ _ _). cbn [fst tags] in *. by rewrite Hg.
  - unfold tags_timer_fire, loadTags_begin.
    destruct (timer_tags (tags d)); [|done]. cbn [_loading_tags set_timer_tags].
    by destruct (_loading_tags (tags d)).
  - pose proof (inv_loadTags_settle r (tags d) H).
    by destruct (loadTags_settle _ _) as [[? ?] ?].
  - pose proof (P_memorizeTag node dispatch (tags d) H).
    by destruct (memorizeTag _ _ _) as [[? ?] ?].
  - assert (P (tag_cache (getTopTags nodes (tags d)).1.1)) as H1.
    { destruct nodes as [ns|]; [|done]. by apply inv_topTags_nodes. }
    by destruct (getTopTags _ _) as [[? ?] ?].
Qed.

Lemma inv_run (acts : list Action) (d : TwitchData) :
  P (tag_cache (tags d)) → P (tag_cache (tags (run acts d).1)).
Proof.
  revert d. induction acts as [|a acts IH]; intros d H; [done|].
  cbn [run]. pose proof (inv_step a d H) as H1.
  destruct (step a d) as [d1 e1]. specialize (IH d1 H1).
  by destruct (run acts d1).
Qed.

End CacheInvariant.

(** Every record in the cache of an object that started fresh is well
    formed, whatever was done to the object, and it still is after a
    [getMatchingTags]. *)
Theorem cached_tags_well_formed (acts : list Action)
    (nodes : option (list (option TagNode))) :
  cache_wf (tag_cache (tags (run acts fresh).1)) ∧
  cache_wf (tag_cache (getMatchingTags nodes (tags (run acts fresh).1)).1.1).
Proof.
  assert (cache_wf (tag_cache (tags (run acts fresh).1))) as H.
  { apply (inv_run cache_wf memorizeTag_cache_wf).
    intros k tag Hk. cbn in Hk. by rewrite lookup_empty in Hk. }
  split; [done|]. destruct nodes as [ns|]; [|done].
  by apply (inv_matchingTags_nodes cache_wf memorizeTag_cache_wf).
Qed.

(** A cached record is never removed and never loses anything: along every
    run its id, value, flags, language, name and scope stay what they were,
    and a label or a description it had is still there. *)
Theorem cached_tag_lifetime (acts : list Action) (d : TwitchData) (id : JKey)
    (tag : Tag) :
  tag_cache (tags d) !! id = Some tag →
  ∃ tag', tag_cache (tags (run acts d).1) !! id = Some tag' ∧
          tag_extends tag tag'.
Proof.
  intros H.
  apply (inv_run (keeps_tag id tag) (memorizeTag_keeps_tag id tag)).
  exists tag. split; [done | apply tag_extends_refl].
Qed.

Lemma cached_tag_lifetime_witness :
  ∃ tag', tag_cache (tags (run later_run english_cached).1) !! KStr "t1"
          = Some tag' ∧
          tag_extends tag_english tag'.
Proof.
  apply (cached_tag_lifetime later_run english_cached (KStr "t1") tag_english).
  by vm_compute.
Defined.

(** ** Eager reads and pending lookups *)

(** What [memorizeTag] does to the waiters and to the rest of the state. *)
Lemma memorizeTag_dispatch (n : TagNode) (dispatch : bool) (t : TagStore)
    (tag : Tag) :
  (memorizeTag (Some n) dispatch t).2 = Some tag →
  _loading_tags (memorizeTag (Some n) dispatch t).1.1 = _loading_tags t ∧
  inflight_tags (memorizeTag (Some n) dispatch t).1.1 = inflight_tags t ∧
  timer_tags (memorizeTag (Some n) dispatch t).1.1 = timer_tags t ∧
  if dispatch && truthy_str (tag_description tag)
  then (memorizeTag (Some n) dispatch t).1.2 =
         fulfil_all (VTag tag) (default [] (reg_get (tag_id tag) (_waiting_tags t))) ∧
       _waiting_tags (memorizeTag (Some n) dispatch t).1.1 =
         reg_delete (tag_id tag) (_waiting_tags t)
  else (memorizeTag (Some n) dispatch t).1.2 = [] ∧
       _waiting_tags (memorizeTag (Some n) dispatch t).1.1 = _waiting_tags t.
Proof.
  unfold memorizeTag.
  destruct (if_truthy (tn_id n)) as [id|]; [|done].
  destruct (if_truthy_str (tn_tagName n)) as [name|]; [|done].
  destruct (if_truthy_str (tn_localizedName n)) as [lname|]; [|done].
  cbv zeta.
  set (tag2 := if truthy_str (tn_localizedDescription n) then _ else _).
  cbn [_waiting_tags set_tag_cache].
  destruct (dispatch && truthy_str (tag_description tag2)) eqn:Ed.
  - destruct (reg_get (tag_id tag2) (_waiting_tags t)) as [ws|] eqn:Eg;
      cbn [fst snd]; intros [= <-]; rewrite Ed, Eg; cbn [default];
      repeat split; try done.
    by rewrite reg_delete_absent.
  - cbn [fst snd]. intros [= <-]. by rewrite Ed.
Qed.

(** A caller asks for the tag [id] with its description, which the cache
    cannot give; before the batch cycle runs, an eager read brings a
    well-formed node of [id] that has a description.  [memorizeTag] then
    fulfils every waiter on [id], the new caller last, with the complete
    record, removes the key and leaves the other keys alone; the cycle that
    [getTag] armed will not ask for [id]. *)
Theorem eager_read_serves_waiter (w : Waiter) (id : JKey) (n : TagNode)
    (t : TagStore) :
  cache_wf (tag_cache t) →
  tn_id n = Some id → well_formed n = true →
  truthy_str (tn_localizedDescription n) = true →
  (∀ out, tag_cache t !! id = Some out →
          truthy_str (tag_description out) = false) →
  let t1 := (getTag w id true t).1 in
  let r := memorizeTag (Some n) true t1 in
  ∃ tag,
    r.2 = Some tag ∧ tag_id tag = id ∧
    tag_description tag = tn_localizedDescription n ∧
    r.1.2 = fulfil_all (VTag tag)
              (default [] (reg_get id (_waiting_tags t)) ++ [w]) ∧
    reg_get id (_waiting_tags r.1.1) = None ∧
    (∀ k, k ≠ id →
       reg_get k (_waiting_tags r.1.1) = reg_get k (_waiting_tags t)) ∧
    ∀ ids, (tags_timer_fire r.1.1).2 = [Query TagsFetch (Some ids) None] →
           id ∉ ids.
Proof.
  intros Hwf Hid Hwell Hdesc Hlack. cbv zeta.
  (* the lookup registers *)
  assert (tag_cache (getTag w id true t).1 = tag_cache t ∧
          _waiting_tags (getTag w id true t).1 =
            reg_register id w (_waiting_tags t)) as [Hc1 Hw1].
  { unfold getTag, reg_register.
    destruct (tag_cache t !! id) as [out|] eqn:Ec.
    - rewrite (Hlack out eq_refl). cbn [orb negb].
      destruct (reg_has id (_waiting_tags t)); [done|].
      cbn [fst _loading_tags set_waiting_tags]. by destruct (_loading_tags t).
    - destruct (reg_has id (_waiting_tags t)); [done|].
      cbn [fst _loading_tags set_waiting_tags]. by destruct (_loading_tags t). }
  set (t1 := (getTag w id true t).1) in *.
  (* the node is stored *)
  destruct (memorizeTag (Some n) true t1).2 as [tag|] eqn:Hres.
  2: { exfalso. pose proof (memorizeTag_result (Some n) true t1) as Hr.
       rewrite Hres in Hr. cbv beta iota zeta in Hr.
       unfold well_formed in Hwell.
       apply andb_prop in Hwell as [Hwell H3]. apply andb_prop in Hwell as [H1 H2].
       unfold if_truthy, if_truthy_str, truthy_opt, truthy_str in *.
       destruct (tn_id n) as [k|]; [|done]. rewrite H1 in Hr.
       destruct (tn_tagName n) as [s|]; [|done].
       destruct (bool_decide (s = EmptyString)); [done|].
       destruct (tn_localizedName n) as [s'|]; [|done].
       by destruct (bool_decide (s' = EmptyString)). }
  destruct (memorizeTag_stored n true t1 tag Hres)
    as (id' & name & Hid' & Ht & Hn & Hne & Hl & Hc & Htag).
  rewrite Hid in Hid'. injection Hid' as <-.
  rewrite Hdesc in Htag.
  assert (tag_id tag = id ∧ tag_description tag = tn_localizedDescription n)
    as [Htid Htd].
  { subst tag. cbn. split; [|done]. rewrite Hc1.
    destruct (tag_cache t !! id) as [c|] eqn:Ec; cbn [default]; [|done].
    by destruct (Hwf id c Ec). }
  pose proof (memorizeTag_dispatch n true t1 tag Hres) as (_ & _ & _ & Hd).
  rewrite Htd, Hdesc in Hd. cbn [andb] in Hd. destruct Hd as [Hev Hwt].
  rewrite Htid, Hw1 in Hev, Hwt.
  pose proof (reg_get_register id id w (_waiting_tags t)) as Hreg.
  rewrite decide_True in Hreg by done. rewrite Hreg in Hev. cbn [default] in Hev.
  exists tag. split; [done|]. split; [done|]. split; [done|].
  split; [done|]. rewrite Hwt. split; [apply reg_get_delete_eq|].
  split.
  - intros k Hk. rewrite reg_get_delete_ne by done.
    rewrite reg_get_register. by rewrite decide_False.
  - assert (id ∉ reg_keys (_waiting_tags (memorizeTag (Some n) true t1).1.1))
      as Hout.
    { rewrite Hwt. intros Hin. apply reg_get_is_Some in Hin as [ws Hws].
      by rewrite reg_get_delete_eq in Hws. }
    revert Hout. clear.
    generalize (memorizeTag (Some n) true t1).1.1. intros t2 Hout ids.
    unfold tags_timer_fire, loadTags_begin.
    destruct (timer_tags t2); [|done].
    destruct t2 as [c2 w2 l2 i2 m2]. cbn in *.
    destruct l2; [done|]. intros [= <-].
    by intros Hin%subseteq_take.
Qed.

Lemma eager_read_serves_waiter_witness :
  (memorizeTag (Some node_english) true
     (getTag 7 (KStr "t1") true idle_tags).1).1.2 =
  [Fulfil 7 (VTag tag_english)].
Proof.
  destruct (eager_read_serves_waiter 7 (KStr "t1") node_english idle_tags)
    as (tag & Hres & _ & _ & Hev & _);
    [ intros k tg Hk; cbn in Hk; by rewrite lookup_empty in Hk
    | reflexivity | reflexivity | reflexivity
    | intros out Hk; cbn in Hk; by rewrite lookup_empty in Hk
    | ].
  injection Hres as <-. exact Hev.
Defined.

(** ** A successful tags cycle *)

Lemma drain_strict_notify (notify : Waiter → Event) (keys : list JKey)
    (r : Registry) :
  Forall (λ e, ∃ w, e = notify w) (drain_strict notify keys r).1.2.
Proof.
  revert r. induction keys as [|k ks IH]; intros r; [constructor|].
  cbn [drain_strict]. destruct (reg_get k r) as [ws|]; [|constructor].
  specialize (IH (reg_delete k r)).
  destruct (drain_strict notify ks (reg_delete k r)) as [[r' ev] c].
  cbn [fst snd] in *. rewrite Forall_app. split; [|done].
  apply Forall_forall. intros e (w & -> & _)%list_elem_of_fmap. by exists w.
Qed.

(** The loop over the nodes of a response whose nodes are all well formed:
    it runs to its end, stores every node, and hands every pending key that
    has a node to its waiters. *)
Lemma loadTags_nodes_ok (ns : list (option TagNode)) (id_set : list JKey)
    (t : TagStore) :
  nodes_well_formed ns = true → cache_ok (tag_cache t) →
  (loadTags_nodes ns id_set t).2 = Returned ∧
  _loading_tags (loadTags_nodes ns id_set t).1.1.1 = _loading_tags t ∧
  inflight_tags (loadTags_nodes ns id_set t).1.1.1 = inflight_tags t ∧
  timer_tags (loadTags_nodes ns id_set t).1.1.1 = timer_tags t ∧
  (∀ k, k ∈ (loadTags_nodes ns id_set t).1.1.2 ↔
        k ∈ id_set ∧ k ∉ tag_node_ids ns) ∧
  (NoDup id_set → NoDup (loadTags_nodes ns id_set t).1.1.2) ∧
  (∀ k, reg_get k (_waiting_tags (loadTags_nodes ns id_set t).1.1.1) =
        if decide (k ∈ tag_node_ids ns) then None
        else reg_get k (_waiting_tags t)) ∧
  (∀ k ws w, reg_get k (_waiting_tags t) = Some ws →
     k ∈ tag_node_ids ns → w ∈ ws →
     ∃ tag, Fulfil w (VTag tag) ∈ (loadTags_nodes ns id_set t).1.2 ∧
            tag_id tag = k ∧
            keeps_tag k tag (tag_cache (loadTags_nodes ns id_set t).1.1.1)) ∧
  Forall (λ e, is_reject e = false) (loadTags_nodes ns id_set t).1.2.
Proof.
  revert id_set t. induction ns as [|node ns IH]; intros id_set t Hwf Hok.
  - cbn. split; [done|]. split; [done|]. split; [done|]. split; [done|].
    split; [intros k; rewrite elem_of_nil; tauto|]. split; [done|].
    split; [done|]. split; [|constructor].
    intros k ws w _ Hk. by apply elem_of_nil in Hk.
  - cbn [nodes_well_formed forallb] in Hwf.
    apply andb_prop in Hwf as [Hn Hwf]. destruct node as [n|]; [|done].
    destruct (memorizeTag_entry n false t Hok) as (Hent & Hok1 & _ & Hlook).
    cbn [loadTags_nodes].
    destruct (memorizeTag (Some n) false t).2 as [tag|] eqn:Hres;
      [|cbn in Hent; congruence].
    destruct Hent as [_ Hid]. specialize (Hlook tag eq_refl).
    pose proof (memorizeTag_dispatch n false t tag Hres)
      as (Hfl & Hif & Htm & Hev & Hwt). cbn [andb] in Hev, Hwt.
    destruct (memorizeTag (Some n) false t) as [[t1 e0] o].
    cbn [fst snd] in *. subst o e0.
    set (t2 := set_waiting_tags (reg_delete (tag_id tag) (_waiting_tags t1)) t1).
    specialize (IH (set_delete (tag_id tag) id_set) t2 Hwf Hok1).
    pose proof (inv_loadTags_nodes (keeps_tag (tag_id tag) tag)
                  (memorizeTag_keeps_tag (tag_id tag) tag) ns
                  (set_delete (tag_id tag) id_set) t2) as Hkeep.
    destruct (loadTags_nodes ns (set_delete (tag_id tag) id_set) t2)
      as [[[t3 s3] e3] c].
    cbn [fst snd] in *.
    destruct IH as (Hc & Hl3 & Hi3 & Ht3 & Hset & Hnd & Hget & Hful & Hnr).
    assert (tag_node_ids (Some n :: ns) = tag_id tag :: tag_node_ids ns) as Hids.
    { unfold tag_node_ids. cbn. by rewrite Hid. }
    rewrite Hids. clear Hids.
    split; [done|]. split; [by rewrite Hl3|]. split; [by rewrite Hi3|].
    split; [by rewrite Ht3|]. split; [|split; [|split; [|split]]].
    + intros k. rewrite Hset, elem_of_set_delete, not_elem_of_cons. tauto.
    + intros H. by apply Hnd, NoDup_set_delete.
    + intros k. rewrite Hget. subst t2. cbn [_waiting_tags set_waiting_tags].
      rewrite Hwt, reg_get_delete.
      destruct (decide (k = tag_id tag)) as [->|Hne].
      * rewrite (decide_True (P := tag_id tag ∈ tag_id tag :: tag_node_ids ns))
          by apply list_elem_of_here.
        by destruct (decide (tag_id tag ∈ tag_node_ids ns)).
      * destruct (decide (k ∈ tag_node_ids ns)) as [Hi|Hi].
        -- by rewrite decide_True by by apply list_elem_of_further.
        -- rewrite decide_False; [done|]. rewrite elem_of_cons. tauto.
    + intros k ws w Hws Hk Hw.
      destruct (decide (k = tag_id tag)) as [->|Hne].
      * exists tag. split; [|split; [done|]].
        -- rewrite Hwt, Hws. cbn [app]. apply elem_of_app. left.
           unfold fulfil_all. apply list_elem_of_fmap. by exists w.
        -- apply Hkeep. exists tag. split; [exact Hlook|apply tag_extends_refl].
      * apply elem_of_cons in Hk as [Hk|Hk]; [done|].
        destruct (Hful k ws w) as (tg & Hin & Htg & Hk3); [|done|done|].
        { subst t2. cbn [_waiting_tags set_waiting_tags].
          by rewrite Hwt, reg_get_delete_ne. }
        exists tg. split; [|done]. cbn [app]. apply elem_of_app. by right.
    + cbn [app]. rewrite Forall_app. split; [|done].
      destruct (reg_get _ _); [apply fulfil_all_no_reject | constructor].
Qed.

(** When the query of a tags cycle succeeds in a state where the selected
    ids are still pending, and every node of the response is well formed,
    the cycle runs to its end and clears the flag.  Every waiter on a
    pending id that has a node in the response, selected or not, receives
    the record of that id (with or without the description it may have
    asked for); every waiter on a selected id without a node receives
    [null]; the other ids keep their waiters; nobody is rejected; and the
    method is called again (arming the timer) exactly when an id is still
    pending. *)
Theorem tags_cycle_success (nodes : option (list (option TagNode)))
    (ids : list JKey) (t : TagStore) :
  inflight_tags t = Some ids →
  NoDup ids → (∀ k, k ∈ ids → k ∈ reg_keys (_waiting_tags t)) →
  nodes_well_formed (default [] nodes) = true →
  cache_ok (tag_cache t) →
  let ns := default [] nodes in
  let r := loadTags_settle (TagsSucceeded nodes) t in
  r.2 = Returned ∧ _loading_tags r.1.1 = false ∧ inflight_tags r.1.1 = None ∧
  (∀ k ws, reg_get k (_waiting_tags t) = Some ws →
     if decide (k ∈ tag_node_ids ns)
     then (∀ w, w ∈ ws →
             ∃ tag, Fulfil w (VTag tag) ∈ r.1.2 ∧ tag_id tag = k ∧
                    keeps_tag k tag (tag_cache r.1.1)) ∧
          reg_get k (_waiting_tags r.1.1) = None
     else if decide (k ∈ ids)
     then (∀ w, w ∈ ws → Fulfil w VNull ∈ r.1.2) ∧
          reg_get k (_waiting_tags r.1.1) = None
     else reg_get k (_waiting_tags r.1.1) = Some ws) ∧
  Forall (λ e, is_reject e = false) r.1.2 ∧
  timer_tags r.1.1 =
    match _waiting_tags r.1.1 with [] => timer_tags t | _ => true end.
Proof.
  intros Hin Hnd Hpend Hwf Hok. cbv zeta.
  unfold loadTags_settle. rewrite Hin.
  set (t0 := set_inflight_tags None t).
  assert ((match nodes with
           | Some ns => loadTags_nodes ns ids t0
           | None => (t0, ids, [], Returned)
           end) = loadTags_nodes (default [] nodes) ids t0) as ->.
  { by destruct nodes. }
  set (ns := default [] nodes) in *.
  pose proof (loadTags_nodes_ok ns ids t0 Hwf Hok)
    as (Hc & Hl & Hi & Htm & Hset & Hnd1 & Hget & Hful & Hnr).
  change (_waiting_tags t0) with (_waiting_tags t) in Hget, Hful.
  change (timer_tags t0) with (timer_tags t) in Htm.
  destruct (loadTags_nodes ns ids t0) as [[[t1 id_set] e1] c1].
  cbn [fst snd] in *. subst c1. specialize (Hnd1 Hnd).
  assert (∀ k, k ∈ id_set → k ∈ reg_keys (_waiting_tags t1)) as Hp1.
  { intros k [Hk Hnk]%Hset. specialize (Hget k).
    rewrite decide_False in Hget by done.
    destruct (reg_get_is_Some k (_waiting_tags t) (Hpend k Hk)) as [ws Hws].
    rewrite Hws in Hget. by eapply reg_get_Some_key. }
  pose proof (drain_strict_present (λ w, Fulfil w VNull) id_set
                (_waiting_tags t1) Hnd1 Hp1) as (Hc2 & Hev2 & Hget2).
  pose proof (drain_strict_notify (λ w, Fulfil w VNull) id_set
                (_waiting_tags t1)) as Hnot.
  destruct (drain_strict _ id_set (_waiting_tags t1)) as [[w e2] c2].
  cbn [fst snd] in *. subst c2.
  assert (∀ X Y : TagStore,
            (match w with [] => X | _ :: _ => Y end, e1 ++ e2, Returned).1.1 =
            match w with [] => X | _ :: _ => Y end) as Hfst by done.
  split; [done|]. split; [by destruct w|]. split; [by destruct w|].
  split; [|split].
  - intros k ws Hws.
    assert (_waiting_tags (match w with
                           | [] => set_loading_tags false (set_waiting_tags w t1)
                           | _ :: _ =>
                               _loadTags (set_loading_tags false
                                            (set_waiting_tags w t1))
                           end) = w) as Hw by by destruct w.
    assert (tag_cache (match w with
                       | [] => set_loading_tags false (set_waiting_tags w t1)
                       | _ :: _ =>
                           _loadTags (set_loading_tags false
                                        (set_waiting_tags w t1))
                       end) = tag_cache t1) as Hca by by destruct w.
    cbn [fst snd]. rewrite Hw, Hca, Hget2, Hget.
    destruct (decide (k ∈ tag_node_ids ns)) as [Hk|Hk].
    + split; [|by destruct (decide (k ∈ id_set))].
      intros w' Hw'. destruct (Hful k ws w' Hws Hk Hw') as (tag & Hin' & Hid & Hkeep).
      exists tag. split; [|done]. apply elem_of_app. by left.
    + destruct (decide (k ∈ ids)) as [Hki|Hki].
      * assert (k ∈ id_set) as Hks by (apply Hset; done).
        rewrite decide_True by done. split; [|done].
        intros w' Hw'. apply elem_of_app. right. rewrite Hev2.
        apply list_elem_of_In, in_concat.
        exists (map (λ w, Fulfil w VNull) ws). split.
        -- apply in_map_iff. exists k. split; [|by apply list_elem_of_In].
           specialize (Hget k). rewrite decide_False in Hget by done.
           by rewrite Hget, Hws.
        -- apply in_map_iff. exists w'. split; [done|by apply list_elem_of_In].
      * rewrite decide_False; [done|]. intros [? _]%Hset. done.
  - cbn [fst snd]. rewrite Forall_app. split; [done|].
    eapply Forall_impl; [exact Hnot|]. by intros e [w' ->].
  - cbn [fst snd]. rewrite <- Htm. by destruct w.
Qed.

Lemma tags_cycle_success_witness :
  (loadTags_settle (TagsSucceeded (Some [Some node_english_bare]))
     tags_selected).2 = Returned ∧
  Fulfil 1 VNull ∈
    (loadTags_settle (TagsSucceeded (Some [Some node_english_bare]))
       tags_selected).1.2.
Proof.
  destruct (tags_cycle_success (Some [Some node_english_bare])
              [KStr "t1"; KStr "t2"] tags_selected)
    as (Hc & _ & _ & Hk & _);
    [ reflexivity
    | by apply (bool_decide_unpack _)
    | intros k Hk; exact Hk
    | reflexivity
    | exact (cache_ok_run tags_in_flight fresh cache_ok_empty)
    | ].
  split; [exact Hc|].
  specialize (Hk (KStr "t2") [1] eq_refl).
  rewrite decide_False in Hk;
    [|change (KStr "t2" ∉ [KStr "t1"]); by intros Hx%list_elem_of_singleton].
  rewrite decide_True in Hk;
    [|apply list_elem_of_further, list_elem_of_here].
  destruct Hk as [Hf _]. apply Hf, list_elem_of_here.
Defined.

(** ** Probing the cache *)

Lemma cache_wf_empty : cache_wf ∅.
Proof. intros k tag H. by rewrite lookup_empty in H. Qed.

Lemma cache_wf_ok (m : gmap JKey Tag) : cache_wf m → cache_ok m.
Proof. intros H k tag Hk. by destruct (H k tag Hk). Qed.

(** A lookup the cache cannot answer registers its waiter and fulfils
    nothing at once; it arms the timer when the key is new and no cycle
    runs. *)
Lemma getTag_registers (w : Waiter) (id : JKey) (want : bool) (t : TagStore) :
  cache_answers id want (tag_cache t) = false →
  (getTag w id want t).2 = [] ∧
  tag_cache (getTag w id want t).1 = tag_cache t ∧
  _waiting_tags (getTag w id want t).1 = reg_register id w (_waiting_tags t) ∧
  _loading_tags (getTag w id want t).1 = _loading_tags t ∧
  inflight_tags (getTag w id want t).1 = inflight_tags t ∧
  timer_tags (getTag w id want t).1 =
    timer_tags t || negb (reg_has id (_waiting_tags t)) && negb (_loading_tags t).
Proof.
  intros Hc.
  assert (getTag w id want t =
          if reg_has id (_waiting_tags t)
          then (set_waiting_tags (reg_push id w (_waiting_tags t)) t, [])
          else
            let t1 := set_waiting_tags (_waiting_tags t ++ [(id, [w])]) t in
            (if _loading_tags t1 then t1 else _loadTags t1, [])) as ->.
  { unfold getTag, cache_answers in *.
    destruct (tag_cache t !! id) as [out|]; [|done]. by rewrite Hc. }
  unfold reg_register.
  destruct t as [c r l i m]. cbn.
  destruct (reg_has id r); cbn; [by rewrite orb_false_r|].
  destruct l; cbn; [by rewrite orb_false_r | by rewrite orb_true_r].
Qed.

(** What [getTagImmediate] does, for every cache and every key. *)
Lemma getTagImmediate_spec (w : Waiter) (id : JKey) (cb want : bool)
    (t : TagStore) :
  (getTagImmediate w id cb want t).1.2 = tag_cache t !! id ∧
  (getTagImmediate w id cb want t).1.1.2 = [] ∧
  tag_cache (getTagImmediate w id cb want t).1.1.1 = tag_cache t ∧
  if cache_answers id want (tag_cache t) || negb (want || cb)
  then (getTagImmediate w id cb want t).1.1.1 = t ∧
       (getTagImmediate w id cb want t).2 = None
  else (getTagImmediate w id cb want t).1.1.1 = (getTag w id want t).1 ∧
       _waiting_tags (getTagImmediate w id cb want t).1.1.1 =
         reg_register id w (_waiting_tags t) ∧
       (getTagImmediate w id cb want t).2 = if cb then Some w else None.
Proof.
  unfold getTagImmediate. cbv zeta.
  destruct (cache_answers id want (tag_cache t)) eqn:Ea.
  - unfold cache_answers in Ea. cbn [orb].
    destruct (tag_cache t !! id) as [out|]; [|done].
    destruct (truthy_str (tag_description out)); cbn [negb andb orb] in *.
    + by rewrite andb_false_r.
    + destruct want; [done|]. done.
  - pose proof (getTag_registers w id want t Ea) as (He & Hc & Hw & _).
    cbn [orb].
    assert ((want &&
             match tag_cache t !! id with
             | Some o => negb (truthy_str (tag_description o))
             | None => true
             end
             || match tag_cache t !! id with
                | Some _ => false
                | None => true
                end && cb) = (want || cb)) as ->.
    { unfold cache_answers in Ea. destruct (tag_cache t !! id) as [out|].
      - apply orb_false_elim in Ea as [-> Hn]. apply negb_false_iff in Hn.
        subst want. done.
      - by rewrite andb_true_r. }
    destruct (want || cb); cbn [negb]; [|done].
    destruct (getTag w id want t) as [t1 ev]. cbn [fst snd] in *.
    by subst ev.
Qed.

(** [getTagImmediate] never blocks and never answers through a waiter at
    once: it returns what the cache holds for the key ([null] when nothing),
    calls no continuation and does not touch the cache.  When the cache can
    answer, or when neither a description nor a callback was asked for, it
    changes nothing at all (a miss then starts no fetch).  Otherwise it
    registers one waiter under the key, exactly as [getTag] does, and that
    waiter is the callback's only when a callback was passed. *)
Theorem getTagImmediate_probe (w : Waiter) (id : JKey) (cb want : bool)
    (t : TagStore) :
  let r := getTagImmediate w id cb want t in
  r.1.2 = tag_cache t !! id ∧ r.1.1.2 = [] ∧
  tag_cache r.1.1.1 = tag_cache t ∧
  if cache_answers id want (tag_cache t) || negb (want || cb)
  then r.1.1.1 = t ∧ r.2 = None
  else reg_get id (_waiting_tags r.1.1.1) =
         Some (default [] (reg_get id (_waiting_tags t)) ++ [w]) ∧
       (∀ k, k ≠ id →
          reg_get k (_waiting_tags r.1.1.1) = reg_get k (_waiting_tags t)) ∧
       (_loading_tags t = false → reg_has id (_waiting_tags t) = false →
        timer_tags r.1.1.1 = true) ∧
       r.2 = if cb then Some w else None.
Proof.
  cbv zeta.
  pose proof (getTagImmediate_spec w id cb want t) as (Hv & He & Hc & Hif).
  split; [done|]. split; [done|]. split; [done|].
  destruct (cache_answers id want (tag_cache t)) eqn:Ea; [done|].
  cbn [orb] in *. destruct (negb (want || cb)); [done|].
  destruct Hif as (Ht & Hw & Hs). split; [|split; [|split; [|done]]].
  - rewrite Hw, reg_get_register. by rewrite decide_True.
  - intros k Hk. rewrite Hw, reg_get_register. by rewrite decide_False.
  - intros Hl Hh. rewrite Ht.
    destruct (getTag_registers w id want t Ea) as (_ & _ & _ & _ & _ & ->).
    rewrite Hl, Hh. apply orb_true_r.
Qed.

(** ** Languages of a list of tags *)

Lemma languages_of_tags_spec (l : list JKey) (cb : bool) (w : Waiter)
    (t : TagStore) :
  (languages_of_tags l cb w t).1.2 =
    omap (λ k, language_of (tag_cache t !! k)) l ∧
  (languages_of_tags l cb w t).1.1.2 = [] ∧
  tag_cache (languages_of_tags l cb w t).1.1.1 = tag_cache t ∧
  (cb = false → (languages_of_tags l cb w t).1.1.1 = t) ∧
  length (languages_of_tags l cb w t).2 =
    (if cb then length (filter (λ k, tag_cache t !! k = None) l) else 0) ∧
  (∀ k, is_Some (reg_get k (_waiting_tags t)) →
        is_Some (reg_get k (_waiting_tags (languages_of_tags l cb w t).1.1.1))) ∧
  (cb = true → ∀ k, k ∈ l → tag_cache t !! k = None →
     is_Some (reg_get k (_waiting_tags (languages_of_tags l cb w t).1.1.1))).
Proof.
  revert w t. induction l as [|k l IH]; intros w t.
  - cbn. repeat (split; [done|]).
    split; [by destruct cb|]. split; [done|].
    intros _ k Hk. by apply elem_of_nil in Hk.
  - cbn [languages_of_tags].
    pose proof (getTagImmediate_spec w k cb false t) as (Hv & He & Hc & Hif).
    destruct (getTagImmediate w k cb false t) as [[[t1 e1] tag] sub].
    cbn [fst snd] in *. subst tag e1.
    specialize (IH (S w) t1).
    destruct (languages_of_tags l cb (S w) t1) as [[[t2 e2] out] subs].
    cbn [fst snd] in *.
    destruct IH as (Ho & Hev & Hca & Hsame & Hlen & Hmono & Hreg).
    rewrite Hc in Ho, Hca, Hlen, Hreg.
    assert (∀ k', is_Some (reg_get k' (_waiting_tags t)) →
                  is_Some (reg_get k' (_waiting_tags t1))) as Hm1.
    { intros k' Hk'. unfold cache_answers in Hif. cbn [orb negb] in Hif.
      destruct (_ || _) in Hif; [by destruct Hif as [-> _]|].
      destruct Hif as (_ & -> & _). rewrite reg_get_register.
      by destruct (decide (k' = k)). }
    split; [|split; [|split; [|split; [|split; [|split]]]]].
    + subst out. destruct (language_of (tag_cache t !! k)) eqn:El;
        cbn; by rewrite El.
    + by subst e2.
    + done.
    + intros ->. rewrite (Hsame eq_refl). cbn [orb negb] in Hif.
      rewrite orb_true_r in Hif. by destruct Hif.
    + rewrite length_app, Hlen, filter_cons. unfold cache_answers in Hif.
      destruct (tag_cache t !! k) as [o|] eqn:Ek.
      * rewrite decide_False by done. cbn [negb orb] in Hif.
        rewrite orb_true_r in Hif. destruct Hif as [_ ->]. by destruct cb.
      * rewrite decide_True by done. cbn [negb orb] in Hif.
        destruct cb; cbn [negb] in Hif.
        -- by destruct Hif as (_ & _ & ->).
        -- by destruct Hif as (_ & ->).
    + intros k' Hk'. by apply Hmono, Hm1.
    + intros -> k' Hk' Hnone. apply elem_of_cons in Hk' as [->|Hk'].
      * apply Hmono. unfold cache_answers in Hif. rewrite Hnone in Hif.
        cbn [negb orb] in Hif. destruct Hif as (_ & -> & _).
        rewrite reg_get_register. by rewrite decide_True.
      * by apply Hreg.
Qed.

(** [getLanguagesFromTags] returns, in the order of its argument, the
    language codes of the language tags that are cached, and these are the
    [language] fields [memorizeTag] stored: an id that is not cached, or
    whose tag is no language tag, contributes nothing.  It never calls a
    continuation and never writes to the cache.  Without a callback it
    changes nothing; with one it registers a waiter for each occurrence of
    an id that is not cached, so that every such id is pending afterwards. *)
Theorem getLanguagesFromTags_result (tags : option (list JKey)) (cb : bool)
    (w : Waiter) (t : TagStore) :
  cache_wf (tag_cache t) →
  let r := getLanguagesFromTags tags cb w t in
  r.1.2 = omap (λ k, tag_cache t !! k ≫= tag_language) (default [] tags) ∧
  r.1.1.2 = [] ∧ tag_cache r.1.1.1 = tag_cache t ∧
  (cb = false → r.1.1.1 = t ∧ r.2 = []) ∧
  (cb = true →
     length r.2 =
       length (filter (λ k, tag_cache t !! k = None) (default [] tags)) ∧
     ∀ k, k ∈ default [] tags → tag_cache t !! k = None →
          is_Some (reg_get k (_waiting_tags r.1.1.1))).
Proof.
  intros Hwf. cbv zeta. destruct tags as [l|]; cbn [getLanguagesFromTags default].
  2: { cbn. split; [done|]. split; [done|]. split; [done|]. split; [done|].
       intros _. split; [done|]. intros k Hk. by apply elem_of_nil in Hk. }
  pose proof (languages_of_tags_spec l cb w t)
    as (Ho & He & Hc & Hsame & Hlen & _ & Hreg).
  split; [|split; [done|split; [done|split]]].
  - rewrite Ho. apply list_omap_ext, Forall2_same_length_lookup.
    split; [done|]. intros i k k' Hk Hk'.
    change (l !! i = Some k') in Hk'. assert (k = k') as <- by congruence.
    destruct (tag_cache t !! k) as [tag|] eqn:Ek; [|done].
    destruct (Hwf k tag Ek) as (_ & _ & _ & _ & _ & _ & Hlang).
    by rewrite <- Hlang.
  - intros ->. split; [by apply Hsame|]. by apply nil_length_inv.
  - intros ->. split; [done|]. by apply Hreg.
Qed.

Lemma getLanguagesFromTags_result_witness :
  (getLanguagesFromTags (Some [KStr "t3"; KStr "t1"; KStr "t9"]) false 0
     (tags (run later_run english_cached).1)).1.2 = ["en"].
Proof.
  destruct (getLanguagesFromTags_result
              (Some [KStr "t3"; KStr "t1"; KStr "t9"]) false 0
              (tags (run later_run english_cached).1)) as [H _].
  - apply (inv_run cache_wf memorizeTag_cache_wf).
    apply (inv_run cache_wf memorizeTag_cache_wf _ fresh), cache_wf_empty.
  - rewrite H. by vm_compute.
Defined.

(** ** Searching tags *)

Lemma matchingTags_nodes_spec (ns : list (option TagNode)) (t : TagStore) :
  cache_ok (tag_cache t) →
  (matchingTags_nodes ns t).2 = well_formed_ids ns ∧
  ∀ k, k ∈ (matchingTags_nodes ns t).2 →
       is_Some (tag_cache (matchingTags_nodes ns t).1.1 !! k).
Proof.
  revert t. induction ns as [|node ns IH]; intros t Hok.
  - split; [done|]. intros k Hk. by apply elem_of_nil in Hk.
  - cbn [matchingTags_nodes].
    pose proof (cache_ok_memorizeTag node true t Hok) as Hok1.
    assert (match (memorizeTag node true t).2 with
            | Some tag =>
                (node ≫= λ n, if well_formed n then tn_id n else None)
                  = Some (tag_id tag) ∧
                tag_cache (memorizeTag node true t).1.1 !! tag_id tag = Some tag
            | None =>
                (node ≫= λ n, if well_formed n then tn_id n else None) = None
            end) as Hn.
    { destruct node as [n|]; [|done].
      destruct (memorizeTag_entry n true t Hok) as (Hent & _ & _ & Hl).
      destruct (memorizeTag (Some n) true t).2 as [tag|] eqn:E;
        cbn [entry_of] in Hent; cbn [mbind option_bind].
      - destruct Hent as [Hw Hid]. rewrite Hw. split; [done|]. by apply Hl.
      - by rewrite Hent. }
    destruct (memorizeTag node true t) as [[t1 e1] tag].
    cbn [fst snd] in *. specialize (IH t1 Hok1).
    pose proof (λ k tg, inv_matchingTags_nodes (keeps_tag k tg)
                          (memorizeTag_keeps_tag k tg) ns t1) as Hkeep.
    destruct (matchingTags_nodes ns t1) as [[t2 e2] out].
    cbn [fst snd] in *. destruct IH as [Ho Hin].
    assert (∀ x, (node ≫= λ n, if well_formed n then tn_id n else None) = x →
              well_formed_ids (node :: ns) =
              match x with
              | Some y => y :: well_formed_ids ns
              | None => well_formed_ids ns
              end) as Hcons.
    { by intros x <-. }
    destruct tag as [tag|].
    + destruct Hn as [Hn Hl]. rewrite (Hcons _ Hn). split; [by rewrite Ho|].
      intros k Hk. apply elem_of_cons in Hk as [->|Hk]; [|by apply Hin].
      destruct (Hkeep (tag_id tag) tag) as (tag' & Htag' & _); [|by exists tag'].
      exists tag. split; [done | apply tag_extends_refl].
    + rewrite (Hcons _ Hn). split; [done|]. exact Hin.
Qed.

(** [getMatchingTags] returns one entry for each node of the response that
    passes the guard of [memorizeTag], in response order and with
    repetitions kept; a [null] or malformed node contributes nothing (no
    [undefined] entry).  Every entry is a record of the cache, well formed
    and filed under its own id, so that a later [getTag] of an entry's id
    without description is answered at once with that record. *)
Theorem getMatchingTags_entries (nodes : option (list (option TagNode)))
    (t : TagStore) :
  cache_wf (tag_cache t) →
  let r := getMatchingTags nodes t in
  r.2 = well_formed_ids (default [] nodes) ∧
  ∀ k, k ∈ r.2 →
    ∃ tag, tag_cache r.1.1 !! k = Some tag ∧ tag_wf k tag ∧
           ∀ w, getTag w k false r.1.1 = (r.1.1, [Fulfil w (VTag tag)]).
Proof.
  intros Hwf. cbv zeta.
  assert (getMatchingTags nodes t = matchingTags_nodes (default [] nodes) t)
    as -> by by destruct nodes.
  destruct (matchingTags_nodes_spec (default [] nodes) t (cache_wf_ok _ Hwf))
    as [Ho Hin].
  pose proof (inv_matchingTags_nodes cache_wf memorizeTag_cache_wf
                (default [] nodes) t Hwf) as Hwf'.
  split; [done|]. intros k Hk. destruct (Hin k Hk) as [tag Htag].
  exists tag. split; [done|]. split; [by apply Hwf'|].
  intros w. unfold getTag. rewrite Htag. cbn [negb]. by rewrite orb_true_r.
Qed.

Lemma getMatchingTags_entries_witness :
  (getMatchingTags search_response idle_tags).2 = [KStr "t3"; KStr "t3"].
Proof.
  destruct (getMatchingTags_entries search_response idle_tags) as [H _].
  - exact cache_wf_empty.
  - exact H.
Defined.

(** ** Every query of every run *)

Section Notifications.

Variable Q : Event → Prop.
Hypothesis Q_fulfil : ∀ w v, Q (Fulfil w v).

Lemma Q_fulfil_all (v : Value) (ws : list Waiter) : Forall Q (fulfil_all v ws).
Proof.
  unfold fulfil_all. apply Forall_forall.
  intros e (w & -> & _)%list_elem_of_fmap. apply Q_fulfil.
Qed.

Lemma Q_fulfil_key (v : Value) (k : JKey) (r : Registry) :
  Forall Q (fulfil_key v k r).2.
Proof. rewrite fulfil_key_events. apply Q_fulfil_all. Qed.

Lemma Q_fulfil_null (keys : list JKey) (r : Registry) :
  Forall Q (fulfil_null keys r).2.
Proof.
  revert r. induction keys as [|k ks IH]; intros r; [by constructor|].
  cbn [fulfil_null]. pose proof (Q_fulfil_key VNull k r) as H1.
  destruct (fulfil_key VNull k r) as [r1 e1]. specialize (IH r1).
  destruct (fulfil_null ks r1) as [r2 e2]. cbn [snd] in *.
  rewrite Forall_app. tauto.
Qed.

Lemma Q_process_nodes (payload : Node → Value) (ns : list (option Node))
    (f : Fanout) :
  Forall Q (process_nodes payload ns f).2.
Proof.
  revert f. induction ns as [|node ns IH]; intros f; [by constructor|].
  cbn [process_nodes]. unfold process_node.
  destruct (valid_node node) as [[n id]|].
  - pose proof (Q_fulfil_key (payload n) id (f_ids f)) as H1.
    destruct (fulfil_key (payload n) id (f_ids f)) as [ids e1].
    assert (Forall Q (fulfil_login (payload n) (node_login n) (f_logins f)).2)
      as H2.
    { destruct (node_login n); [apply Q_fulfil_key | by constructor]. }
    destruct (fulfil_login (payload n) (node_login n) (f_logins f)) as [logins e2].
    next_nodes payload ns IH.
    cbn [snd] in *. rewrite !Forall_app. tauto.
  - specialize (IH f). by destruct (process_nodes payload ns f).
Qed.

Lemma Q_drain_strict (notify : Waiter → Event) (keys : list JKey)
    (r : Registry) :
  (∀ w, Q (notify w)) → Forall Q (drain_strict notify keys r).1.2.
Proof.
  intros H. eapply Forall_impl; [apply drain_strict_notify|].
  by intros e [w ->].
Qed.

End Notifications.

Lemma default_or_null (l : list JKey) : default [] (or_null l) = l.
Proof. by destruct l. Qed.

Lemma query_ok_load_begin (doc : Doc) (s : Sched) :
  sched_ok s → Forall query_ok (load_begin doc s).2.
Proof.
  intros (Hi & Hl & _). unfold load_begin.
  destruct (loading s); [constructor|]. cbn [snd].
  apply Forall_cons_2; [|constructor]. cbn [query_ok].
  rewrite !default_or_null.
  destruct (select_batch_NoDup s Hi Hl) as [H1 H2].
  split; [done|]. split; [done|]. apply select_batch_bound.
Qed.

Lemma query_ok_call_load (doc : Doc) (deb : bool) (s : Sched) :
  sched_ok s → Forall query_ok (call_load doc deb s).2.
Proof.
  intros H. unfold call_load. destruct deb; [constructor|].
  by apply query_ok_load_begin.
Qed.

Lemma query_ok_timer_fire (doc : Doc) (s : Sched) :
  sched_ok s → Forall query_ok (timer_fire doc s).2.
Proof.
  intros H. unfold timer_fire. destruct (timer s); [|constructor].
  by apply query_ok_load_begin.
Qed.

Lemma query_ok_request (doc : Doc) (deb : bool) (w : Waiter)
    (id login : option JKey) (s : Sched) :
  sched_ok s → Forall query_ok (request doc deb w id login s).2.
Proof.
  intros H.
  pose proof (sched_ok_request doc deb w id login s H) as H'.
  revert H'. unfold request.
  assert (∀ s1 ev1, sched_ok s1 → Forall query_ok ev1 →
            Forall query_ok
              (if loading s1 then (s1, ev1)
               else let '(s2, ev2) := call_load doc deb s1 in
                    (s2, ev1 ++ ev2)).2) as Hrest.
  { intros s1 ev1 H1 He. destruct (loading s1); [done|].
    pose proof (query_ok_call_load doc deb s1 H1).
    destruct (call_load doc deb s1). cbn [snd] in *.
    rewrite Forall_app. by split. }
  destruct H as (Hi & Hl & Hc).
  destruct (if_truthy id) as [i|]; [|destruct (if_truthy login) as [l|]];
    intros _; apply Hrest; try by constructor.
  - split; [by apply NoDup_reg_register|]. split; [done|].
    intros c Hin. destruct (Hc c Hin) as (? & ? & Hp & ?).
    split; [done|]. split; [done|]. split; [|done].
    intros k Hk. by apply reg_keys_register_mono, Hp.
  - split; [done|]. split; [by apply NoDup_reg_register|].
    intros c Hin. destruct (Hc c Hin) as (? & ? & ? & Hp).
    split; [done|]. split; [done|]. split; [done|].
    intros k Hk. by apply reg_keys_register_mono, Hp.
Qed.

Lemma query_ok_load_settle (doc : Doc) (payload : Node → Value) (deb : bool)
    (r : Result) (s : Sched) :
  sched_ok s → Forall query_ok (load_settle doc payload deb r s).1.2.
Proof.
  intros H. pose proof H as (Hi & Hl & Hc). unfold load_settle.
  destruct (inflight s) as [c|] eqn:Ein; [|constructor].
  destruct r as [err|nodes]; cbn [fst snd].
  - unfold load_failed, reject_selected.
    pose proof (Q_drain_strict query_ok (λ w, Reject w err) (c_ids c)
                  (waiting_ids (set_inflight None s)) (λ _, I)) as H1.
    pose proof (Q_drain_strict query_ok (λ w, Reject w err) (c_logins c)
                  (waiting_logins (set_inflight None s)) (λ _, I)) as H2.
    destruct (drain_strict _ (c_ids c) _) as [[ids e1] [|]];
      cbn [fst snd] in *; [|done].
    destruct (drain_strict _ (c_logins c) _) as [[logins e2] c2].
    cbn [fst snd] in *. rewrite Forall_app. by split.
  - unfold load_succeeded.
    set (f0 := mkFanout _ _ _ _).
    assert (NoDup (reg_keys (f_ids f0)) ∧ NoDup (reg_keys (f_logins f0)))
      as [Hf1 Hf2] by done.
    assert (∀ fe : Fanout * list Event,
              NoDup (reg_keys (f_ids fe.1)) → NoDup (reg_keys (f_logins fe.1)) →
              Forall query_ok fe.2 →
              Forall query_ok
                (let '(f1, e1) := fe in
                 let '(ids, e2) := fulfil_null (f_id_set f1) (f_ids f1) in
                 let '(logins, e3) := fulfil_null (f_login_set f1) (f_logins f1) in
                 let s1 := set_loading false
                             (set_waiting_logins logins
                                (set_waiting_ids ids (set_inflight None s))) in
                 let '(s2, e4) :=
                   match ids, logins with
                   | [], [] => (s1, [])
                   | _, _ => call_load doc deb s1
                   end in
                 (s2, e1 ++ e2 ++ e3 ++ e4)).2) as Hgen.
    { intros [f1 e1] H1 H2 He1. cbn [fst snd] in *.
      pose proof (NoDup_fulfil_null (f_id_set f1) (f_ids f1) H1) as H3.
      pose proof (NoDup_fulfil_null (f_login_set f1) (f_logins f1) H2) as H4.
      pose proof (Q_fulfil_null query_ok (λ _ _, I) (f_id_set f1) (f_ids f1))
        as He2.
      pose proof (Q_fulfil_null query_ok (λ _ _, I) (f_login_set f1) (f_logins f1))
        as He3.
      destruct (fulfil_null (f_id_set f1) (f_ids f1)) as [ids e2].
      destruct (fulfil_null (f_login_set f1) (f_logins f1)) as [logins e3].
      cbn [fst snd] in *.
      set (s1 := set_loading false _).
      assert (sched_ok s1) as Hs1 by done.
      pose proof (query_ok_call_load doc deb s1 Hs1) as Hs2.
      assert (Forall query_ok
                (match ids, logins with
                 | [], [] => (s1, [])
                 | _, _ => call_load doc deb s1
                 end).2) as He4.
      { destruct ids, logins; try done; constructor. }
      destruct (match ids, logins with
                | [], [] => (s1, [])
                | _, _ => call_load doc deb s1
                end) as [s2 e4].
      cbn [snd] in *. rewrite !Forall_app. tauto. }
    destruct nodes as [ns|]; [|by apply (Hgen (f0, [])); [| |constructor]].
    destruct (NoDup_process_nodes payload ns f0 Hf1 Hf2) as [H1 H2].
    apply (Hgen (process_nodes payload ns f0)); [done|done|].
    apply Q_process_nodes. done.
Qed.

(** The tag registry stays a map, and what the tag methods emit. *)
Lemma tags_memorizeTag_ok (node : option TagNode) (dispatch : bool)
    (t : TagStore) :
  NoDup (reg_keys (_waiting_tags t)) →
  NoDup (reg_keys (_waiting_tags (memorizeTag node dispatch t).1.1)) ∧
  Forall query_ok (memorizeTag node dispatch t).1.2.
Proof.
  intros H. destruct node as [n|]; [|by split; [|constructor]].
  destruct (memorizeTag (Some n) dispatch t).2 as [tag|] eqn:Hres.
  - pose proof (memorizeTag_dispatch n dispatch t tag Hres) as (_ & _ & _ & Hd).
    destruct (dispatch && truthy_str (tag_description tag));
      destruct Hd as [-> ->].
    + split; [|by apply Q_fulfil_all].
      rewrite reg_keys_delete. by apply NoDup_set_delete.
    + by split; [|constructor].
  - rewrite (memorizeTag_malformed _ _ _ Hres). by split; [|constructor].
Qed.

Lemma tags_loadTags_nodes_ok (ns : list (option TagNode)) (ids : list JKey)
    (t : TagStore) :
  NoDup (reg_keys (_waiting_tags t)) →
  NoDup (reg_keys (_waiting_tags (loadTags_nodes ns ids t).1.1.1)) ∧
  Forall query_ok (loadTags_nodes ns ids t).1.2.
Proof.
  revert ids t. induction ns as [|node ns IH]; intros ids t H;
    [by split; [|constructor]|].
  cbn [loadTags_nodes].
  destruct (tags_memorizeTag_ok node false t H) as [H1 He0].
  destruct (memorizeTag node false t) as [[t1 e0] [tag|]]; [|done].
  cbn [fst snd] in *.
  set (t2 := set_waiting_tags (reg_delete (tag_id tag) (_waiting_tags t1)) t1).
  assert (NoDup (reg_keys (_waiting_tags t2))) as H2.
  { subst t2. cbn. rewrite reg_keys_delete. by apply NoDup_set_delete. }
  destruct (IH (set_delete (tag_id tag) ids) t2 H2) as [H3 He3].
  destruct (loadTags_nodes ns (set_delete (tag_id tag) ids) t2)
    as [[[t3 s3] e3] c].
  cbn [fst snd] in *. split; [done|]. rewrite !Forall_app.
  split; [done|]. split; [|done].
  destruct (reg_get _ _); [by apply Q_fulfil_all | constructor].
Qed.

Lemma tags_loadTags_settle_ok (r : TagResult) (t : TagStore) :
  NoDup (reg_keys (_waiting_tags t)) →
  NoDup (reg_keys (_waiting_tags (loadTags_settle r t).1.1)) ∧
  Forall query_ok (loadTags_settle r t).1.2.
Proof.
  intros H. unfold loadTags_settle.
  destruct (inflight_tags t) as [ids|]; [|by split; [|constructor]].
  destruct r as [err|nodes].
  - unfold reject_selected.
    pose proof (NoDup_drain_strict (λ w, Reject w err) ids
                  (_waiting_tags (set_inflight_tags None t)) H) as H1.
    pose proof (Q_drain_strict query_ok (λ w, Reject w err) ids
                  (_waiting_tags (set_inflight_tags None t)) (λ _, I)) as H2.
    by destruct (drain_strict _ ids _) as [[w ev] c].
  - assert (NoDup (reg_keys (_waiting_tags
      (match nodes with
       | Some ns => loadTags_nodes ns ids (set_inflight_tags None t)
       | None => (set_inflight_tags None t, ids, [], Returned)
       end).1.1.1)) ∧
      Forall query_ok
      (match nodes with
       | Some ns => loadTags_nodes ns ids (set_inflight_tags None t)
       | None => (set_inflight_tags None t, ids, [], Returned)
       end).1.2) as [H1 He1].
    { destruct nodes as [ns|]; [|by split; [|constructor]].
      by apply tags_loadTags_nodes_ok. }
    destruct (match nodes with Some ns => _ | None => _ end)
      as [[[t1 id_set] e1] [|]]; [|done].
    cbn [fst snd] in *.
    pose proof (NoDup_drain_strict (λ w, Fulfil w VNull) id_set
                  (_waiting_tags t1) H1) as H2.
    pose proof (Q_drain_strict query_ok (λ w, Fulfil w VNull) id_set
                  (_waiting_tags t1) (λ _, I)) as He2.
    destruct (drain_strict _ id_set (_waiting_tags t1)) as [[w e2] [|]];
      cbn [fst snd] in *; rewrite Forall_app; [|done].
    split; [by destruct w | done].
Qed.

Lemma tags_topTags_nodes_ok (ns : list (option TagNode))
    (seen : gset (option JKey)) (t : TagStore) :
  NoDup (reg_keys (_waiting_tags t)) →
  NoDup (reg_keys (_waiting_tags (topTags_nodes ns seen t).1.1)) ∧
  Forall query_ok (topTags_nodes ns seen t).1.2.
Proof.
  revert seen t. induction ns as [|[n|] ns IH]; intros seen t H;
    [by split; [|constructor] | | by apply IH].
  cbn [topTags_nodes]. destruct (bool_decide _); [by apply IH|].
  destruct (tags_memorizeTag_ok (Some n) true t H) as [H1 He1].
  destruct (memorizeTag (Some n) true t) as [[t1 e1] tag]. cbn [fst snd] in *.
  destruct (IH ({[tn_id n]} ∪ seen) t1 H1) as [H2 He2].
  destruct (topTags_nodes ns _ t1) as [[t2 e2] out]. cbn [fst snd] in *.
  split; [done|]. rewrite Forall_app. by split.
Qed.

Lemma tags_getTag_ok (w : Waiter) (id : JKey) (want : bool) (t : TagStore) :
  NoDup (reg_keys (_waiting_tags t)) →
  NoDup (reg_keys (_waiting_tags (getTag w id want t).1)) ∧
  Forall query_ok (getTag w id want t).2.
Proof.
  intros H. destruct (cache_answers id want (tag_cache t)) eqn:Ea.
  - unfold getTag, cache_answers in *.
    destruct (tag_cache t !! id) as [out|]; [|done]. rewrite Ea.
    split; [done|]. apply Forall_cons_2; [done | constructor].
  - destruct (getTag_registers w id want t Ea) as (-> & _ & -> & _).
    split; [by apply NoDup_reg_register | constructor].
Qed.

Lemma tags_timer_fire_ok (t : TagStore) :
  NoDup (reg_keys (_waiting_tags t)) →
  NoDup (reg_keys (_waiting_tags (tags_timer_fire t).1)) ∧
  Forall query_ok (tags_timer_fire t).2.
Proof.
  intros H. unfold tags_timer_fire, loadTags_begin.
  destruct (timer_tags t); [|by split; [|constructor]].
  cbn [_loading_tags set_timer_tags _waiting_tags].
  destruct (_loading_tags t); [by split; [|constructor]|].
  cbn [fst snd]. split; [done|]. apply Forall_cons_2; [|constructor].
  cbn [query_ok default]. split; [|split; [constructor|]].
  - eapply sublist_NoDup; [|apply sublist_take]; done.
  - unfold id. rewrite length_take. cbn [length]. unfold BATCH. lia.
Qed.

Lemma registries_ok_step (a : Action) (d : TwitchData) :
  registries_ok d →
  registries_ok (step a d).1 ∧ Forall query_ok (step a d).2.
Proof.
  intros (Hu & Hs & Ht).
  destruct (sched_ok_step a d Hu Hs) as [Hu' Hs'].
  assert (NoDup (reg_keys (_waiting_tags (tags (step a d).1))) ∧
          Forall query_ok (step a d).2) as [Ht' He]; [|done].
  clear Hu' Hs'. destruct a as [w id login|r|w id login| |r|w id want| |r|node dispatch|nodes];
    cbn [step].
  - pose proof (query_ok_request UserBulk users_debounced w id login _ Hu) as H.
    unfold getUserBasic. by destruct (request _ _ _ _ _ _).
  - pose proof (query_ok_load_settle UserBulk user_payload users_debounced r _ Hu)
      as H.
    unfold _loadUsers_settle. destruct (load_settle _ _ _ _ _) as [[s ev] c].
    cbn [fst snd] in *. split; [done|]. rewrite Forall_app. split; [done|].
    destruct c; [constructor|]. apply Forall_cons_2; [done|constructor].
  - pose proof (query_ok_request StreamFetch streams_debounced w id login _ Hs)
      as H.
    unfold getStreamMeta. by destruct (request _ _ _ _ _ _).
  - pose proof (query_ok_timer_fire StreamFetch _ Hs) as H.
    unfold _loadStreams_timer. by destruct (timer_fire _ _).
  - pose proof (query_ok_load_settle StreamFetch stream_payload
                  streams_debounced r _ Hs) as H.
    unfold _loadStreams_settle. destruct (load_settle _ _ _ _ _) as [[s ev] c].
    cbn [fst snd] in *. split; [done|]. rewrite Forall_app. split; [done|].
    destruct c; [constructor|]. apply Forall_cons_2; [done|constructor].
  - pose proof (tags_getTag_ok w id want _ Ht) as H.
    by destruct (getTag _ _ _ _).
  - pose proof (tags_timer_fire_ok _ Ht) as H.
    by destruct (tags_timer_fire _).
  - pose proof (tags_loadTags_settle_ok r _ Ht) as [H1 H2].
    destruct (loadTags_settle _ _) as [[s ev] c].
    cbn [fst snd] in *. split; [done|]. rewrite Forall_app. split; [done|].
    destruct c; [constructor|]. apply Forall_cons_2; [done|constructor].
  - pose proof (tags_memorizeTag_ok node dispatch _ Ht) as H.
    by destruct (memorizeTag _ _ _) as [[? ?] ?].
  - unfold getTopTags. destruct nodes as [ns|]; [|by split; [|constructor]].
    pose proof (tags_topTags_nodes_ok ns ∅ _ Ht) as H.
    by destruct (topTags_nodes _ _ _) as [[? ?] ?].
Qed.

Lemma registries_ok_run (acts : list Action) (d : TwitchData) :
  registries_ok d →
  registries_ok (run acts d).1 ∧ Forall query_ok (run acts d).2.
Proof.
  revert d. induction acts as [|a acts IH]; intros d H;
    [by split; [|constructor]|].
  cbn [run]. destruct (registries_ok_step a d H) as [H1 He1].
  destruct (step a d) as [d1 e1]. cbn [fst snd] in *.
  destruct (IH d1 H1) as [H2 He2]. destruct (run acts d1) as [d2 e2].
  cbn [fst snd] in *. split; [done|]. rewrite Forall_app. by split.
Qed.

Lemma registries_ok_fresh : registries_ok fresh.
Proof.
  split; [apply sched_ok_idle|]. split; [apply sched_ok_idle|]. constructor.
Qed.

(** Whatever is done to an object that started fresh, every remote query it
    makes (users, streams or tags) carries keys without repetition, and at
    most fifty of them, ids and logins together. *)
Theorem every_query_bounded (acts : list Action) (doc : Doc)
    (ids logins : option (list JKey)) :
  Query doc ids logins ∈ (run acts fresh).2 →
  NoDup (default [] ids) ∧ NoDup (default [] logins) ∧
  length (default [] ids) + length (default [] logins) ≤ 50.
Proof.
  intros Hin.
  destruct (registries_ok_run acts fresh registries_ok_fresh) as [_ H].
  rewrite Forall_forall in H. exact (H _ Hin).
Qed.

Lemma every_query_bounded_witness :
  NoDup [KStr "t1"] ∧ NoDup (default [] (None : option (list JKey))) ∧
  length [KStr "t1"] + length (default [] (None : option (list JKey))) ≤ 50.
Proof.
  apply (every_query_bounded busy_run TagsFetch (Some [KStr "t1"]) None).
  apply (bool_decide_unpack _). vm_compute. exact I.
Defined.

(** ** Creating a poll *)

(** [createPoll] validates before it does anything else, the title first:
    a title that is not a string throws ['title must be string'] whatever
    the choices are; with a string title, choices that are not an array of
    strings throw ['choices must be array of strings'] (an empty array
    passes); with both valid, [null] options make the read of
    [options.bits] throw; and the mutation is sent in the remaining case
    only. *)
Theorem createPoll_validation (channel_id : JKey) (title choices : JsVal)
    (options : OptionsArg) :
  (createPoll channel_id title choices options =
     PollThrows (TypeError "title must be string") ↔
   is_string title = false) ∧
  (createPoll channel_id title choices options =
     PollThrows (TypeError "choices must be array of strings") ↔
   is_string title = true ∧ string_array choices = false) ∧
  (createPoll channel_id title choices options = PollThrows NullRead ↔
   is_string title = true ∧ string_array choices = true ∧
   options = OptionsNull) ∧
  ((∃ input, createPoll channel_id title choices options = PollMutation input) ↔
   is_string title = true ∧ string_array choices = true ∧
   options ≠ OptionsNull) ∧
  string_array (JArray []) = true.
Proof.
  unfold createPoll.
  destruct title as [| |b|n|s|l|o]; cbn [is_string];
    try (split; [done|]; split; [by split; [|intros []]|];
         split; [by split; [|intros []]|];
         split; [by split; [intros []|intros []]|done]).
  destruct (string_array choices); cbn [negb].
  - destruct options as [| |o].
    + split; [done|]. split; [by split; [|intros []]|].
      split; [by split; [|intros (_ & _ & ?)]|].
      split; [|done]. split; [done|]. intros _. by eexists.
    + split; [done|]. split; [by split; [|intros []]|].
      split; [done|]. split; [|done].
      split; [by intros []|]. by intros (_ & _ & ?).
    + split; [done|]. split; [by split; [|intros []]|].
      split; [by split; [|intros (_ & _ & ?)]|].
      split; [|done]. split; [done|]. intros _. by eexists.
  - split; [done|]. split; [done|].
    split; [by split; [|intros (_ & ? & _)]|].
    split; [|done]. split; [by intros []|]. by intros (_ & ? & _).
Qed.

Lemma number_or_spec (d : Z) (dflt v : JsVal) :
  (0 < d)%Z ∨ d = 0%Z → dflt = JNumber (Int d) →
  number_or d (or_else v dflt) = if positive v then v else JNumber (Int d).
Proof.
  intros Hd ->. unfold or_else.
  assert (number_or d (JNumber (Int d)) = JNumber (Int d)) as Hdd.
  { cbn. destruct (Z.ltb_spec d 0); [lia | done]. }
  destruct v as [| |b|[| | |z]|s|l|o]; cbn [truthy_val positive num_lt];
    try exact Hdd; try done.
  - by destruct b.
  - destruct (Z.eqb_spec z 0) as [->|Hz]; cbn [negb].
    + by rewrite Hdd.
    + cbn. destruct (Z.ltb_spec z 0), (Z.ltb_spec 0 z); try done; lia.
  - by destruct (bool_decide (s = EmptyString)).
Qed.

(** What [createPoll] sends.  The cost in bits is the [bits] option when
    that is a positive number and 0 otherwise (absent, not a number, NaN,
    zero or negative), and bits voting is on exactly when the cost is not 0;
    the duration is the [duration] option when that is a positive number and
    60 otherwise, so it is never 0; the choices are the given strings, in
    order; each subscriber flag is the option when truthy and [false]
    otherwise. *)
Theorem createPoll_input (channel_id : JKey) (title_arg choices_arg : JsVal)
    (options : OptionsArg) (input : PollInput) :
  createPoll channel_id title_arg choices_arg options = PollMutation input →
  let o := given_options options in
  bitsCost input =
    (if positive (opt_bits o) then opt_bits o else JNumber (Int 0)) ∧
  (bitsVoting input = false ↔ bitsCost input = JNumber (Int 0)) ∧
  durationSeconds input =
    (if positive (opt_duration o) then opt_duration o else JNumber (Int 60)) ∧
  positive (durationSeconds input) = true ∧
  JString (title input) = title_arg ∧
  JArray (choices input) = choices_arg ∧
  Forall (λ c, is_string c = true) (choices input) ∧
  ownedBy input = channel_id ∧
  subscriberMultiplier input =
    (if truthy_val (opt_subscriberMultiplier o)
     then opt_subscriberMultiplier o else JBool false) ∧
  subscriberOnly input =
    (if truthy_val (opt_subscriberOnly o)
     then opt_subscriberOnly o else JBool false).
Proof.
  unfold createPoll. destruct title_arg as [| |b|n|s|l|o]; try done.
  destruct (string_array choices_arg) eqn:Hc; [|done]. cbn [negb].
  assert (options ≠ OptionsNull →
          PollMutation
            (mkPollInput
               (number_or 0 (or_else (opt_bits (given_options options))
                               (JNumber (Int 0))))
               (positive
                  (number_or 0 (or_else (opt_bits (given_options options))
                                  (JNumber (Int 0)))))
               match choices_arg with JArray items => items | _ => [] end
               (number_or 60 (or_else (opt_duration (given_options options))
                                (JNumber (Int 60))))
               channel_id
               (or_else (opt_subscriberMultiplier (given_options options))
                  (JBool false))
               (or_else (opt_subscriberOnly (given_options options))
                  (JBool false)) s) = PollMutation input →
          let o := given_options options in
          bitsCost input =
            (if positive (opt_bits o) then opt_bits o else JNumber (Int 0)) ∧
          (bitsVoting input = false ↔ bitsCost input = JNumber (Int 0)) ∧
          durationSeconds input =
            (if positive (opt_duration o) then opt_duration o
             else JNumber (Int 60)) ∧
          positive (durationSeconds input) = true ∧
          JString (title input) = JString s ∧
          JArray (choices input) = choices_arg ∧
          Forall (λ c, is_string c = true) (choices input) ∧
          ownedBy input = channel_id ∧
          subscriberMultiplier input =
            (if truthy_val (opt_subscriberMultiplier o)
             then opt_subscriberMultiplier o else JBool false) ∧
          subscriberOnly input =
            (if truthy_val (opt_subscriberOnly o)
             then opt_subscriberOnly o else JBool false)) as Hgen.
  { intros _ [= <-]. cbv zeta. cbn [bitsCost bitsVoting durationSeconds title
      choices ownedBy subscriberMultiplier subscriberOnly].
    rewrite (number_or_spec 0 _ _ (or_intror eq_refl) eq_refl).
    rewrite (number_or_spec 60 _ _ (or_introl eq_refl) eq_refl).
    split; [done|]. split; [|split; [done|split; [|split; [done|split; [|split]]]]].
    - destruct (positive (opt_bits (given_options options))) eqn:Hp.
      + rewrite Hp. split; [done|]. intros Hz. rewrite Hz in Hp. done.
      + done.
    - destruct (positive (opt_duration (given_options options))) eqn:Hp; done.
    - unfold string_array in Hc. by destruct choices_arg.
    - unfold string_array in Hc. destruct choices_arg as [| | | | |items|o]; try done.
      apply negb_true_iff in Hc. apply Forall_forall. intros c Hin.
      destruct (is_string c) eqn:Es; [done|].
      assert (existsb (λ x, negb (is_string x)) items = true); [|congruence].
      apply existsb_exists. exists c. split; [by apply list_elem_of_In|].
      by rewrite Es.
    - done. }
  destruct options as [| |o]; [by apply Hgen | done | by apply Hgen].
Qed.

Lemma createPoll_input_witness :
  ∃ input, example_poll = PollMutation input ∧
           bitsCost input = JNumber (Int 10) ∧
           durationSeconds input = JNumber (Int 120).
Proof.
  eexists. split; [reflexivity|].
  destruct (createPoll_input (KNum 19571641) (JString "Pick an option:")
              (JArray [JString "One"; JString "Two"; JString "Three"])
              (OptionsGiven (mkPollOptions (JNumber (Int 10))
                               (JNumber (Int 120)) (JBool false)
                               (JBool true)))
              _ eq_refl) as (Hb & _ & Hd & _).
  split; [exact Hb | exact Hd].
Defined.

(** ** Exact matches first *)

Section SearchOrder.

Variable toLowerCase : string → string.
Variable needle : string.

Lemma sort_insert_partition (x : Found) (M N : list (option Found)) :
  Forall (λ y, is_exact toLowerCase needle y = true) M →
  Forall (λ y, is_Some y ∧ is_exact toLowerCase needle y = false) N →
  sort_insert (compare_found toLowerCase needle) (Some x) (M ++ N) =
  Some (if exact_match toLowerCase needle x
        then Some x :: M ++ N else M ++ Some x :: N).
Proof.
  intros HM HN. induction HM as [|y M Hy HM IH].
  - cbn [app]. destruct HN as [|y N [[f ->] Hy] HN].
    + by destruct (exact_match toLowerCase needle x).
    + cbn [sort_insert compare_found]. cbn [is_exact] in Hy. rewrite Hy.
      by destruct (exact_match toLowerCase needle x).
  - cbn [app sort_insert]. destruct y as [f|]; [|done].
    cbn [compare_found]. cbn [is_exact] in Hy. rewrite Hy.
    destruct (exact_match toLowerCase needle x); cbn; [done|].
    by rewrite IH.
Qed.

Lemma js_sort_partition (l : list (option Found)) :
  Forall is_Some l →
  js_sort (compare_found toLowerCase needle) l =
  Some (List.filter (is_exact toLowerCase needle) l ++
        List.filter (λ y, negb (is_exact toLowerCase needle y)) l).
Proof.
  induction 1 as [|x l [f ->] Hl IH]; [done|].
  cbn [js_sort]. rewrite IH. cbn [mbind option_bind].
  rewrite sort_insert_partition.
  - cbn [List.filter is_exact].
    by destruct (exact_match toLowerCase needle f).
  - apply Forall_forall. intros y Hy%list_elem_of_In%filter_In. tauto.
  - apply Forall_forall. intros y [Hy Hn]%list_elem_of_In%filter_In.
    split; [|by apply negb_true_iff].
    rewrite Forall_forall in Hl. by apply Hl, list_elem_of_In.
Qed.

End SearchOrder.

(** The sort of [getMatchingCategories] and [getMatchingUsers], for a
    response without [null] nodes: the nodes whose name or display name is
    the search text, letter case apart, come first, and within both groups
    the order of the response is kept; nothing is dropped or added.  A
    response without page information is reported as finished, and a count
    that is missing or 0 reads 0.  With a [null] node the comparator is not
    an order any more: it answers 0 for a [null] first argument, whatever
    the second is, and throws for a [null] second argument. *)
Theorem search_exact_matches_first (toLowerCase : string → string)
    (query : string) (data : SearchResponse) :
  Forall is_Some (default [] (edge_nodes data)) →
  let needle := toLowerCase query in
  let nodes := default [] (edge_nodes data) in
  (∃ page, getMatching toLowerCase query data = Some page ∧
     items page =
       List.filter (is_exact toLowerCase needle) nodes ++
       List.filter (λ y, negb (is_exact toLowerCase needle y)) nodes ∧
     items page ≡ₚ nodes ∧
     cursor page = last_cursor data ∧
     (truthy_val (hasNextPage data) = false → finished page = true) ∧
     (truthy_val (totalCount data) = false → count page = JNumber (Int 0))) ∧
  (∀ b, compare_found toLowerCase needle None b = Some 0%Z) ∧
  (∀ a, compare_found toLowerCase needle (Some a) None = None).
Proof.
  intros Hall. cbv zeta. split; [|done].
  unfold getMatching.
  rewrite (js_sort_partition toLowerCase (toLowerCase query) _ Hall).
  cbn [mbind option_bind]. eexists. split; [reflexivity|].
  cbn [items cursor finished count]. split; [done|]. split; [|split; [done|split]].
  - generalize (default [] (edge_nodes data)). intros l.
    induction l as [|x l IH]; [done|]. cbn [List.filter].
    destruct (is_exact toLowerCase (toLowerCase query) x); cbn [negb app].
    + by constructor.
    + rewrite <- Permutation_middle. by constructor.
  - by intros ->.
  - unfold or_else. by intros ->.
Qed.

Lemma search_exact_matches_first_witness :
  ∃ page, getMatching lower "Ninja" ninja_page = Some page ∧
          found_id <$> omap id (items page) = [KNum 2; KNum 4; KNum 1; KNum 3].
Proof.
  destruct (search_exact_matches_first lower "Ninja" ninja_page)
    as [(page & Hp & Hi & _) _].
  - repeat (apply Forall_cons_2; [by eexists|]). constructor.
  - exists page. split; [exact Hp|]. rewrite Hi. reflexivity.
Defined.

(** ** No waiter is lost, none is notified twice *)

Lemma occ_nil (w : Waiter) : occ w [] = 0.
Proof. done. Qed.

Lemma notified_nil : notified [] = [].
Proof. done. Qed.

Lemma notified_cons (e : Event) (ev : list Event) :
  notified (e :: ev) = option_list (waiter_of e) ++ notified ev.
Proof. unfold notified. cbn. by destruct (waiter_of e). Qed.

Ltac id_lia := unfold Datatypes.id in *; lia.

Lemma occ_app (w : Waiter) (l1 l2 : list Waiter) :
  occ w (l1 ++ l2) = occ w l1 + occ w l2.
Proof. apply count_occ_app. Qed.

Ltac occ_lia :=
  unfold sched_pending in *; cbn in *; rewrite ?notified_cons in *;
  cbn [waiter_of option_list app] in *;
  rewrite ?notified_nil, ?occ_app, ?occ_nil in *; id_lia.

Section Conservation.

Variable w : Waiter.

Lemma notified_app (e1 e2 : list Event) :
  notified (e1 ++ e2) = notified e1 ++ notified e2.
Proof. apply omap_app. Qed.

Lemma notified_map (notify : Waiter → Event) (ws : list Waiter) :
  (∀ x, waiter_of (notify x) = Some x) → notified (map notify ws) = ws.
Proof.
  intros H. unfold notified. induction ws as [|x ws IH]; [done|].
  cbn [map].
  change (omap waiter_of (notify x :: map notify ws)) with
    (match waiter_of (notify x) with
     | Some y => y :: omap waiter_of (map notify ws)
     | None => omap waiter_of (map notify ws)
     end).
  by rewrite H, IH.
Qed.

Lemma notified_fulfil_all (v : Value) (ws : list Waiter) :
  notified (fulfil_all v ws) = ws.
Proof. by apply notified_map. Qed.

Lemma pending_cons (k : JKey) (ws : list Waiter) (r : Registry) :
  pending ((k, ws) :: r) = ws ++ pending r.
Proof. done. Qed.

Lemma pending_app (r1 r2 : Registry) : pending (r1 ++ r2) = pending r1 ++ pending r2.
Proof. unfold pending. by rewrite map_app, concat_app. Qed.

Lemma occ_pending_delete (k : JKey) (r : Registry) :
  NoDup (reg_keys r) →
  occ w (pending r) =
  occ w (default [] (reg_get k r)) + occ w (pending (reg_delete k r)).
Proof.
  induction r as [|[k' ws] r IH]; intros Hnd; [done|].
  apply NoDup_cons in Hnd as [Hk' Hnd]. rewrite pending_cons, occ_app.
  unfold reg_delete. rewrite filter_cons. cbn [reg_get fst].
  destruct (decide (k' = k)) as [->|Hne].
  - rewrite decide_False by (intros H; by apply H).
    fold (reg_delete k r). rewrite reg_delete_absent; [done|].
    by apply reg_get_None.
  - rewrite decide_True by done. fold (reg_delete k r).
    rewrite pending_cons, occ_app, (IH Hnd). id_lia.
Qed.

Lemma occ_pending_push (k : JKey) (x : Waiter) (r : Registry) :
  reg_has k r = true →
  occ w (pending (reg_push k x r)) = occ w (pending r) + occ w [x].
Proof.
  unfold reg_has. induction r as [|[k' ws] r IH]; [done|].
  cbn [reg_get reg_push]. destruct (decide (k' = k)) as [->|Hne].
  - intros _. rewrite !pending_cons, !occ_app. id_lia.
  - intros H. rewrite !pending_cons, !occ_app, (IH H). id_lia.
Qed.

Lemma occ_pending_register (k : JKey) (x : Waiter) (r : Registry) :
  occ w (pending (reg_register k x r)) = occ w (pending r) + occ w [x].
Proof.
  unfold reg_register. destruct (reg_has k r) eqn:E.
  - by apply occ_pending_push.
  - rewrite pending_app, occ_app. reflexivity.
Qed.

Lemma occ_fulfil_key (v : Value) (k : JKey) (r : Registry) :
  NoDup (reg_keys r) →
  occ w (pending (fulfil_key v k r).1) + occ w (notified (fulfil_key v k r).2) =
  occ w (pending r).
Proof.
  intros H. rewrite (occ_pending_delete k r H). unfold fulfil_key.
  destruct (reg_get k r) as [ws|] eqn:E; cbn [fst snd default].
  - rewrite notified_fulfil_all. id_lia.
  - rewrite reg_delete_absent by done. done.
Qed.

Lemma occ_fulfil_null (keys : list JKey) (r : Registry) :
  NoDup (reg_keys r) →
  occ w (pending (fulfil_null keys r).1) + occ w (notified (fulfil_null keys r).2) =
  occ w (pending r).
Proof.
  revert r. induction keys as [|k ks IH]; intros r H; [done|].
  cbn [fulfil_null]. pose proof (occ_fulfil_key VNull k r H) as H1.
  pose proof (NoDup_fulfil_key VNull k r H) as Hn.
  destruct (fulfil_key VNull k r) as [r1 e1]. cbn [fst snd] in *.
  specialize (IH r1 Hn). destruct (fulfil_null ks r1) as [r2 e2].
  cbn [fst snd] in *. rewrite notified_app, occ_app. id_lia.
Qed.

Lemma occ_process_nodes (payload : Node → Value) (ns : list (option Node))
    (f : Fanout) :
  NoDup (reg_keys (f_ids f)) → NoDup (reg_keys (f_logins f)) →
  occ w (pending (f_ids (process_nodes payload ns f).1)) +
  occ w (pending (f_logins (process_nodes payload ns f).1)) +
  occ w (notified (process_nodes payload ns f).2) =
  occ w (pending (f_ids f)) + occ w (pending (f_logins f)).
Proof.
  revert f. induction ns as [|node ns IH]; intros f Hi Hl; [occ_lia|].
  cbn [process_nodes]. unfold process_node.
  destruct (valid_node node) as [[n id]|].
  - pose proof (occ_fulfil_key (payload n) id (f_ids f) Hi) as H1.
    pose proof (NoDup_fulfil_key (payload n) id (f_ids f) Hi) as Hn1.
    destruct (fulfil_key (payload n) id (f_ids f)) as [ids e1].
    assert (occ w (pending (fulfil_login (payload n) (node_login n) (f_logins f)).1) +
            occ w (notified (fulfil_login (payload n) (node_login n) (f_logins f)).2) =
            occ w (pending (f_logins f)) ∧
            NoDup (reg_keys (fulfil_login (payload n) (node_login n) (f_logins f)).1))
      as [H2 Hn2].
    { destruct (node_login n) as [l|]; cbn [fulfil_login];
        [|by split; [occ_lia|]].
      split; [by apply occ_fulfil_key | by apply NoDup_fulfil_key]. }
    destruct (fulfil_login (payload n) (node_login n) (f_logins f)) as [logins e2].
    cbn [fst snd] in *.
    match goal with |- context [process_nodes payload ns ?g] =>
      specialize (IH g Hn1 Hn2); destruct (process_nodes payload ns g) as [f2 e3]
    end.
    cbn [fst snd f_ids f_logins] in *. rewrite !notified_app, !occ_app. id_lia.
  - specialize (IH f Hi Hl). destruct (process_nodes payload ns f) as [f2 e3].
    cbn [fst snd app] in *. done.
Qed.

Lemma occ_drain_strict (notify : Waiter → Event) (keys : list JKey)
    (r : Registry) :
  (∀ x, waiter_of (notify x) = Some x) → NoDup (reg_keys r) →
  occ w (pending (drain_strict notify keys r).1.1) +
  occ w (notified (drain_strict notify keys r).1.2) = occ w (pending r).
Proof.
  intros Hn. revert r. induction keys as [|k ks IH]; intros r H; [occ_lia|].
  cbn [drain_strict]. rewrite (occ_pending_delete k r H).
  destruct (reg_get k r) as [ws|] eqn:E; cbn [default]; [|occ_lia].
  assert (NoDup (reg_keys (reg_delete k r))) as Hd.
  { rewrite reg_keys_delete. by apply NoDup_set_delete. }
  specialize (IH (reg_delete k r) Hd).
  destruct (drain_strict notify ks (reg_delete k r)) as [[r' ev] c].
  cbn [fst snd] in *. rewrite notified_app, occ_app, notified_map by done. id_lia.
Qed.

Lemma occ_no_notification (ev : list Event) :
  Forall (λ e, waiter_of e = None) ev → occ w (notified ev) = 0.
Proof.
  induction 1 as [|e ev He _ IH]; [done|].
  unfold notified in *.
  change (omap waiter_of (e :: ev)) with
    (match waiter_of e with
     | Some y => y :: omap waiter_of ev
     | None => omap waiter_of ev
     end).
  by rewrite He.
Qed.

Lemma call_load_keeps (doc : Doc) (deb : bool) (s : Sched) :
  sched_pending (call_load doc deb s).1 = sched_pending s ∧
  occ w (notified (call_load doc deb s).2) = 0.
Proof.
  unfold call_load, load_begin. destruct deb; [done|]. by destruct (loading s).
Qed.

Lemma occ_request (doc : Doc) (deb : bool) (x : Waiter) (id login : option JKey)
    (s : Sched) :
  occ w (sched_pending (request doc deb x id login s).1) +
  occ w (notified (request doc deb x id login s).2) =
  occ w (sched_pending s) + occ w [x].
Proof.
  unfold request.
  assert (∀ s1 ev1,
            occ w (sched_pending s1) + occ w (notified ev1) =
              occ w (sched_pending s) + occ w [x] →
            occ w (sched_pending
                     (if loading s1 then (s1, ev1)
                      else let '(s2, ev2) := call_load doc deb s1 in
                           (s2, ev1 ++ ev2)).1) +
            occ w (notified
                     (if loading s1 then (s1, ev1)
                      else let '(s2, ev2) := call_load doc deb s1 in
                           (s2, ev1 ++ ev2)).2) =
            occ w (sched_pending s) + occ w [x]) as Hrest.
  { intros s1 ev1 H. destruct (loading s1); [done|].
    destruct (call_load_keeps doc deb s1) as [Hp He].
    destruct (call_load doc deb s1) as [s2 ev2]. cbn [fst snd] in *.
    rewrite Hp, notified_app, occ_app. id_lia. }
  destruct (if_truthy id) as [i|]; [|destruct (if_truthy login) as [l|]];
    apply Hrest; unfold sched_pending; cbn [waiting_ids waiting_logins
      set_waiting_ids set_waiting_logins]; rewrite ?occ_app.
  - rewrite occ_pending_register. occ_lia.
  - rewrite occ_pending_register. occ_lia.
  - change (notified [Reject x invalid_key]) with [x]. id_lia.
Qed.

Lemma occ_load_settle (doc : Doc) (payload : Node → Value) (deb : bool)
    (r : Result) (s : Sched) :
  sched_ok s →
  occ w (sched_pending (load_settle doc payload deb r s).1.1) +
  occ w (notified (load_settle doc payload deb r s).1.2) =
  occ w (sched_pending s).
Proof.
  intros (Hi & Hl & _). unfold load_settle.
  destruct (inflight s) as [c|]; [|occ_lia].
  destruct r as [err|nodes]; cbn [fst snd].
  - unfold load_failed, reject_selected.
    pose proof (occ_drain_strict (λ x, Reject x err) (c_ids c)
                  (waiting_ids (set_inflight None s)) (λ _, eq_refl) Hi) as H1.
    pose proof (occ_drain_strict (λ x, Reject x err) (c_logins c)
                  (waiting_logins (set_inflight None s)) (λ _, eq_refl) Hl) as H2.
    destruct (drain_strict _ (c_ids c) _) as [[ids e1] [|]];
      cbn [fst snd] in *.
    + destruct (drain_strict _ (c_logins c) _) as [[logins e2] c2].
      cbn [fst snd] in *. unfold sched_pending.
      cbn [waiting_ids waiting_logins set_waiting_ids set_waiting_logins
           set_inflight] in *.
      rewrite notified_app, !occ_app. id_lia.
    + unfold sched_pending.
      cbn [waiting_ids waiting_logins set_waiting_ids set_inflight] in *.
      rewrite !occ_app. id_lia.
  - unfold load_succeeded.
    set (f0 := mkFanout _ _ _ _).
    assert (NoDup (reg_keys (f_ids f0)) ∧ NoDup (reg_keys (f_logins f0)))
      as [Hf1 Hf2] by done.
    assert (occ w (sched_pending s) =
            occ w (pending (f_ids f0)) + occ w (pending (f_logins f0))) as ->.
    { unfold sched_pending. by rewrite occ_app. }
    assert (∀ fe : Fanout * list Event,
              NoDup (reg_keys (f_ids fe.1)) → NoDup (reg_keys (f_logins fe.1)) →
              occ w (sched_pending
                (let '(f1, e1) := fe in
                 let '(ids, e2) := fulfil_null (f_id_set f1) (f_ids f1) in
                 let '(logins, e3) := fulfil_null (f_login_set f1) (f_logins f1) in
                 let s1 := set_loading false
                             (set_waiting_logins logins
                                (set_waiting_ids ids (set_inflight None s))) in
                 let '(s2, e4) :=
                   match ids, logins with
                   | [], [] => (s1, [])
                   | _, _ => call_load doc deb s1
                   end in
                 (s2, e1 ++ e2 ++ e3 ++ e4)).1) +
              occ w (notified
                (let '(f1, e1) := fe in
                 let '(ids, e2) := fulfil_null (f_id_set f1) (f_ids f1) in
                 let '(logins, e3) := fulfil_null (f_login_set f1) (f_logins f1) in
                 let s1 := set_loading false
                             (set_waiting_logins logins
                                (set_waiting_ids ids (set_inflight None s))) in
                 let '(s2, e4) :=
                   match ids, logins with
                   | [], [] => (s1, [])
                   | _, _ => call_load doc deb s1
                   end in
                 (s2, e1 ++ e2 ++ e3 ++ e4)).2) =
              occ w (pending (f_ids fe.1)) + occ w (pending (f_logins fe.1)) +
              occ w (notified fe.2)) as Hgen.
    { intros [f1 e1] H1 H2. cbn [fst snd] in *.
      pose proof (occ_fulfil_null (f_id_set f1) (f_ids f1) H1) as H3.
      pose proof (occ_fulfil_null (f_login_set f1) (f_logins f1) H2) as H4.
      destruct (fulfil_null (f_id_set f1) (f_ids f1)) as [ids e2].
      destruct (fulfil_null (f_login_set f1) (f_logins f1)) as [logins e3].
      cbn [fst snd] in *.
      set (s1 := set_loading false _).
      assert (occ w (sched_pending s1) =
              occ w (pending ids) + occ w (pending logins)) as Hs1.
      { unfold sched_pending. by rewrite occ_app. }
      destruct (call_load_keeps doc deb s1) as [Hp He].
      assert (occ w (sched_pending
                (match ids, logins with
                 | [], [] => (s1, [])
                 | _, _ => call_load doc deb s1
                 end).1) = occ w (sched_pending s1) ∧
              occ w (notified
                (match ids, logins with
                 | [], [] => (s1, [])
                 | _, _ => call_load doc deb s1
                 end).2) = 0) as [Hp4 He4].
      { destruct ids, logins; try done; by rewrite Hp. }
      destruct (match ids, logins with
                | [], [] => (s1, [])
                | _, _ => call_load doc deb s1
                end) as [s2 e4].
      cbn [fst snd] in *. rewrite !notified_app, !occ_app. id_lia. }
    destruct nodes as [ns|].
    + destruct (NoDup_process_nodes payload ns f0 Hf1 Hf2) as [H1 H2].
      etransitivity; [exact (Hgen (process_nodes payload ns f0) H1 H2)|].
      by apply occ_process_nodes.
    + etransitivity; [exact (Hgen (f0, []) Hf1 Hf2)|]. occ_lia.
Qed.

Lemma occ_timer_fire (doc : Doc) (s : Sched) :
  occ w (sched_pending (timer_fire doc s).1) +
  occ w (notified (timer_fire doc s).2) = occ w (sched_pending s).
Proof.
  unfold timer_fire, load_begin. destruct (timer s); [|occ_lia].
  cbn [loading set_timer]. destruct (loading s); occ_lia.
Qed.

Lemma occ_memorizeTag (node : option TagNode) (dispatch : bool) (t : TagStore) :
  NoDup (reg_keys (_waiting_tags t)) →
  occ w (pending (_waiting_tags (memorizeTag node dispatch t).1.1)) +
  occ w (notified (memorizeTag node dispatch t).1.2) =
  occ w (pending (_waiting_tags t)).
Proof.
  intros H. destruct node as [n|]; [|occ_lia].
  destruct (memorizeTag (Some n) dispatch t).2 as [tag|] eqn:Hres.
  - pose proof (memorizeTag_dispatch n dispatch t tag Hres) as (_ & _ & _ & Hd).
    destruct (dispatch && truthy_str (tag_description tag));
      destruct Hd as [-> ->]; [|occ_lia].
    rewrite notified_fulfil_all, (occ_pending_delete (tag_id tag) _ H). id_lia.
  - rewrite (memorizeTag_malformed _ _ _ Hres). occ_lia.
Qed.

Lemma occ_loadTags_nodes (ns : list (option TagNode)) (ids : list JKey)
    (t : TagStore) :
  NoDup (reg_keys (_waiting_tags t)) →
  occ w (pending (_waiting_tags (loadTags_nodes ns ids t).1.1.1)) +
  occ w (notified (loadTags_nodes ns ids t).1.2) =
  occ w (pending (_waiting_tags t)).
Proof.
  revert ids t. induction ns as [|node ns IH]; intros ids t H; [occ_lia|].
  cbn [loadTags_nodes].
  pose proof (occ_memorizeTag node false t H) as H0.
  destruct (tags_memorizeTag_ok node false t H) as [H1 _].
  destruct (memorizeTag node false t) as [[t1 e0] [tag|]]; [|done].
  cbn [fst snd] in *.
  set (t2 := set_waiting_tags (reg_delete (tag_id tag) (_waiting_tags t1)) t1).
  assert (NoDup (reg_keys (_waiting_tags t2))) as H2.
  { subst t2. cbn. rewrite reg_keys_delete. by apply NoDup_set_delete. }
  specialize (IH (set_delete (tag_id tag) ids) t2 H2).
  destruct (loadTags_nodes ns (set_delete (tag_id tag) ids) t2)
    as [[[t3 s3] e3] c].
  cbn [fst snd] in *. rewrite !notified_app, !occ_app.
  pose proof (occ_pending_delete (tag_id tag) _ H1) as Hd.
  assert (occ w (notified match reg_get (tag_id tag) (_waiting_tags t1) with
                          | Some ws => fulfil_all (VTag tag) ws
                          | None => []
                          end) =
          occ w (default [] (reg_get (tag_id tag) (_waiting_tags t1)))) as ->.
  { destruct (reg_get _ _); [by rewrite notified_fulfil_all | done]. }
  subst t2. cbn [_waiting_tags set_waiting_tags] in IH. id_lia.
Qed.

Lemma occ_loadTags_settle (r : TagResult) (t : TagStore) :
  NoDup (reg_keys (_waiting_tags t)) →
  occ w (pending (_waiting_tags (loadTags_settle r t).1.1)) +
  occ w (notified (loadTags_settle r t).1.2) =
  occ w (pending (_waiting_tags t)).
Proof.
  intros H. unfold loadTags_settle.
  destruct (inflight_tags t) as [ids|]; [|occ_lia].
  destruct r as [err|nodes].
  - unfold reject_selected.
    pose proof (occ_drain_strict (λ x, Reject x err) ids
                  (_waiting_tags (set_inflight_tags None t)) (λ _, eq_refl) H)
      as H1.
    by destruct (drain_strict _ ids _) as [[r' ev] c].
  - assert (occ w (pending (_waiting_tags
      (match nodes with
       | Some ns => loadTags_nodes ns ids (set_inflight_tags None t)
       | None => (set_inflight_tags None t, ids, [], Returned)
       end).1.1.1)) +
      occ w (notified
      (match nodes with
       | Some ns => loadTags_nodes ns ids (set_inflight_tags None t)
       | None => (set_inflight_tags None t, ids, [], Returned)
       end).1.2) = occ w (pending (_waiting_tags t)) ∧
      NoDup (reg_keys (_waiting_tags
      (match nodes with
       | Some ns => loadTags_nodes ns ids (set_inflight_tags None t)
       | None => (set_inflight_tags None t, ids, [], Returned)
       end).1.1.1))) as [H1 Hn1].
    { destruct nodes as [ns|]; [|by split; [occ_lia|]].
      split; [exact (occ_loadTags_nodes ns ids (set_inflight_tags None t) H)|].
      exact (proj1 (tags_loadTags_nodes_ok ns ids (set_inflight_tags None t) H)). }
    destruct (match nodes with Some ns => _ | None => _ end)
      as [[[t1 id_set] e1] [|]]; [|done].
    cbn [fst snd] in *.
    pose proof (occ_drain_strict (λ x, Fulfil x VNull) id_set
                  (_waiting_tags t1) (λ _, eq_refl) Hn1) as H2.
    destruct (drain_strict _ id_set (_waiting_tags t1)) as [[r' e2] [|]];
      cbn [fst snd] in *; rewrite notified_app, occ_app.
    + assert (_waiting_tags
                match r' with
                | [] => set_loading_tags false (set_waiting_tags r' t1)
                | _ :: _ =>
                    _loadTags (set_loading_tags false (set_waiting_tags r' t1))
                end = r') as -> by by destruct r'.
      id_lia.
    + cbn [_waiting_tags set_waiting_tags]. id_lia.
Qed.

Lemma occ_topTags_nodes (ns : list (option TagNode))
    (seen : gset (option JKey)) (t : TagStore) :
  NoDup (reg_keys (_waiting_tags t)) →
  occ w (pending (_waiting_tags (topTags_nodes ns seen t).1.1)) +
  occ w (notified (topTags_nodes ns seen t).1.2) =
  occ w (pending (_waiting_tags t)).
Proof.
  revert seen t. induction ns as [|[n|] ns IH]; intros seen t H;
    [occ_lia | | by apply IH].
  cbn [topTags_nodes]. destruct (bool_decide _); [by apply IH|].
  pose proof (occ_memorizeTag (Some n) true t H) as H0.
  destruct (tags_memorizeTag_ok (Some n) true t H) as [H1 _].
  destruct (memorizeTag (Some n) true t) as [[t1 e1] tag]. cbn [fst snd] in *.
  specialize (IH ({[tn_id n]} ∪ seen) t1 H1).
  destruct (topTags_nodes ns _ t1) as [[t2 e2] out]. cbn [fst snd] in *.
  rewrite notified_app, occ_app. id_lia.
Qed.

Lemma occ_getTag (x : Waiter) (id : JKey) (want : bool) (t : TagStore) :
  occ w (pending (_waiting_tags (getTag x id want t).1)) +
  occ w (notified (getTag x id want t).2) =
  occ w (pending (_waiting_tags t)) + occ w [x].
Proof.
  destruct (cache_answers id want (tag_cache t)) eqn:Ea.
  - unfold getTag, cache_answers in *.
    destruct (tag_cache t !! id) as [out|]; [|done]. rewrite Ea.
    cbn [fst snd]. change (notified [Fulfil x (VTag out)]) with [x]. id_lia.
  - destruct (getTag_registers x id want t Ea) as (-> & _ & -> & _).
    rewrite occ_pending_register. occ_lia.
Qed.

Lemma occ_tags_timer_fire (t : TagStore) :
  occ w (pending (_waiting_tags (tags_timer_fire t).1)) +
  occ w (notified (tags_timer_fire t).2) = occ w (pending (_waiting_tags t)).
Proof.
  unfold tags_timer_fire, loadTags_begin. destruct (timer_tags t); [|occ_lia].
  cbn [_loading_tags set_timer_tags]. destruct (_loading_tags t); occ_lia.
Qed.

Lemma occ_uncaught (c : Completion) : occ w (notified (uncaught c)) = 0.
Proof. by destruct c. Qed.

Lemma occ_step (a : Action) (d : TwitchData) :
  registries_ok d →
  occ w (pending_all (step a d).1) + occ w (notified (step a d).2) =
  occ w (pending_all d) + occ w (caller a).
Proof.
  intros (Hu & Hs & Ht). unfold pending_all.
  destruct a as [x id login|r|x id login| |r|x id want| |r|node dispatch|nodes];
    cbn [step caller].
  - pose proof (occ_request UserBulk users_debounced x id login (users d)) as H.
    unfold getUserBasic. destruct (request _ _ _ _ _ _) as [s ev].
    cbn [fst snd users streams tags] in *. rewrite !occ_app in *. id_lia.
  - pose proof (occ_load_settle UserBulk user_payload users_debounced r _ Hu) as H.
    unfold _loadUsers_settle. destruct (load_settle _ _ _ _ _) as [[s ev] c].
    cbn [fst snd users streams tags] in *.
    rewrite notified_app, !occ_app, occ_uncaught in *. occ_lia.
  - pose proof (occ_request StreamFetch streams_debounced x id login (streams d))
      as H.
    unfold getStreamMeta. destruct (request _ _ _ _ _ _) as [s ev].
    cbn [fst snd users streams tags] in *. rewrite !occ_app in *. id_lia.
  - pose proof (occ_timer_fire StreamFetch (streams d)) as H.
    unfold _loadStreams_timer. destruct (timer_fire _ _) as [s ev].
    cbn [fst snd users streams tags] in *. rewrite !occ_app in *. occ_lia.
  - pose proof (occ_load_settle StreamFetch stream_payload streams_debounced
                  r _ Hs) as H.
    unfold _loadStreams_settle. destruct (load_settle _ _ _ _ _) as [[s ev] c].
    cbn [fst snd users streams tags] in *.
    rewrite notified_app, !occ_app, occ_uncaught in *. occ_lia.
  - pose proof (occ_getTag x id want (tags d)) as H.
    destruct (getTag _ _ _ _) as [s ev].
    cbn [fst snd users streams tags] in *. rewrite !occ_app in *. id_lia.
  - pose proof (occ_tags_timer_fire (tags d)) as H.
    destruct (tags_timer_fire _) as [s ev].
    cbn [fst snd users streams tags] in *. rewrite !occ_app in *. occ_lia.
  - pose proof (occ_loadTags_settle r _ Ht) as H.
    destruct (loadTags_settle _ _) as [[s ev] c].
    cbn [fst snd users streams tags] in *.
    rewrite notified_app, !occ_app, occ_uncaught in *. occ_lia.
  - pose proof (occ_memorizeTag node dispatch _ Ht) as H.
    destruct (memorizeTag _ _ _) as [[s ev] o].
    cbn [fst snd users streams tags] in *. rewrite !occ_app in *. occ_lia.
  - unfold getTopTags. destruct nodes as [ns|];
      [|cbn [fst snd users streams tags]; occ_lia].
    pose proof (occ_topTags_nodes ns ∅ _ Ht) as H.
    destruct (topTags_nodes _ _ _) as [[s ev] o].
    cbn [fst snd users streams tags] in *. rewrite !occ_app in *. occ_lia.
Qed.

Lemma occ_run (acts : list Action) (d : TwitchData) :
  registries_ok d →
  occ w (pending_all (run acts d).1) + occ w (notified (run acts d).2) =
  occ w (pending_all d) + occ w (callers acts).
Proof.
  revert d. induction acts as [|a acts IH]; intros d H; [occ_lia|].
  cbn [run]. pose proof (occ_step a d H) as H1.
  destruct (registries_ok_step a d H) as [Hok _].
  destruct (step a d) as [d1 e1]. cbn [fst snd] in *.
  specialize (IH d1 Hok). destruct (run acts d1) as [d2 e2].
  cbn [fst snd] in *. unfold callers in *. cbn [map concat].
  rewrite notified_app, !occ_app. id_lia.
Qed.

End Conservation.

Lemma run_conserves (acts : list Action) :
  pending_all (run acts fresh).1 ++ notified (run acts fresh).2 ≡ₚ callers acts.
Proof.
  apply (Permutation_count_occ Nat.eq_dec). intros w.
  fold (occ w (pending_all (run acts fresh).1 ++ notified (run acts fresh).2)).
  fold (occ w (callers acts)).
  rewrite occ_app, (occ_run w acts fresh registries_ok_fresh). done.
Qed.

(** Whatever is done to an object that started fresh, and whichever cycles
    fail or break off, the waiters it still holds together with the waiters
    it has notified (fulfilled or rejected) are, counted with repetition, the
    promises its lookups made: no waiter is ever dropped without an answer,
    none is answered that did not ask, and none is answered more often than
    it asked. *)
Theorem waiters_conserved (acts : list Action) :
  pending_all (run acts fresh).1 ++ notified (run acts fresh).2 ≡ₚ callers acts.
Proof. apply run_conserves. Qed.

(** When every lookup of a run made its own promise, no promise is settled
    twice, a settled promise is not held any more, and a promise that is
    not settled yet is still held under some key. *)
Theorem settled_at_most_once (acts : list Action) :
  NoDup (callers acts) →
  NoDup (notified (run acts fresh).2) ∧
  (∀ w, w ∈ notified (run acts fresh).2 → w ∉ pending_all (run acts fresh).1) ∧
  (∀ w, w ∈ callers acts → w ∉ notified (run acts fresh).2 →
        w ∈ pending_all (run acts fresh).1).
Proof.
  intros Hnd. pose proof (run_conserves acts) as Hp.
  rewrite <- Hp in Hnd. apply NoDup_app in Hnd as (_ & Hdis & Hn).
  split; [done|]. split.
  - intros w Hw Hpend. by apply (Hdis w).
  - intros w Hw Hnot. rewrite <- Hp in Hw.
    apply elem_of_app in Hw as [Hw|Hw]; done.
Qed.

Lemma settled_at_most_once_witness :
  NoDup (notified (run busy_run fresh).2).
Proof.
  apply (settled_at_most_once busy_run).
  by apply (bool_decide_unpack _).
Defined.

(** ** One cycle at a time *)

Lemma no_query_queries (ev : list Event) :
  Forall (λ e, is_query e = false) ev → queries ev = [].
Proof.
  induction 1 as [|e ev He _ IH]; [done|].
  unfold queries in *. cbn. by rewrite He.
Qed.

Lemma flag_ok_loading (s : Sched) : loading s = true → flag_ok s.
Proof. by intros H _. Qed.

Lemma flag_ok_call_load (doc : Doc) (deb : bool) (s : Sched) :
  flag_ok s → flag_ok (call_load doc deb s).1.
Proof.
  intros H. unfold call_load. destruct deb; [done|].
  apply flag_ok_loading, load_begin_flag.
Qed.

Lemma flag_ok_timer_fire (doc : Doc) (s : Sched) :
  flag_ok s → flag_ok (timer_fire doc s).1.
Proof.
  intros H. unfold timer_fire. destruct (timer s); [|done].
  apply flag_ok_loading, load_begin_flag.
Qed.

Lemma flag_ok_request (doc : Doc) (deb : bool) (w : Waiter)
    (id login : option JKey) (s : Sched) :
  flag_ok s → flag_ok (request doc deb w id login s).1.
Proof.
  intros H. unfold request.
  assert (∀ s1 ev1, flag_ok s1 →
            flag_ok (if loading s1 then (s1, ev1)
                     else let '(s2, ev2) := call_load doc deb s1 in
                          (s2, ev1 ++ ev2)).1) as Hrest.
  { intros s1 ev1 H1. destruct (loading s1); [done|].
    pose proof (flag_ok_call_load doc deb s1 H1).
    by destruct (call_load doc deb s1). }
  destruct (if_truthy id) as [i|]; [|destruct (if_truthy login) as [l|]];
    by apply Hrest.
Qed.

Lemma flag_ok_load_settle (doc : Doc) (payload : Node → Value) (deb : bool)
    (r : Result) (s : Sched) :
  flag_ok s → flag_ok (load_settle doc payload deb r s).1.1.
Proof.
  intros H. unfold load_settle. destruct (inflight s) as [c|]; [|done].
  destruct r as [err|nodes]; cbn [fst].
  - destruct (load_failed_flag c err (set_inflight None s)) as (_ & Hi & _).
    intros [c' Hc']. rewrite Hi in Hc'. done.
  - destruct (load_succeeded_rearm doc payload deb c nodes (set_inflight None s))
      as (s1 & Hl & Hi & _ & _ & _ & Hr).
    assert (flag_ok s1) as H1 by (intros [c' Hc']; by rewrite Hi in Hc').
    set (r := load_succeeded doc payload deb c nodes (set_inflight None s)) in *.
    destruct (waiting_ids r.1), (waiting_logins r.1); rewrite Hr; try done;
      by apply flag_ok_call_load.
Qed.

Section TagNotifications.

Variable Q : Event → Prop.
Hypothesis Q_fulfil : ∀ w v, Q (Fulfil w v).

Lemma Q_memorizeTag (node : option TagNode) (dispatch : bool) (t : TagStore) :
  Forall Q (memorizeTag node dispatch t).1.2 ∧
  _loading_tags (memorizeTag node dispatch t).1.1 = _loading_tags t ∧
  inflight_tags (memorizeTag node dispatch t).1.1 = inflight_tags t.
Proof.
  destruct node as [n|]; [|by split; [constructor|]].
  destruct (memorizeTag (Some n) dispatch t).2 as [tag|] eqn:Hres.
  - pose proof (memorizeTag_dispatch n dispatch t tag Hres) as (Hl & Hi & _ & Hd).
    split; [|done].
    destruct (dispatch && truthy_str (tag_description tag));
      destruct Hd as [-> _]; [by apply Q_fulfil_all | constructor].
  - rewrite (memorizeTag_malformed _ _ _ Hres). by split; [constructor|].
Qed.

Lemma Q_topTags_nodes (ns : list (option TagNode)) (seen : gset (option JKey))
    (t : TagStore) :
  Forall Q (topTags_nodes ns seen t).1.2 ∧
  _loading_tags (topTags_nodes ns seen t).1.1 = _loading_tags t ∧
  inflight_tags (topTags_nodes ns seen t).1.1 = inflight_tags t.
Proof.
  revert seen t. induction ns as [|[n|] ns IH]; intros seen t;
    [by split; [constructor|] | | by apply IH].
  cbn [topTags_nodes]. destruct (bool_decide _); [by apply IH|].
  destruct (Q_memorizeTag (Some n) true t) as (He1 & Hl1 & Hi1).
  destruct (memorizeTag (Some n) true t) as [[t1 e1] tag]. cbn [fst snd] in *.
  destruct (IH ({[tn_id n]} ∪ seen) t1) as (He2 & Hl2 & Hi2).
  destruct (topTags_nodes ns _ t1) as [[t2 e2] out]. cbn [fst snd] in *.
  split; [rewrite Forall_app; by split|]. split; congruence.
Qed.

End TagNotifications.

Lemma loadTags_nodes_inflight (ns : list (option TagNode)) (ids : list JKey)
    (t : TagStore) :
  inflight_tags (loadTags_nodes ns ids t).1.1.1 = inflight_tags t.
Proof.
  revert ids t. induction ns as [|node ns IH]; intros ids t; [done|].
  cbn [loadTags_nodes].
  destruct (Q_memorizeTag (λ _, True) (λ _ _, I) node false t) as (_ & _ & Hi).
  destruct (memorizeTag node false t) as [[t1 e0] [tag|]];
    cbn [fst snd] in *; [|done].
  match goal with |- context [loadTags_nodes ns ?i ?t2] =>
    specialize (IH i t2); destruct (loadTags_nodes ns i t2) as [[[? ?] ?] ?]
  end.
  cbn [fst] in *. by rewrite IH.
Qed.

Lemma loadTags_settle_inflight (r : TagResult) (t : TagStore) :
  is_Some (inflight_tags t) → inflight_tags (loadTags_settle r t).1.1 = None.
Proof.
  intros [ids Hin]. unfold loadTags_settle. rewrite Hin.
  destruct r as [err|nodes].
  - by destruct (reject_selected err ids _) as [[? ?] ?].
  - assert (inflight_tags
      (match nodes with
       | Some ns => loadTags_nodes ns ids (set_inflight_tags None t)
       | None => (set_inflight_tags None t, ids, [], Returned)
       end).1.1.1 = None) as H1.
    { destruct nodes as [ns|]; [|done]. by rewrite loadTags_nodes_inflight. }
    destruct (match nodes with Some ns => _ | None => _ end)
      as [[[t1 id_set] e1] [|]]; [|done].
    cbn [fst] in H1.
    destruct (drain_strict _ id_set (_waiting_tags t1)) as [[w e2] [|]]; [|done].
    by destruct w.
Qed.

Lemma getTag_flags (w : Waiter) (id : JKey) (want : bool) (t : TagStore) :
  _loading_tags (getTag w id want t).1 = _loading_tags t ∧
  inflight_tags (getTag w id want t).1 = inflight_tags t.
Proof.
  destruct (cache_answers id want (tag_cache t)) eqn:Ea.
  - unfold getTag, cache_answers in *.
    destruct (tag_cache t !! id) as [out|]; [|done]. by rewrite Ea.
  - by destruct (getTag_registers w id want t Ea) as (_ & _ & _ & Hl & Hi & _).
Qed.

Lemma tags_timer_fire_flag (t : TagStore) :
  (is_Some (inflight_tags t) → _loading_tags t = true) →
  is_Some (inflight_tags (tags_timer_fire t).1) →
  _loading_tags (tags_timer_fire t).1 = true.
Proof.
  intros H. unfold tags_timer_fire, loadTags_begin.
  destruct (timer_tags t); [|done].
  cbn [_loading_tags set_timer_tags].
  destruct (_loading_tags t) eqn:El; [|done].
  cbn [fst inflight_tags _loading_tags set_timer_tags]. by rewrite El.
Qed.

Lemma flags_ok_step (a : Action) (d : TwitchData) :
  flags_ok d → flags_ok (step a d).1.
Proof.
  intros (Hu & Hs & Ht).
  destruct a as [w id login|r|w id login| |r|w id want| |r|node dispatch|nodes];
    cbn [step].
  - pose proof (flag_ok_request UserBulk users_debounced w id login _ Hu) as H.
    unfold getUserBasic. by destruct (request _ _ _ _ _ _).
  - pose proof (flag_ok_load_settle UserBulk user_payload users_debounced r _ Hu)
      as H.
    unfold _loadUsers_settle. by destruct (load_settle _ _ _ _ _) as [[? ?] ?].
  - pose proof (flag_ok_request StreamFetch streams_debounced w id login _ Hs)
      as H.
    unfold getStreamMeta. by destruct (request _ _ _ _ _ _).
  - pose proof (flag_ok_timer_fire StreamFetch _ Hs) as H.
    unfold _loadStreams_timer. by destruct (timer_fire _ _).
  - pose proof (flag_ok_load_settle StreamFetch stream_payload streams_debounced
                  r _ Hs) as H.
    unfold _loadStreams_settle. by destruct (load_settle _ _ _ _ _) as [[? ?] ?].
  - destruct (getTag_flags w id want (tags d)) as [Hl Hi].
    destruct (getTag w id want (tags d)) as [t ev]. cbn [fst] in *.
    split; [done|]. split; [done|]. cbn [tags]. by rewrite Hl, Hi.
  - pose proof (tags_timer_fire_flag (tags d) Ht) as H.
    destruct (tags_timer_fire (tags d)) as [t ev]. cbn [fst] in *.
    by split; [|split].
  - assert (is_Some (inflight_tags (loadTags_settle r (tags d)).1.1) →
            _loading_tags (loadTags_settle r (tags d)).1.1 = true) as H.
    { destruct (inflight_tags (tags d)) as [ids|] eqn:Ein.
      - rewrite loadTags_settle_inflight by by rewrite Ein. by intros [? ?].
      - unfold loadTags_settle. rewrite Ein. cbn [fst]. rewrite Ein.
        by intros [? ?]. }
    destruct (loadTags_settle r (tags d)) as [[t ev] c]. cbn [fst] in *.
    by split; [|split].
  - destruct (Q_memorizeTag (λ _, True) (λ _ _, I) node dispatch (tags d))
      as (_ & Hl & Hi).
    destruct (memorizeTag node dispatch (tags d)) as [[t ev] o].
    cbn [fst] in *. split; [done|]. split; [done|]. cbn [tags].
    by rewrite Hl, Hi.
  - unfold getTopTags. destruct nodes as [ns|]; [|done].
    destruct (Q_topTags_nodes (λ _, True) (λ _ _, I) ns ∅ (tags d))
      as (_ & Hl & Hi).
    destruct (topTags_nodes ns ∅ (tags d)) as [[t ev] o].
    cbn [fst] in *. split; [done|]. split; [done|]. cbn [tags].
    by rewrite Hl, Hi.
Qed.

Lemma flags_ok_run (acts : list Action) (d : TwitchData) :
  flags_ok d → flags_ok (run acts d).1.
Proof.
  revert d. induction acts as [|a acts IH]; intros d H; [done|].
  cbn [run]. pose proof (flags_ok_step a d H) as H1.
  destruct (step a d) as [d1 e1]. cbn [fst] in *.
  specialize (IH d1 H1). by destruct (run acts d1).
Qed.

Lemma flags_ok_fresh : flags_ok fresh.
Proof. repeat split; by intros [? ?]. Qed.

(** The step of an action that is not the settling of the cycle in
    flight. *)
Lemma cycle_kept_step (k : Kind) (a : Action) (d : TwitchData)
    (keys : list JKey * list JKey) :
  flags_ok d → cycle_in_flight k d = Some keys →
  (kind_of a = k → settles a = false) →
  cycle_in_flight k (step a d).1 = Some keys ∧
  (kind_of a = k → queries (step a d).2 = []).
Proof.
  intros (Hu & Hs & Ht) Hc Hset.
  assert (kind_of a ≠ k →
          cycle_in_flight k (step a d).1 = Some keys ∧
          (kind_of a = k → queries (step a d).2 = [])) as Hother.
  { intros Hne. split; [|done]. rewrite <- Hc. clear -Hne.
    destruct a, k; cbn [step]; try done;
      repeat match goal with
             | |- context [let '(_, _) := ?x in _] => destruct x as [? ?]
             end;
      try done;
      repeat match goal with
             | |- context [match ?x with (_, _) => _ end] => destruct x
             end; done. }
  destruct (decide (kind_of a = k)) as [Hk|Hk]; [|by apply Hother].
  specialize (Hset Hk). clear Hother. subst k.
  destruct a as [w id login|r|w id login| |r|w id want| |r|node dispatch|nodes];
    try done; cbn [kind_of cycle_in_flight step] in *.
  - assert (loading (users d) = true) as Hl.
    { apply Hu. by destruct (inflight (users d)). }
    destruct (request_while_loading UserBulk users_debounced w id login _ Hl)
      as (_ & Hi & _ & Hq).
    unfold getUserBasic. destruct (request _ _ _ _ _ _) as [s ev].
    cbn [fst snd users] in *. by rewrite Hi.
  - assert (loading (streams d) = true) as Hl.
    { apply Hs. by destruct (inflight (streams d)). }
    destruct (request_while_loading StreamFetch streams_debounced w id login _ Hl)
      as (_ & Hi & _ & Hq).
    unfold getStreamMeta. destruct (request _ _ _ _ _ _) as [s ev].
    cbn [fst snd streams] in *. by rewrite Hi.
  - assert (loading (streams d) = true) as Hl.
    { apply Hs. by destruct (inflight (streams d)). }
    unfold _loadStreams_timer, timer_fire, load_begin.
    destruct (timer (streams d)); [|done].
    cbn [loading set_timer]. rewrite Hl. done.
  - destruct (getTag_flags w id want (tags d)) as [_ Hi].
    assert (queries (getTag w id want (tags d)).2 = []) as Hq.
    { destruct (cache_answers id want (tag_cache (tags d))) eqn:Ea.
      - unfold getTag, cache_answers in *.
        destruct (tag_cache (tags d) !! id) as [out|]; [|done]. by rewrite Ea.
      - by destruct (getTag_registers w id want (tags d) Ea) as (-> & _). }
    destruct (getTag w id want (tags d)) as [t ev]. cbn [fst snd tags] in *.
    by rewrite Hi.
  - assert (_loading_tags (tags d) = true) as Hl.
    { apply Ht. by destruct (inflight_tags (tags d)). }
    unfold tags_timer_fire, loadTags_begin.
    destruct (timer_tags (tags d)); [|done].
    cbn [_loading_tags set_timer_tags]. rewrite Hl. done.
  - destruct (Q_memorizeTag (λ e, is_query e = false) (λ _ _, eq_refl)
                node dispatch (tags d)) as (He & _ & Hi).
    destruct (memorizeTag node dispatch (tags d)) as [[t ev] o].
    cbn [fst snd tags] in *. rewrite Hi. split; [done|].
    intros _. by apply no_query_queries.
  - unfold getTopTags. destruct nodes as [ns|]; [|done].
    destruct (Q_topTags_nodes (λ e, is_query e = false) (λ _ _, eq_refl)
                ns ∅ (tags d)) as (He & _ & Hi).
    destruct (topTags_nodes ns ∅ (tags d)) as [[t ev] o].
    cbn [fst snd tags] in *. rewrite Hi. split; [done|].
    intros _. by apply no_query_queries.
Qed.

(** At most one cycle of a kind is in flight.  In every state an object
    that started fresh can reach, a cycle in flight stays the cycle in
    flight of its kind, with the keys it selected, until the action that
    settles its query: no lookup, no timer and no eager read of that kind
    makes a query meanwhile, whatever joins the registries. *)
Theorem one_cycle_at_a_time (acts : list Action) (k : Kind) (a : Action)
    (keys : list JKey * list JKey) :
  cycle_in_flight k (run acts fresh).1 = Some keys →
  (kind_of a = k → settles a = false) →
  cycle_in_flight k (step a (run acts fresh).1).1 = Some keys ∧
  (kind_of a = k → queries (step a (run acts fresh).1).2 = []).
Proof.
  intros Hc Hs. apply cycle_kept_step; [|done|done].
  apply flags_ok_run, flags_ok_fresh.
Qed.

Lemma one_cycle_at_a_time_witness :
  cycle_in_flight Tags
    (step (CallGetTag 9 (KStr "t7") true) (run tags_in_flight fresh).1).1 =
  Some ([KStr "t1"; KStr "t2"], []).
Proof.
  apply (one_cycle_at_a_time tags_in_flight Tags (CallGetTag 9 (KStr "t7") true)
           ([KStr "t1"; KStr "t2"], [])); [reflexivity | by intros _].
Defined.

Lemma loadTags_settle_failure_witness :
  (loadTags_settle (TagsFailed "network down") tags_selected).1.2 =
  [Reject 0 "network down"; Reject 1 "network down"].
Proof.
  destruct (loadTags_settle_failure [KStr "t1"; KStr "t2"] "network down"
              tags_selected eq_refl) as (_ & _ & H).
  destruct H as (_ & Hev & _);
    [by apply (bool_decide_unpack _) | intros k Hk; exact Hk |].
  rewrite Hev. reflexivity.
Defined.

(** ** The request handed to the client *)

Lemma obj_get_set (n k : string) (v : JsVal) (o : Fields) :
  obj_get n (obj_set k v o) = if decide (n = k) then Some v else obj_get n o.
Proof.
  induction o as [|[k' v'] o IH]; cbn [obj_set obj_get].
  - destruct (decide (k = n)), (decide (n = k)); congruence.
  - destruct (decide (k' = k)) as [->|Hk]; cbn [obj_get].
    + destruct (decide (k = n)), (decide (n = k)); congruence.
    + destruct (decide (k' = n)) as [->|Hn].
      * by rewrite decide_False by congruence.
      * exact IH.
Qed.

Lemma obj_get_None (n : string) (o : Fields) : n ∉ o.*1 → obj_get n o = None.
Proof.
  induction o as [|[k v] o IH]; [done|]. cbn. intros H.
  apply not_elem_of_cons in H as [Hn Ho].
  rewrite decide_False by congruence. by apply IH.
Qed.

Lemma obj_get_assign (n : string) (target source : Fields) :
  NoDup source.*1 →
  obj_get n (obj_assign target source) =
  match obj_get n source with
  | Some v => Some v
  | None => obj_get n target
  end.
Proof.
  revert target. induction source as [|[k v] s IH]; intros target Hnd; [done|].
  cbn in Hnd. apply NoDup_cons in Hnd as [Hk Hnd].
  unfold obj_assign in *. cbn [fold_left fst snd obj_get].
  rewrite (IH _ Hnd), obj_get_set.
  destruct (decide (k = n)) as [->|Hne].
  - rewrite decide_True by done. by rewrite obj_get_None.
  - rewrite decide_False by congruence. done.
Qed.

(** The two calling conventions of [queryApollo] and [mutate] hand the same
    request to the client: a document given with its variables (and no
    options) is wrapped into [{query, variables}], and that object given
    alone is passed on as it is, so wrapping is idempotent.  (The document
    must be truthy, and must not itself look like a request when no
    variables come with it.) *)
Theorem request_conventions_agree (key : string) (doc variables : JsVal) :
  truthy_val doc = true →
  (truthy_val variables = true ∨
   ∀ p, get_prop doc key = Some p → truthy_val p = false) →
  let request := JObject [(key, doc); ("variables"%string, variables)] in
  build_request key doc variables None = Some request ∧
  build_request key request JUndefined None = Some request ∧
  build_request key request JNull None = Some request.
Proof.
  intros Hdoc Hv. cbv zeta. unfold build_request.
  cbn [truthy_val negb andb bool_decide get_prop obj_get default].
  assert (bool_decide (is_Some (None : option Fields)) = false) as ->.
  { apply bool_decide_eq_false_2. by intros [? ?]. }
  rewrite decide_True by done.
  change (default JUndefined (Some doc)) with doc.
  cbn [andb negb]. rewrite Hdoc. split; [|done].
  destruct (truthy_val variables) eqn:Ev; cbn [negb andb]; [done|].
  destruct Hv as [Hv|Hv]; [done|].
  destruct (get_prop doc key) as [p|] eqn:Ep.
  - by rewrite (Hv p eq_refl).
  - by destruct doc.
Qed.

Lemma request_conventions_agree_witness :
  queryApollo broadcast_document broadcast_variables None =
  queryApollo (JObject [("query"%string, broadcast_document);
                        ("variables"%string, broadcast_variables)])
    JUndefined None.
Proof.
  destruct (request_conventions_agree "query" broadcast_document
              broadcast_variables eq_refl (or_introl eq_refl)) as (H1 & H2 & _).
  unfold queryApollo. by rewrite H1, H2.
Defined.

(** With options the request is always built anew, and the options win:
    every property of the options is a property of the request, with the
    value the options give it, also when it is named [query] or
    [variables]; the other properties are the two positional arguments.
    Nothing is read off the first argument, so nothing is thrown. *)
Theorem request_options_override (key : string) (q variables : JsVal)
    (options : Fields) :
  NoDup options.*1 →
  ∃ request,
    build_request key q variables (Some options) = Some (JObject request) ∧
    ∀ name,
      obj_get name request =
      match obj_get name options with
      | Some v => Some v
      | None => obj_get name [(key, q); ("variables"%string, variables)]
      end.
Proof.
  intros Hnd. unfold build_request.
  assert (bool_decide (is_Some (Some options)) = true) as ->.
  { by apply bool_decide_eq_true_2. }
  rewrite andb_false_r. eexists. split; [reflexivity|].
  intros name. by apply obj_get_assign.
Qed.

Lemma request_options_override_witness :
  ∃ request,
    queryApollo broadcast_document broadcast_variables (Some cache_options) =
      Some (JObject request) ∧
    obj_get "variables" request = Some (JObject [("id"%string, JString "1")]).
Proof.
  destruct (request_options_override "query" broadcast_document
              broadcast_variables cache_options) as (request & Hr & Hget).
  - by apply (bool_decide_unpack _).
  - exists request. split; [exact Hr|]. by rewrite Hget.
Defined.

(** ** A call without a key *)

(** A lookup that gives neither an id nor a login is rejected, and the
    executor goes on to the load all the same: on a scheduler that runs no
    cycle, [getUserBasic] starts a cycle at once, whose query carries
    whatever is pending (nothing at all, [null] and [null], when the
    registries are empty), and [getStreamMeta] arms the timer, so that the
    same query is made when it fires.  The caller's waiter is in neither
    registry. *)
Theorem keyless_call_still_loads (w : Waiter) (id login : option JKey)
    (s : Sched) :
  if_truthy id = None → if_truthy login = None → loading s = false →
  let c := select_batch s in
  getUserBasic w id login s =
    (set_inflight (Some c) (set_loading true s),
     [Reject w invalid_key;
      Query UserBulk (or_null (c_ids c)) (or_null (c_logins c))]) ∧
  getStreamMeta w id login s = (set_timer true s, [Reject w invalid_key]) ∧
  (_loadStreams_timer (getStreamMeta w id login s).1).2 =
    [Query StreamFetch (or_null (c_ids c)) (or_null (c_logins c))] ∧
  (waiting_ids s = [] → waiting_logins s = [] →
   or_null (c_ids c) = None ∧ or_null (c_logins c) = None).
Proof.
  intros Hi Hl Hload. cbv zeta.
  unfold getUserBasic, getStreamMeta, request. rewrite Hi, Hl, Hload.
  unfold call_load, users_debounced, streams_debounced, load_begin.
  rewrite Hload. split; [done|]. split; [done|]. split.
  - unfold _loadStreams_timer, timer_fire, load_begin. cbn. by rewrite Hload.
  - intros Hids Hlogins. unfold select_batch. rewrite Hids, Hlogins. done.
Qed.

Lemma keyless_call_still_loads_witness :
  getUserBasic 0 None (Some (KStr "")) idle_sched =
  (mkSched [] [] true (Some (mkCycle [] [])) false,
   [Reject 0 invalid_key; Query UserBulk None None]).
Proof.
  exact (proj1 (keyless_call_still_loads 0 None (Some (KStr "")) idle_sched
                  eq_refl eq_refl eq_refl)).
Defined.

(** ** What a tags cycle writes *)

Lemma memorizeTag_frame (node : option TagNode) (dispatch : bool)
    (t : TagStore) (k : JKey) :
  node ≫= tn_id ≠ Some k →
  tag_cache (memorizeTag node dispatch t).1.1 !! k = tag_cache t !! k.
Proof.
  intros Hk. pose proof (memorizeTag_cache node dispatch t) as Hc.
  destruct (memorizeTag node dispatch t).2 as [tag|].
  - destruct Hc as (n & id & -> & Hid & ->).
    apply if_truthy_Some in Hid as [Hid _]. cbn in Hk.
    rewrite lookup_insert_ne; [done | congruence].
  - by rewrite Hc.
Qed.

Lemma loadTags_nodes_frame (ns : list (option TagNode)) (ids : list JKey)
    (t : TagStore) (k : JKey) :
  k ∉ tag_node_ids ns →
  tag_cache (loadTags_nodes ns ids t).1.1.1 !! k = tag_cache t !! k.
Proof.
  revert ids t. induction ns as [|node ns IH]; intros ids t Hk; [done|].
  assert (node ≫= tn_id ≠ Some k ∧ k ∉ tag_node_ids ns) as [Hn Hns].
  { unfold tag_node_ids in *. cbn in Hk.
    destruct (node ≫= tn_id) as [k'|]; [|done].
    apply not_elem_of_cons in Hk as [? ?]. split; [congruence | done]. }
  cbn [loadTags_nodes].
  pose proof (memorizeTag_frame node false t k Hn) as H1.
  destruct (memorizeTag node false t) as [[t1 e0] [tag|]]; [|done].
  cbn [fst] in H1.
  match goal with |- context [loadTags_nodes ns ?i ?t2] =>
    specialize (IH i t2 Hns); destruct (loadTags_nodes ns i t2) as [[[? ?] ?] ?]
  end.
  cbn [fst] in *. by rewrite IH.
Qed.

(** A tags cycle writes the cache at the ids of the nodes of its response
    and nowhere else, however it ends.  In particular a not-found is not
    remembered: when the cycle ran to its end, an id the response has no
    node for and the cache had no record of is still not cached, and the
    next [getTag] of it is not answered at once but registers again under
    the id, now free, and arms the timer for another cycle. *)
Theorem tags_not_found_not_cached (r : TagResult) (t : TagStore) (k : JKey) :
  match r with
  | TagsFailed _ => True
  | TagsSucceeded nodes => k ∉ tag_node_ids (default [] nodes)
  end →
  let t' := (loadTags_settle r t).1.1 in
  tag_cache t' !! k = tag_cache t !! k ∧
  (tag_cache t !! k = None →
   ∀ w want,
     (getTag w k want t').2 = [] ∧
     reg_get k (_waiting_tags (getTag w k want t').1) =
       Some (default [] (reg_get k (_waiting_tags t')) ++ [w]) ∧
     (_loading_tags t' = false → reg_get k (_waiting_tags t') = None →
      timer_tags (getTag w k want t').1 = true)).
Proof.
  intros Hk. cbv zeta.
  assert (tag_cache (loadTags_settle r t).1.1 !! k = tag_cache t !! k) as Hc.
  { unfold loadTags_settle. destruct (inflight_tags t) as [ids|]; [|done].
    destruct r as [err|nodes].
    - by destruct (reject_selected err ids _) as [[? ?] ?].
    - assert (tag_cache
        (match nodes with
         | Some ns => loadTags_nodes ns ids (set_inflight_tags None t)
         | None => (set_inflight_tags None t, ids, [], Returned)
         end).1.1.1 !! k = tag_cache t !! k) as H1.
      { destruct nodes as [ns|]; [|done].
        exact (loadTags_nodes_frame ns ids (set_inflight_tags None t) k Hk). }
      destruct (match nodes with Some ns => _ | None => _ end)
        as [[[t1 id_set] e1] [|]]; [|done].
      cbn [fst] in H1.
      destruct (drain_strict _ id_set (_waiting_tags t1)) as [[w e2] [|]];
        [|done].
      by destruct w. }
  split; [done|]. intros Hnone w want.
  assert (cache_answers k want (tag_cache (loadTags_settle r t).1.1) = false)
    as Ha.
  { unfold cache_answers. by rewrite Hc, Hnone. }
  destruct (getTag_registers w k want _ Ha) as (He & _ & Hw & _ & _ & Ht).
  split; [done|]. split.
  - rewrite Hw, reg_get_register. by rewrite decide_True.
  - intros Hl Hg. rewrite Ht, Hl. unfold reg_has. rewrite Hg.
    apply orb_true_r.
Qed.

Lemma tags_not_found_not_cached_witness :
  tag_cache
    (loadTags_settle (TagsSucceeded (Some [Some node_english_bare]))
       tags_selected).1.1 !! KStr "t2" = None.
Proof.
  destruct (tags_not_found_not_cached
              (TagsSucceeded (Some [Some node_english_bare]))
              tags_selected (KStr "t2")) as [H _].
  - change (KStr "t2" ∉ [KStr "t1"]). by intros Hx%list_elem_of_singleton.
  - rewrite H. reflexivity.
Defined.
